(** * MedAssistPro (src/index.tsx): monitoring and reconciliation core

    A shallow embedding of the parts of [src/index.tsx] that carry logic:
    the haversine distance, the smartwatch monitor of the [App] component
    (vitals alert, GPS tracking and out-of-bounds alert effects), the
    hospital reconciliation of [handleFindHospitals] and the financial-aid
    handler [handleFindFinancialAid]; and, around them, the login gate
    [AuthGate], the markup of the results, the voice input, the chat of
    the health assistant, the screen of the hospital finder and the
    symptom check with its history.

    Conventions of the embedding.
    - A JavaScript number is an IEEE 754 binary64 value, here a
      [spec_float] with the operations [SF64add], [SF64mul], ... of the
      standard library (round to nearest, ties to even).
    - [Math.sin], [Math.cos] and [Math.atan2] are implementation-approximated
      in ECMAScript: they are an interface ([MathLib]) whose laws
      ([MathLibLaws]) are the results the language fixes at boundary
      arguments. [Math.sqrt] is the IEEE square root.
    - A JavaScript string is a list of code units; the development covers
      the code units U+0000..U+00FF (type [ascii]), a set closed under the
      string operations the program uses.
    - React state is a record; an event handler is a function from the
      record to the next record and the alerts it shows; an effect runs
      after a render when one of its dependencies changed.
    - An asynchronous handler is two functions, one up to its [await] and
      one from the reply on; the second runs on the state that the [App]
      is in when the reply arrives, after whatever handlers have run in
      between. *)

From Stdlib Require Import ZArith List Bool Ascii String Lia Btauto.
From Stdlib Require Import Floats.
Import ListNotations.

#[local] Set Warnings "-inexact-float,-register-all".
#[local] Open Scope Z_scope.

(* ================================================================= *)
(** ** JavaScript numbers *)

Module JsNumber.

Definition number := spec_float.

Definition add : number -> number -> number := SF64add.
Definition sub : number -> number -> number := SF64sub.
Definition mul : number -> number -> number := SF64mul.
Definition div : number -> number -> number := SF64div.
Definition sqrt : number -> number := SF64sqrt.

(** [x > y] *)
Definition gt (x y : number) : bool := SFltb y x.
(** [x < y] *)
Definition lt (x y : number) : bool := SFltb x y.

Definition isFinite (x : number) : bool :=
  match x with
  | S754_zero _ | S754_finite _ _ _ => true
  | S754_infinity _ | S754_nan => false
  end.

Abbreviation posZero := (S754_zero false).
Abbreviation negZero := (S754_zero true).
Abbreviation NaN := S754_nan.

(** The numeric literals of the program. *)
Definition n1 : number := Eval vm_compute in Prim2SF 1%float.
Definition n2 : number := Eval vm_compute in Prim2SF 2%float.
Definition n4 : number := Eval vm_compute in Prim2SF 4%float.
Definition n5 : number := Eval vm_compute in Prim2SF 5%float.
Definition n6 : number := Eval vm_compute in Prim2SF 6%float.
Definition n180 : number := Eval vm_compute in Prim2SF 180%float.
Definition n6371 : number := Eval vm_compute in Prim2SF 6371%float.
Definition n3_8 : number := Eval vm_compute in Prim2SF 3.8%float.
Definition n5_0 : number := Eval vm_compute in Prim2SF 5.0%float.
(** [Math.PI], the binary64 value nearest to pi. *)
Definition Math_PI : number :=
  Eval vm_compute in Prim2SF 0x1.921fb54442d18p+1%float.

(** The implementation-approximated functions of [Math] that
    [calculateDistance] calls. *)
Class MathLib := {
  Math_sin : number -> number;
  Math_cos : number -> number;
  Math_atan2 : number -> number -> number
}.

(** What ECMAScript requires of every implementation (ECMA-262,
    sections Math.sin, Math.cos and Math.atan2): the results at NaN, at
    the zeros and at the infinities. *)
Class MathLibLaws (M : MathLib) : Prop := {
  sin_nan : Math_sin NaN = NaN;
  sin_zero : forall s, Math_sin (S754_zero s) = S754_zero s;
  sin_infinity : forall s, Math_sin (S754_infinity s) = NaN;
  cos_nan : Math_cos NaN = NaN;
  cos_zero : forall s, Math_cos (S754_zero s) = n1;
  cos_infinity : forall s, Math_cos (S754_infinity s) = NaN;
  atan2_nan_l : forall x, Math_atan2 NaN x = NaN;
  atan2_nan_r : forall y, Math_atan2 y NaN = NaN;
  atan2_zero_pos : forall x, gt x posZero = true ->
                             Math_atan2 posZero x = posZero
}.

(** A valid number of magnitude at most 1. *)
Definition inUnitRange (x : number) : bool :=
  valid_binary x && SFleb (SFabs x) n1.

(** Two properties of the functions approximated that the routines of
    the engines keep, beyond what ECMAScript words: the sine of [-x] is
    the sine of [x] with the sign changed, and the cosine of a finite
    number is a number of magnitude at most 1. *)
Class MathLibRange (M : MathLib) : Prop := {
  sin_odd : forall x, Math_sin (SFopp x) = SFopp (Math_sin x);
  cos_range : forall x, isFinite x = true -> inUnitRange (Math_cos x) = true
}.

End JsNumber.
Import JsNumber.

(* ================================================================= *)
(** ** A reference [MathLib]

    One implementation of the interface, by power series in binary64
    arithmetic, with the results ECMAScript fixes at the boundary
    arguments. It serves to run the program on concrete inputs; engines
    ship routines of their own, and the theorems below hold for every
    implementation that satisfies [MathLibLaws]. *)

Module RefMath.

(** A small integer as a number. *)
Definition ofZ (z : Z) : number := binary_normalize prec emax z 0 false.

Definition withSign (s : bool) (x : number) : number :=
  if s then SFopp x else x.

(** [1 - (x2 / k1) * (1 - (x2 / k2) * ...)] *)
Fixpoint horner (x2 : number) (ks : list Z) : number :=
  match ks with
  | [] => n1
  | k :: ks' => sub n1 (mul (div x2 (ofZ k)) (horner x2 ks'))
  end.

Definition sinSeries (x : number) : number :=
  mul x (horner (mul x x) [6; 20; 42; 72; 110; 156; 210; 272; 342; 420; 506; 600]).

Definition cosSeries (x : number) : number :=
  horner (mul x x) [2; 12; 30; 56; 90; 132; 182; 240; 306; 380; 462; 552].

Definition sin (x : number) : number :=
  match x with
  | S754_nan | S754_infinity _ => NaN
  | S754_zero _ => x
  | S754_finite s m e => withSign s (sinSeries (S754_finite false m e))
  end.

(** A value of the series that has left the range of the cosine is
    brought back to its nearer end. *)
Definition clampUnit (v : number) : number :=
  if inUnitRange v then v
  else match v with
       | S754_finite true _ _ | S754_infinity true => SFopp n1
       | _ => n1
       end.

Definition cos (x : number) : number :=
  match x with
  | S754_nan | S754_infinity _ => NaN
  | S754_zero _ => n1
  | S754_finite s m e => clampUnit (cosSeries (S754_finite false m e))
  end.

(** [1/k - t2 * (1/(k+2) - t2 * ...)] *)
Fixpoint atanTail (t2 : number) (n : nat) (k : Z) : number :=
  match n with
  | O => div n1 (ofZ k)
  | S n' => sub (div n1 (ofZ k)) (mul t2 (atanTail t2 n' (k + 2)))
  end.

(** [atan t = 2 * atan (t / (1 + sqrt (1 + t * t)))] *)
Definition halve (t : number) : number :=
  div t (add n1 (sqrt (add n1 (mul t t)))).

(** The arc tangent of [t] in [0, 1]. *)
Definition atanUnit (t : number) : number :=
  let u := halve (halve t) in
  mul n4 (mul u (atanTail (mul u u) 12 1)).

Definition halfPI : number := div Math_PI n2.

(** The arc tangent of [y / x] for positive finite [y] and [x]. *)
Definition atanQuotient (y x : number) : number :=
  if gt y x then sub halfPI (atanUnit (div x y)) else atanUnit (div y x).

Definition signOf (x : number) : bool :=
  match x with
  | S754_zero s | S754_infinity s | S754_finite s _ _ => s
  | S754_nan => false
  end.

Definition atan2 (y x : number) : number :=
  match y, x with
  | S754_nan, _ | _, S754_nan => NaN
  | S754_zero sy, _ => if signOf x then withSign sy Math_PI else y
  | S754_finite sy _ _, S754_zero _ => withSign sy halfPI
  | S754_infinity sy, S754_infinity sx =>
      withSign sy (if sx then mul (ofZ 3) (div Math_PI n4)
                   else div Math_PI n4)
  | S754_infinity sy, _ => withSign sy halfPI
  | S754_finite sy _ _, S754_infinity sx =>
      withSign sy (if sx then Math_PI else posZero)
  | S754_finite sy my ey, S754_finite sx mx ex =>
      let q := atanQuotient (S754_finite false my ey)
                            (S754_finite false mx ex) in
      withSign sy (if sx then sub Math_PI q else q)
  end.

#[export] Instance lib : MathLib :=
  {| Math_sin := sin; Math_cos := cos; Math_atan2 := atan2 |}.

End RefMath.

(* ================================================================= *)
(** ** The haversine distance *)

Section Distance.
Context {M : MathLib}.

(** [calculateDistance], lines 61-71. JavaScript evaluates a product
    [a * b * c * d] from the left. *)
Definition calculateDistance (lat1 lon1 lat2 lon2 : number) : number :=
  let R := n6371 in
  let dLat := div (mul (sub lat2 lat1) Math_PI) n180 in
  let dLon := div (mul (sub lon2 lon1) Math_PI) n180 in
  let a :=
    add (mul (Math_sin (div dLat n2)) (Math_sin (div dLat n2)))
        (mul (mul (mul (Math_cos (div (mul lat1 Math_PI) n180))
                       (Math_cos (div (mul lat2 Math_PI) n180)))
                  (Math_sin (div dLon n2)))
             (Math_sin (div dLon n2))) in
  let c := mul n2 (Math_atan2 (sqrt a) (sqrt (sub n1 a))) in
  mul R c.

End Distance.

(* ================================================================= *)
(** ** JavaScript strings *)

Module JsString.

Definition jsstring := list ascii.

(** A string literal of the program. *)
Definition js (s : string) : jsstring := list_ascii_of_string s.

Definition code (c : ascii) : N := N_of_ascii c.

Fixpoint eqb (s t : jsstring) : bool :=
  match s, t with
  | [], [] => true
  | c :: s', d :: t' => Ascii.eqb c d && eqb s' t'
  | _, _ => false
  end.

(** [!s]: the empty string is the only falsy string. *)
Definition isEmpty (s : jsstring) : bool :=
  match s with [] => true | _ :: _ => false end.

(** LineTerminator code units: LF and CR (U+2028 and U+2029 lie outside
    the code units covered). *)
Definition isLineTerminator (c : ascii) : bool :=
  (code c =? 10)%N || (code c =? 13)%N.

(** WhiteSpace and LineTerminator code units, what [trim] strips: TAB,
    LF, VT, FF, CR, SP and NBSP. *)
Definition isWhiteSpace (c : ascii) : bool :=
  ((9 <=? code c)%N && (code c <=? 13)%N) || (code c =? 32)%N
  || (code c =? 160)%N.

Fixpoint trimStart (s : jsstring) : jsstring :=
  match s with
  | [] => []
  | c :: s' => if isWhiteSpace c then trimStart s' else s
  end.

Definition trimEnd (s : jsstring) : jsstring := rev (trimStart (rev s)).

(** [String.prototype.trim] *)
Definition trim (s : jsstring) : jsstring := trimEnd (trimStart s).

(** [String.prototype.toLowerCase] on one code unit: A-Z, and the
    Latin-1 capitals U+00C0..U+00DE but the multiplication sign. *)
Definition lowerChar (c : ascii) : ascii :=
  let n := code c in
  if ((65 <=? n)%N && (n <=? 90)%N)
     || ((192 <=? n)%N && (n <=? 222)%N && negb (n =? 215)%N)
  then ascii_of_N (n + 32) else c.

Definition toLowerCase (s : jsstring) : jsstring := map lowerChar s.

Fixpoint startsWith (s prefix : jsstring) {struct prefix} : bool :=
  match prefix, s with
  | [], _ => true
  | p :: prefix', c :: s' => Ascii.eqb c p && startsWith s' prefix'
  | _ :: _, [] => false
  end.

(** [String.prototype.includes] *)
Fixpoint includes (s needle : jsstring) : bool :=
  startsWith s needle
  || match s with
     | [] => false
     | _ :: s' => includes s' needle
     end.

End JsString.
Import JsString.

(* ================================================================= *)
(** ** Regular expressions

    The fragment of the pattern language that the program's four
    expressions use, all with the flag [i] and without [g]. *)

Module RegExp.

(** [AnyChar] is the class [[\s\S]] (every code unit), [Dot] is [.]
    (every code unit but a line terminator). *)
Inductive CharSet := AnyChar | Dot.

(** [Lit c] is a pattern character, [LazyStar cs] the lazy star of a
    class, [GroupStar cs] the greedy star of a class inside a capturing
    group. *)
Inductive Term :=
| Lit (c : ascii)
| LazyStar (cs : CharSet)
| GroupStar (cs : CharSet).

Definition Pattern := list Term.

(** Canonicalize of the [i] flag without [u]: the upper-case mapping of
    one code unit, kept when it is one code unit and does not map a
    code unit above U+007F into ASCII. Of U+0000..U+00FF: a-z; the
    Latin-1 small letters U+00E0..U+00FE but the division sign; the
    micro sign (to U+039C) and y with diaeresis (to U+0178). *)
Definition Canonicalize (c : ascii) : N :=
  let n := code c in
  if ((97 <=? n) && (n <=? 122))%N then (n - 32)%N
  else if ((224 <=? n) && (n <=? 254) && negb (n =? 247))%N then (n - 32)%N
  else if (n =? 181)%N then 924%N
  else if (n =? 255)%N then 376%N
  else n.

Definition charMatches (p c : ascii) : bool :=
  (Canonicalize p =? Canonicalize c)%N.

Definition inSet (cs : CharSet) (c : ascii) : bool :=
  match cs with
  | AnyChar => true
  | Dot => negb (isLineTerminator c)
  end.

(** The result of a successful match: the matched text ([match[0]]) and
    the captures ([match[1]], ...). *)
Record MatchResult := {
  matched : jsstring;
  captures : list jsstring
}.

Definition consumed (c : ascii) (r : MatchResult) : MatchResult :=
  {| matched := c :: matched r; captures := captures r |}.

(** The backtracking matcher at one start position: the first way to
    match in the order the language tries them (a lazy star the
    shortest first, a greedy star the longest first). *)
Fixpoint matchHere (p : Pattern) (s : jsstring) {struct p}
  : option MatchResult :=
  match p with
  | [] => Some {| matched := []; captures := [] |}
  | Lit x :: p' =>
      match s with
      | c :: s' =>
          if charMatches x c then option_map (consumed c) (matchHere p' s')
          else None
      | [] => None
      end
  | LazyStar cs :: p' =>
      (fix lazy (s : jsstring) : option MatchResult :=
         match matchHere p' s with
         | Some r => Some r
         | None =>
             match s with
             | c :: s' =>
                 if inSet cs c then option_map (consumed c) (lazy s')
                 else None
             | [] => None
             end
         end) s
  | GroupStar cs :: p' =>
      let close (g : jsstring) (r : MatchResult) :=
        {| matched := g ++ matched r; captures := g :: captures r |} in
      (fix greedy (s : jsstring) (g : jsstring) : option MatchResult :=
         let stop := option_map (close (rev g)) (matchHere p' s) in
         match s with
         | c :: s' =>
             if inSet cs c then
               match greedy s' (c :: g) with
               | Some r => Some r
               | None => stop
               end
             else stop
         | [] => stop
         end) s []
  end.

(** [String.prototype.match] with a non-global expression: the match at
    the leftmost start position that has one. *)
Fixpoint regexMatch (p : Pattern) (s : jsstring) : option MatchResult :=
  match matchHere p s with
  | Some r => Some r
  | None =>
      match s with
      | [] => None
      | _ :: s' => regexMatch p s'
      end
  end.

(** [match[1]], [undefined] when the group does not exist. *)
Definition group1 (r : MatchResult) : option jsstring :=
  match captures r with
  | g :: _ => Some g
  | [] => None
  end.

(** *** Pattern sources *)

(** SyntaxCharacter of the pattern grammar. *)
Definition isSyntaxCharacter (c : ascii) : bool :=
  existsb (Ascii.eqb c) (js "^$\.*+?()[]{}|").

Definition lits (s : jsstring) : Pattern := map Lit s.

(** The pattern a source text denotes, for the sources built from
    pattern characters, escaped syntax characters and the escapes [\/]
    and [\-], the lazy star of [[\s\S]] and the capturing greedy star of [.]; [None] for
    a source outside this fragment (an unescaped syntax character used
    otherwise, an escape with a meaning of its own, ...). *)
Fixpoint parsePattern (src : jsstring) : option Pattern :=
  match src with
  | [] => Some []
  | c :: r =>
      if Ascii.eqb c "\" then
        match r with
        | x :: r' =>
            if isSyntaxCharacter x || Ascii.eqb x "/" || Ascii.eqb x "-"
            then option_map (cons (Lit x)) (parsePattern r')
            else None
        | [] => None
        end
      else if Ascii.eqb c "[" then
        match r with
        | c1 :: c2 :: c3 :: c4 :: c5 :: c6 :: c7 :: r' =>
            if JsString.eqb [c1; c2; c3; c4; c5; c6; c7] (js "\s\S]*?")
            then option_map (cons (LazyStar AnyChar)) (parsePattern r')
            else None
        | _ => None
        end
      else if Ascii.eqb c "(" then
        match r with
        | c1 :: c2 :: c3 :: r' =>
            if JsString.eqb [c1; c2; c3] (js ".*)")
            then option_map (cons (GroupStar Dot)) (parsePattern r')
            else None
        | _ => None
        end
      else if isSyntaxCharacter c then None
      else option_map (cons (Lit c)) (parsePattern r)
  end.

End RegExp.
Import RegExp.

(* ================================================================= *)
(** ** The smartwatch monitor of [App] *)

Module Monitor.

Record Position := { lat : number; lon : number }.

(** A call of [alert]: the abnormal-reading alert of the vitals effect
    with the reading and the contact it names, or the location alert. *)
Inductive Alert :=
| VitalsAlert (heartRate oxygenLevel : Z) (contact : jsstring)
| LocationAlert (contact : jsstring).

(** The state ([useState]) and the references ([useRef]) of [App] that
    the monitor uses, lines 646-668. [locationWatchIdRef] is [true]
    while it holds the id of a live position watch. *)
Record App := {
  isLinked : bool;
  heartRate : Z;
  oxygenLevel : Z;
  emergencyContact : jsstring;
  homePosition : option Position;
  currentPosition : option Position;
  isOutOfBounds : bool;
  vitalsAlertShownRef : bool;
  outOfBoundsAlertShownRef : bool;
  locationWatchIdRef : bool
}.

(** The state of a freshly mounted [App]. *)
Definition initialApp : App := {|
  isLinked := false;
  heartRate := 0;
  oxygenLevel := 0;
  emergencyContact := [];
  homePosition := None;
  currentPosition := None;
  isOutOfBounds := false;
  vitalsAlertShownRef := false;
  outOfBoundsAlertShownRef := false;
  locationWatchIdRef := false
|}.

Definition setVitalsAlertShownRef (b : bool) (a : App) : App :=
  {| isLinked := isLinked a; heartRate := heartRate a;
     oxygenLevel := oxygenLevel a; emergencyContact := emergencyContact a;
     homePosition := homePosition a; currentPosition := currentPosition a;
     isOutOfBounds := isOutOfBounds a; vitalsAlertShownRef := b;
     outOfBoundsAlertShownRef := outOfBoundsAlertShownRef a;
     locationWatchIdRef := locationWatchIdRef a |}.

Definition setOutOfBoundsAlertShownRef (b : bool) (a : App) : App :=
  {| isLinked := isLinked a; heartRate := heartRate a;
     oxygenLevel := oxygenLevel a; emergencyContact := emergencyContact a;
     homePosition := homePosition a; currentPosition := currentPosition a;
     isOutOfBounds := isOutOfBounds a;
     vitalsAlertShownRef := vitalsAlertShownRef a;
     outOfBoundsAlertShownRef := b;
     locationWatchIdRef := locationWatchIdRef a |}.

Definition setVitals (hr ox : Z) (a : App) : App :=
  {| isLinked := isLinked a; heartRate := hr; oxygenLevel := ox;
     emergencyContact := emergencyContact a;
     homePosition := homePosition a; currentPosition := currentPosition a;
     isOutOfBounds := isOutOfBounds a;
     vitalsAlertShownRef := vitalsAlertShownRef a;
     outOfBoundsAlertShownRef := outOfBoundsAlertShownRef a;
     locationWatchIdRef := locationWatchIdRef a |}.

Definition setEmergencyContact (s : jsstring) (a : App) : App :=
  {| isLinked := isLinked a; heartRate := heartRate a;
     oxygenLevel := oxygenLevel a; emergencyContact := s;
     homePosition := homePosition a; currentPosition := currentPosition a;
     isOutOfBounds := isOutOfBounds a;
     vitalsAlertShownRef := vitalsAlertShownRef a;
     outOfBoundsAlertShownRef := outOfBoundsAlertShownRef a;
     locationWatchIdRef := locationWatchIdRef a |}.

(** The three state updates of the position callback. *)
Definition setLocation (cur : Position) (home : option Position)
           (out : bool) (a : App) : App :=
  {| isLinked := isLinked a; heartRate := heartRate a;
     oxygenLevel := oxygenLevel a; emergencyContact := emergencyContact a;
     homePosition := home; currentPosition := Some cur;
     isOutOfBounds := out;
     vitalsAlertShownRef := vitalsAlertShownRef a;
     outOfBoundsAlertShownRef := outOfBoundsAlertShownRef a;
     locationWatchIdRef := locationWatchIdRef a |}.

(** [emergencyContact.trim() !== ''] *)
Definition hasContact (a : App) : bool :=
  negb (isEmpty (trim (emergencyContact a))).

(** The abnormality test of the vitals alert effect, line 727. *)
Definition abnormal (heartRate oxygenLevel : Z) : bool :=
  (heartRate <? 60) || (100 <? heartRate) || (oxygenLevel <? 95).

(** Vitals alert effect, lines 725-732. *)
Definition vitalsAlertEffect (a : App) : App * list Alert :=
  if isLinked a && hasContact a && negb (vitalsAlertShownRef a) then
    if abnormal (heartRate a) (oxygenLevel a) then
      (setVitalsAlertShownRef true a,
       [VitalsAlert (heartRate a) (oxygenLevel a) (emergencyContact a)])
    else (a, [])
  else (a, []).

(** Out of bounds alert effect, lines 768-776. *)
Definition outOfBoundsAlertEffect (a : App) : App * list Alert :=
  let '(a1, shown) :=
    if isOutOfBounds a && hasContact a
       && negb (outOfBoundsAlertShownRef a)
    then (setOutOfBoundsAlertShownRef true a,
          [LocationAlert (emergencyContact a)])
    else (a, []) in
  let a2 :=
    if negb (isOutOfBounds a1) then setOutOfBoundsAlertShownRef false a1
    else a1 in
  (a2, shown).

(** The dependency lists of the two alert effects, compared between the
    previous render and this one. *)
Definition vitalsDepsChanged (prev cur : App) : bool :=
  negb ((heartRate prev =? heartRate cur)
        && (oxygenLevel prev =? oxygenLevel cur)
        && Bool.eqb (isLinked prev) (isLinked cur)
        && JsString.eqb (emergencyContact prev) (emergencyContact cur)).

Definition outOfBoundsDepsChanged (prev cur : App) : bool :=
  negb (Bool.eqb (isOutOfBounds prev) (isOutOfBounds cur)
        && JsString.eqb (emergencyContact prev) (emergencyContact cur)).

(** The alert effects of one render, in the order of the source: each
    one runs when a dependency differs from the previous render. *)
Definition runEffects (prev cur : App) : App * list Alert :=
  let '(a1, o1) :=
    if vitalsDepsChanged prev cur then vitalsAlertEffect cur
    else (cur, []) in
  let '(a2, o2) :=
    if outOfBoundsDepsChanged prev cur then outOfBoundsAlertEffect a1
    else (a1, []) in
  (a2, o1 ++ o2).

Definition clamp (lo hi x : Z) : Z := Z.max lo (Z.min hi x).

(** What happens to the mounted [App]. The random draws of a handler are
    part of the event: [r26] and [r5] stand for
    [Math.floor(Math.random() * 26)] and [Math.floor(Math.random() * 5)],
    [move] and [up] for the comparisons [Math.random() > 0.8] and
    [Math.random() > 0.5], [heart] for [Math.random() > 0.5]. *)
Inductive Event :=
| Link (r26 r5 : Z)
| Tick (r5 : Z) (move up : bool)
| Reading (p : Position)
| ContactChange (s : jsstring)
| SimulateAbnormal (heart : bool)
| Remount.

Section Step.
Context {M : MathLib}.

(** The position callback of the GPS tracking effect, lines 742-753. *)
Definition onPosition (a : App) (p : Position) : App :=
  let newCurrentPos := p in
  let home :=
    match homePosition a with
    | Some prevHome => prevHome
    | None => newCurrentPos
    end in
  let distance :=
    calculateDistance (lat home) (lon home)
                      (lat newCurrentPos) (lon newCurrentPos) in
  setLocation newCurrentPos (Some home) (gt distance n5) a.

(** One event, the renders it causes and their effects. *)
Definition step (a : App) (e : Event) : App * list Alert :=
  match e with
  | Link r26 r5 =>
      (* onLink: setIsLinked(true), line 1109 *)
      if isLinked a then (a, [])
      else
        let a1 :=
          {| isLinked := true; heartRate := heartRate a;
             oxygenLevel := oxygenLevel a;
             emergencyContact := emergencyContact a;
             homePosition := homePosition a;
             currentPosition := currentPosition a;
             isOutOfBounds := isOutOfBounds a;
             vitalsAlertShownRef := vitalsAlertShownRef a;
             outOfBoundsAlertShownRef := outOfBoundsAlertShownRef a;
             locationWatchIdRef := locationWatchIdRef a |} in
        (* vitals simulation effect, lines 710-722 *)
        let a2 := setVitalsAlertShownRef false a1 in
        (* vitals alert effect: isLinked changed *)
        let '(a3, o1) := vitalsAlertEffect a2 in
        (* GPS tracking effect, lines 735-765 *)
        let a4 :=
          {| isLinked := isLinked a3; heartRate := heartRate a3;
             oxygenLevel := oxygenLevel a3;
             emergencyContact := emergencyContact a3;
             homePosition := homePosition a3;
             currentPosition := currentPosition a3;
             isOutOfBounds := isOutOfBounds a3;
             vitalsAlertShownRef := vitalsAlertShownRef a3;
             outOfBoundsAlertShownRef := false;
             locationWatchIdRef := true |} in
        (* the state updates the two effects asked for: next render *)
        let a5 :=
          {| isLinked := isLinked a4; heartRate := r26 + 70;
             oxygenLevel := r5 + 96;
             emergencyContact := emergencyContact a4;
             homePosition := None;
             currentPosition := currentPosition a4;
             isOutOfBounds := isOutOfBounds a4;
             vitalsAlertShownRef := vitalsAlertShownRef a4;
             outOfBoundsAlertShownRef := outOfBoundsAlertShownRef a4;
             locationWatchIdRef := locationWatchIdRef a4 |} in
        let '(a6, o2) := runEffects a4 a5 in
        (a6, o1 ++ o2)
  | Tick r5 move up =>
      (* the interval callback, lines 716-719 *)
      if isLinked a then
        runEffects a
          (setVitals
             (clamp 50 130 (heartRate a + r5 - 2))
             (clamp 90 100
                (oxygenLevel a
                 + (if move then (if up then 1 else -1) else 0)))
             a)
      else (a, [])
  | Reading p =>
      if locationWatchIdRef a then runEffects a (onPosition a p)
      else (a, [])
  | ContactChange s =>
      (* onEmergencyContactChange, line 1113 *)
      runEffects a (setEmergencyContact s a)
  | SimulateAbnormal heart =>
      (* handleSimulateAbnormal, lines 1059-1062 *)
      let a1 := setVitalsAlertShownRef false a in
      runEffects a1
        (if heart then setVitals 125 (oxygenLevel a1) a1
         else setVitals (heartRate a1) 91 a1)
  | Remount =>
      (* logout and login: AuthGate mounts a new App *)
      (initialApp, [])
  end.

(** A sequence of events: the final state and, event by event, the
    alerts shown. *)
Fixpoint run (a : App) (es : list Event) : App * list (list Alert) :=
  match es with
  | [] => (a, [])
  | e :: es' =>
      let '(a1, o) := step a e in
      let '(a2, os) := run a1 es' in
      (a2, o :: os)
  end.

(** The states after each event. *)
Fixpoint states (a : App) (es : list Event) : list App :=
  match es with
  | [] => []
  | e :: es' => fst (step a e) :: states (fst (step a e)) es'
  end.

End Step.

End Monitor.
Import Monitor.

(* ================================================================= *)
(** ** Number.prototype.toFixed and the rating generator *)

Module Rating.

Definition digitChar (d : Z) : ascii := ascii_of_N (48 + Z.to_N d).

(** The decimal digits of a natural number, ["0"] for zero. Digit by
    digit with [fuel] bounding the number of digits. *)
Fixpoint decimalFuel (fuel : nat) (n : Z) (acc : jsstring) : jsstring :=
  match fuel with
  | O => acc
  | S fuel' =>
      if n <? 10 then digitChar n :: acc
      else decimalFuel fuel' (n / 10) (digitChar (n mod 10) :: acc)
  end.

Definition decimal (n : Z) : jsstring :=
  decimalFuel (S (Z.to_nat (Z.log2 n))) n [].

(** The integer [n] for which [n / 10 - x] is closest to zero, the
    larger one of two, for [x = m * 2^e]. *)
Definition nearestTenths (m : positive) (e : Z) : Z :=
  if 0 <=? e then 10 * Zpos m * 2 ^ e
  else (20 * Zpos m + 2 ^ (- e)) / 2 ^ (1 - e).

(** [m * 2^e >= 10^21] *)
Definition atLeast1e21 (m : positive) (e : Z) : bool :=
  if 0 <=? e then 10 ^ 21 <=? Zpos m * 2 ^ e
  else 10 ^ 21 * 2 ^ (- e) <=? Zpos m.

(** [x.toFixed(1)]. From 10^21 on the method answers in exponent
    notation, which is not covered: [None]. *)
Definition toFixed1 (x : number) : option jsstring :=
  match x with
  | S754_nan => Some (js "NaN")
  | S754_infinity s => Some (if s then js "-Infinity" else js "Infinity")
  | S754_zero _ => Some (js "0.0")
  | S754_finite s m e =>
      if atLeast1e21 m e then None
      else
        let n := nearestTenths m e in
        Some ((if s then js "-" else [])
                ++ decimal (n / 10) ++ js "." ++ [digitChar (n mod 10)])
  end.

(** [generateRandomRating], lines 923-926, at the draw [r] of
    [Math.random()]. *)
Definition generateRandomRating (r : number) : option jsstring :=
  let rating := add (mul r (sub n5_0 n3_8)) n3_8 in
  option_map (fun s => s ++ js "/5 stars") (toFixed1 rating).

(** What ECMAScript promises of [Math.random()]: a number with positive
    sign, at least [+0] and less than 1. *)
Definition isUnitDraw (r : number) : bool :=
  match r with
  | S754_zero false => true
  | S754_finite false m e => valid_binary r && lt r n1
  | _ => false
  end.

End Rating.
Import Rating.

(* ================================================================= *)
(** ** Hospital reconciliation of [handleFindHospitals] *)

Module Finder.

(** The type [Hospital], lines 14-20; the three optional fields are
    absent ([None]) in the grounding data. *)
Record Hospital := {
  name : jsstring;
  uri : jsstring;
  bestDoctor : option jsstring;
  rating : option jsstring;
  contact : option jsstring
}.

Definition grounding (name uri : jsstring) : Hospital :=
  {| name := name; uri := uri;
     bestDoctor := None; rating := None; contact := None |}.

Definition randomDoctorNames : list jsstring :=
  [ js "Dr. Emily Carter"; js "Dr. Benjamin Hayes"; js "Dr. Olivia Chen";
    js "Dr. Jacob Rodriguez"; js "Dr. Sophia Williams";
    js "Dr. Michael Johnson"; js "Dr. Isabella Martinez";
    js "Dr. William Davis" ].

(** The class of the [replace] at line 929. *)
Definition isEscapedChar (c : ascii) : bool :=
  existsb (Ascii.eqb c) (js "-/\^$*+?.()|[]{}").

(** [name.replace(/[-\/\\^$*+?.()|[\]{}]/g, '\\$&')]: a backslash before
    every character of the class. *)
Fixpoint escapeRegExp (s : jsstring) : jsstring :=
  match s with
  | [] => []
  | c :: s' =>
      if isEscapedChar c then "\"%char :: c :: escapeRegExp s'
      else c :: escapeRegExp s'
  end.

(** The source text handed to [new RegExp], line 929. *)
Definition hospitalBlockSource (name : jsstring) : jsstring :=
  js "HOSPITAL: " ++ escapeRegExp name ++ js "[\s\S]*?---".

(** [new RegExp(source, 'i')]; [None] is the SyntaxError of a source
    that is no pattern. *)
Definition hospitalBlockRegex (name : jsstring) : option Pattern :=
  parsePattern (hospitalBlockSource name).

(** The three expressions of lines 938-940. *)
Definition contactRegex : Pattern := lits (js "CONTACT: ") ++ [GroupStar Dot].
Definition doctorRegex : Pattern :=
  lits (js "BEST DOCTOR: ") ++ [GroupStar Dot].
Definition ratingRegex : Pattern := lits (js "RATING: ") ++ [GroupStar Dot].

(** [if (m && m[1]) field = m[1].trim()], lines 942-944, for a field
    that is [""] before. *)
Definition field (p : Pattern) (block : jsstring) : jsstring :=
  match regexMatch p block with
  | Some m =>
      match group1 m with
      | Some g => if isEmpty g then [] else trim g
      | None => []
      end
  | None => []
  end.

(** The three raw fields of lines 932-945: those of the matched block,
    empty without a match. *)
Definition extract (re : Pattern) (resultText : jsstring)
  : jsstring * jsstring * jsstring :=
  match regexMatch re resultText with
  | Some m =>
      let block := matched m in
      (field contactRegex block, field doctorRegex block,
       field ratingRegex block)
  | None => ([], [], [])
  end.

Definition contactMissing (contact : jsstring) : bool :=
  isEmpty contact
  || includes (toLowerCase contact) (js "not specified")
  || includes (toLowerCase contact) (js "not available").

Definition doctorMissing (bestDoctor : jsstring) : bool :=
  isEmpty bestDoctor
  || includes (toLowerCase bestDoctor) (js "not specified").

Definition ratingMissing (rating : jsstring) : bool :=
  isEmpty rating || includes (toLowerCase rating) (js "not available").

(** What the callback of a handler can end in: a value, an exception
    that its [catch] sees, or a step outside this model. *)
Inductive Outcome (A : Type) :=
| Done (a : A)
| Thrown
| NotCovered.
Arguments Done {A} a.
Arguments Thrown {A}.
Arguments NotCovered {A}.

Section Reconcile.
(** The successive results of [Math.random()]. *)
Variable random : nat -> number.

(** The callback of the [map] at line 928, for the hospital at
    [index]; [k] counts the draws made so far. *)
Definition parseHospital (resultText : jsstring) (k : nat)
           (hospital : Hospital) (index : nat)
  : Outcome (Hospital * nat) :=
  match hospitalBlockRegex (name hospital) with
  | None => Thrown
  | Some hospitalBlockRegex =>
      let '(contact0, bestDoctor0, rating0) :=
        extract hospitalBlockRegex resultText in
      let contact1 :=
        if contactMissing contact0 then js "Not Available"
        else contact0 in
      let bestDoctor1 :=
        if doctorMissing bestDoctor0
        then nth (index mod List.length randomDoctorNames)
                 randomDoctorNames []
        else bestDoctor0 in
      let finish (rating1 : jsstring) (k' : nat) :=
        Done ({| name := name hospital; uri := uri hospital;
                 bestDoctor := Some bestDoctor1;
                 rating := Some rating1;
                 contact := Some contact1 |}, k') in
      if ratingMissing rating0 then
        match generateRandomRating (random k) with
        | Some generated => finish generated (S k)
        | None => NotCovered
        end
      else finish rating0 k
  end.

(** [hospitalGroundingData.map((hospital, index) => ...)] from
    [index] on. *)
Fixpoint parseHospitals (resultText : jsstring) (k index : nat)
         (hospitalGroundingData : list Hospital)
  : Outcome (list Hospital) :=
  match hospitalGroundingData with
  | [] => Done []
  | hospital :: rest =>
      match parseHospital resultText k hospital index with
      | Done (parsed, k') =>
          match parseHospitals resultText k' (S index) rest with
          | Done others => Done (parsed :: others)
          | Thrown => Thrown
          | NotCovered => NotCovered
          end
      | Thrown => Thrown
      | NotCovered => NotCovered
      end
  end.

(** The state of the hospital finder that the handler writes. *)
Record FinderState := {
  hospitals : list Hospital;
  hospitalError : jsstring;
  isFindingHospitals : bool
}.

(** The state while the request is pending, lines 877-879. *)
Definition pending : FinderState :=
  {| hospitals := []; hospitalError := []; isFindingHospitals := true |}.

Definition noHospitalsMessage : jsstring :=
  js "Could not find any suitable hospitals nearby based on the information provided. Please try adjusting your budget or try again later.".

Definition searchErrorMessage : jsstring :=
  js "An error occurred while searching for hospitals. Please try again.".

(** [handleFindHospitals] from the response on, lines 906-966: the
    response text, the grounding data, and the state when the handler
    is done; [None] for a run outside this model. *)
Definition handleFindHospitals (resultText : jsstring)
           (hospitalGroundingData : list Hospital)
  : option FinderState :=
  if (List.length hospitalGroundingData =? 0)%nat then
    Some {| hospitals := hospitals pending;
            hospitalError := noHospitalsMessage;
            isFindingHospitals := false |}
  else
    match parseHospitals resultText 0 0 hospitalGroundingData with
    | Done parsedHospitals =>
        Some {| hospitals := parsedHospitals;
                hospitalError := hospitalError pending;
                isFindingHospitals := false |}
    | Thrown =>
        Some {| hospitals := hospitals pending;
                hospitalError := searchErrorMessage;
                isFindingHospitals := false |}
    | NotCovered => None
    end.

End Reconcile.

End Finder.
Import Finder.

(* ================================================================= *)
(** ** The financial-aid handler *)

Module Aid.

(** The values [JSON.parse] returns. *)
Inductive json :=
| JNull
| JBool (b : bool)
| JNumber (n : number)
| JString (s : jsstring)
| JArray (items : list json)
| JObject (members : list (jsstring * json)).

(** The type [Screen], line 5. *)
Module Screen.
Inductive t :=
| welcome | input | loading | results | history | smartwatch
| hospitalFinder | healthAssistant | theme | financialAidQuery
| financialAidResults | institutionalContribution.
End Screen.

(** The state of [App] that [handleFindFinancialAid] reads and writes. *)
Record AidState := {
  financialAidQuery : jsstring;
  financialAidInfo : json;
  financialAidError : jsstring;
  isFindingFinancialAid : bool;
  screen : Screen.t
}.






(** [startNewCheck], lines 1064-1076, on this state. *)
Definition startNewCheck (st : AidState) : AidState :=
  {| financialAidQuery := [];
     financialAidInfo := JArray [];
     financialAidError := [];
     isFindingFinancialAid := isFindingFinancialAid st;
     screen := Screen.welcome |}.


(** The buttons of [renderScreen] that call [setScreen], lines 1078-1161:
    the cards of the welcome screen (lines 182-225), the two buttons of
    the results (lines 303-306) and the buttons back to the welcome
    screen; [hasHistory] is [history.length > 0]. *)
Definition navigates (hasHistory : bool) (from to : Screen.t) : bool :=
  match from, to with
  | Screen.welcome, Screen.input
  | Screen.welcome, Screen.healthAssistant
  | Screen.welcome, Screen.smartwatch
  | Screen.welcome, Screen.financialAidQuery
  | Screen.welcome, Screen.institutionalContribution
  | Screen.welcome, Screen.theme => true
  | Screen.welcome, Screen.history => hasHistory
  | Screen.results, Screen.hospitalFinder => true
  | Screen.results, Screen.history => hasHistory
  | Screen.history, Screen.welcome
  | Screen.smartwatch, Screen.welcome
  | Screen.healthAssistant, Screen.welcome
  | Screen.theme, Screen.welcome
  | Screen.institutionalContribution, Screen.welcome => true
  | _, _ => false
  end.

(** The screens with a button that calls [startNewCheck], lines 1091,
    1102, 1127, 1134 and 1141. *)
Definition offersNewCheck (s : Screen.t) : bool :=
  match s with
  | Screen.input | Screen.results | Screen.hospitalFinder
  | Screen.financialAidQuery | Screen.financialAidResults => true
  | _ => false
  end.



Definition withScreen (to : Screen.t) (st : AidState) : AidState :=
  {| financialAidQuery := financialAidQuery st;
     financialAidInfo := financialAidInfo st;
     financialAidError := financialAidError st;
     isFindingFinancialAid := isFindingFinancialAid st;
     screen := to |}.




(** *** The validator as the specification words it *)





End Aid.
Import Aid.

(* ================================================================= *)
(** ** The login gate [AuthGate] *)

Module Auth.

(** The type [AuthScreen], line 1166. *)
Inductive AuthScreen := login | forgotPassword.

(** The state of [AuthGate], lines 1168-1171. *)
Record AuthGate := {
  showIntro : bool;
  isAuthenticated : bool;
  loginError : jsstring;
  authScreen : AuthScreen
}.

Definition initialAuthGate : AuthGate :=
  {| showIntro := true; isAuthenticated := false; loginError := [];
     authScreen := login |}.

Definition invalidLoginMessage : jsstring :=
  js "Invalid username or password.".

(** [handleLogin], lines 1173-1181. *)
Definition handleLogin (username password : jsstring) (g : AuthGate)
  : AuthGate :=
  if JsString.eqb username (js "user")
     && JsString.eqb password (js "password")
  then {| showIntro := showIntro g; isAuthenticated := true;
          loginError := []; authScreen := login |}
  else {| showIntro := showIntro g; isAuthenticated := isAuthenticated g;
          loginError := invalidLoginMessage; authScreen := authScreen g |}.

(** [handleLogout], lines 1183-1187. *)
Definition handleLogout (g : AuthGate) : AuthGate :=
  {| showIntro := showIntro g; isAuthenticated := false;
     loginError := loginError g; authScreen := authScreen g |}.

Definition setShowIntro (b : bool) (g : AuthGate) : AuthGate :=
  {| showIntro := b; isAuthenticated := isAuthenticated g;
     loginError := loginError g; authScreen := authScreen g |}.

Definition setAuthScreen (s : AuthScreen) (g : AuthGate) : AuthGate :=
  {| showIntro := showIntro g; isAuthenticated := isAuthenticated g;
     loginError := loginError g; authScreen := s |}.

(** What [AuthGate] renders, lines 1189-1199: the intro page, the login
    page with the error it shows, the page for a forgotten password, or
    the [App]. *)
Inductive View :=
| IntroPage
| LoginPage (error : jsstring)
| ForgotPasswordPage
| TheApp.

Definition render (g : AuthGate) : View :=
  if showIntro g then IntroPage
  else if negb (isAuthenticated g) then
    match authScreen g with
    | forgotPassword => ForgotPasswordPage
    | login => LoginPage (loginError g)
    end
  else TheApp.

(** The callbacks that the rendered pages are given: [onGetStarted] of
    the intro page; [onLogin], with the two fields of the form, and
    [onForgotPassword] of the login page; [onBackToLogin] of the page
    for a forgotten password; [onLogout] of the [App]. *)
Inductive Action :=
| GetStarted
| Submit (username password : jsstring)
| ForgotPassword
| BackToLogin
| Logout.

(** One action; a callback of a page that is not rendered cannot be
    called. *)
Definition act (g : AuthGate) (a : Action) : AuthGate :=
  match render g, a with
  | IntroPage, GetStarted => setShowIntro false g
  | LoginPage _, Submit username password => handleLogin username password g
  | LoginPage _, ForgotPassword => setAuthScreen forgotPassword g
  | ForgotPasswordPage, BackToLogin => setAuthScreen login g
  | TheApp, Logout => handleLogout g
  | _, _ => g
  end.

Definition actAll (g : AuthGate) (actions : list Action) : AuthGate :=
  fold_left act actions g.

End Auth.

(* ================================================================= *)
(** ** The markup of the analysis results *)

Module Markup.

(** The lazy group and the closing asterisks of the expression of line
    284 (two asterisks, the lazy star of the dot in a capturing group,
    two asterisks; flag [g]), from the text after the opening asterisks:
    the shortest capture first, a line terminator ends the search. The
    result is the capture and the text after the match; [g] is the
    capture so far, reversed. *)
Fixpoint lazyGroup (s g : jsstring) : option (jsstring * jsstring) :=
  if startsWith s (js "**") then Some (rev g, skipn 2 s)
  else match s with
       | c :: s' =>
           if isLineTerminator c then None else lazyGroup s' (c :: g)
       | [] => None
       end.

(** A match of the expression at the start of [s]. *)
Definition boldAt (s : jsstring) : option (jsstring * jsstring) :=
  if startsWith s (js "**") then lazyGroup (skipn 2 s) [] else None.

(** [s.replace(expression, '<h3>$1</h3>')]: from the left, every match
    is replaced and the search goes on after it. [skip] counts the code
    units of the last match that are still to pass. *)
Fixpoint replaceBold (s : jsstring) (skip : nat) : jsstring :=
  match s with
  | [] => []
  | c :: s' =>
      match skip with
      | S n => replaceBold s' n
      | O =>
          match boldAt (c :: s') with
          | Some (g, _) =>
              js "<h3>" ++ g ++ js "</h3>"
                 ++ replaceBold s' (List.length g + 3)
          | None => c :: replaceBold s' 0
          end
      end
  end.

(** [s.replace(/\n/g, '<br />')] *)
Definition replaceLineFeeds (s : jsstring) : jsstring :=
  flat_map (fun c => if Ascii.eqb c (ascii_of_N 10) then js "<br />" else [c])
           s.

(** The markup that [ResultsScreen] sets as inner HTML, line 284. *)
Definition resultsMarkup (results : jsstring) : jsstring :=
  js "<h2>Potential Conditions</h2>"
     ++ replaceLineFeeds (replaceBold results 0).

(** The markup that [HistoryScreen] sets for a past check, line 333. *)
Definition historyMarkup (results : jsstring) : jsstring :=
  replaceLineFeeds results.

End Markup.

(* ================================================================= *)
(** ** Voice input *)

Module Voice.

(** The update of [symptoms] by [recognition.onresult], lines 818-820,
    for the transcript of the recognition and the text [prev] of the
    field. *)
Definition onresult (transcript prev : jsstring) : jsstring :=
  if isEmpty transcript then prev
  else trim (if isEmpty (trim prev) then transcript
             else trim prev ++ js " " ++ transcript).

End Voice.

(* ================================================================= *)
(** ** The health assistant chat *)

Module Chat.

Inductive Role := user | model.

(** The type [ChatMessage], lines 27-30. *)
Record ChatMessage := { role : Role; text : jsstring }.

(** The state of [App] that the chat uses, lines 657-658, and
    [updatedHistory] of the call of [handleSendChatMessage] whose request
    is under way, if any. *)
Record ChatState := {
  chatHistory : list ChatMessage;
  isAssistantTyping : bool;
  updatedHistory : option (list ChatMessage)
}.

Definition initialChat : ChatState :=
  {| chatHistory := []; isAssistantTyping := false; updatedHistory := None |}.

Definition errorReply : jsstring :=
  js "Sorry, I encountered an error. Please try again.".

(** [SubmitForm input] is the form of [HealthAssistantScreen] submitted
    with [input] in its field; [Settle reply] is the end of the request,
    with the text of the response or, when it is rejected, [None]. *)
Inductive ChatEvent :=
| SubmitForm (input : jsstring)
| Settle (reply : option jsstring).

Definition chatStep (st : ChatState) (e : ChatEvent) : ChatState :=
  match e with
  | SubmitForm input =>
      (* the field and the button are disabled while [isTyping],
         lines 576-578 *)
      if isAssistantTyping st then st
      (* handleSubmit, lines 548-554 *)
      else if isEmpty (trim input) then st
      else
        (* handleSendChatMessage, lines 1028-1030 *)
        let message := trim input in
        let updated :=
          chatHistory st ++ [{| role := user; text := message |}] in
        {| chatHistory := updated; isAssistantTyping := true;
           updatedHistory := Some updated |}
  | Settle reply =>
      match updatedHistory st with
      | None => st
      | Some updated =>
          (* lines 1049-1056 *)
          let assistantResponse :=
            match reply with
            | Some responseText => responseText
            | None => errorReply
            end in
          {| chatHistory :=
               updated ++ [{| role := model; text := assistantResponse |}];
             isAssistantTyping := false;
             updatedHistory := None |}
      end
  end.

Definition chatRun (st : ChatState) (es : list ChatEvent) : ChatState :=
  fold_left chatStep es st.

End Chat.

(* ================================================================= *)
(** ** The hospital finder screen *)

Module FinderScreen.

Definition budgetMessage : jsstring :=
  js "Please enter your estimated budget, or skip this step.".

(** [handleFindHospitals] up to the request of the position, lines
    872-879; the flag tells whether the request is made. *)
Definition begin (skipBudget : bool) (budget : jsstring) (st : FinderState)
  : FinderState * bool :=
  if negb skipBudget && isEmpty (trim budget) then
    ({| hospitals := hospitals st; hospitalError := budgetMessage;
        isFindingHospitals := isFindingHospitals st |}, false)
  else (pending, true).

Section Settle.
Variable random : nat -> number.

(** The callback of the position from the response on, lines 906-966,
    on the state of the finder as it is when the response arrives. *)
Definition settle (resultText : jsstring)
           (hospitalGroundingData : list Hospital) (st : FinderState)
  : option FinderState :=
  if (List.length hospitalGroundingData =? 0)%nat then
    Some {| hospitals := hospitals st;
            hospitalError := noHospitalsMessage;
            isFindingHospitals := false |}
  else
    match parseHospitals random resultText 0 0 hospitalGroundingData with
    | Done parsedHospitals =>
        Some {| hospitals := parsedHospitals;
                hospitalError := hospitalError st;
                isFindingHospitals := false |}
    | Thrown =>
        Some {| hospitals := hospitals st;
                hospitalError := searchErrorMessage;
                isFindingHospitals := false |}
    | NotCovered => None
    end.

End Settle.

(** [startNewCheck], lines 1064-1076, on the state of the finder. *)
Definition startNewCheck (st : FinderState) : FinderState :=
  {| hospitals := []; hospitalError := [];
     isFindingHospitals := isFindingHospitals st |}.

(** What [HospitalFinderScreen] shows, lines 419-474: the form with the
    error, the loader, or the list of results. *)
Inductive FinderView :=
| FormView (error : jsstring)
| LoadingView
| ResultsView (shown : list Hospital).

Definition view (st : FinderState) : FinderView :=
  if isFindingHospitals st then LoadingView
  else match hospitals st with
       | [] => FormView (hospitalError st)
       | _ :: _ => ResultsView (hospitals st)
       end.

End FinderScreen.

(* ================================================================= *)
(** ** The symptom check and its history *)

Module Checker.

(** The type [Check], lines 7-12. *)
Record Check := {
  id : Z;
  symptoms : jsstring;
  results : jsstring;
  date : jsstring
}.

(** The item [symptomHistory] of [localStorage]: absent, or the list
    that its JSON text denotes. *)
Definition Storage := option (list Check).

(** The state of [App] that the symptom check uses, lines 638-642. *)
Module State.
Record t := {
  screen : Screen.t;
  symptoms : jsstring;
  results : jsstring;
  error : jsstring;
  history : list Check
}.
End State.

Definition describeSymptomsMessage : jsstring :=
  js "Please describe your symptoms before analyzing.".

Definition analysisIssueMessage : jsstring :=
  js "There was an issue analyzing your symptoms. Please try again.".

(** The mount effect, lines 689-697, on a freshly mounted [App]. *)
Definition mount (storage : Storage) : State.t :=
  {| State.screen := Screen.welcome; State.symptoms := [];
     State.results := []; State.error := [];
     State.history := match storage with
                      | Some storedHistory => storedHistory
                      | None => []
                      end |}.

(** How the [try] block of [handleAnalyzeSymptoms] ends: the request is
    rejected, or it answers and [localStorage.setItem] returns
    ([stored]) or throws. *)
Inductive Outcome :=
| Rejected
| Answered (resultText : jsstring) (stored : bool).

(** [handleAnalyzeSymptoms], lines 840-870, at the time [now] of
    [Date.now()] and with [dateText] for [new Date().toLocaleString()]. *)
Definition handleAnalyzeSymptoms (now : Z) (dateText : jsstring)
           (outcome : Outcome) (st : State.t) (storage : Storage)
  : State.t * Storage :=
  if isEmpty (trim (State.symptoms st)) then
    ({| State.screen := State.screen st;
        State.symptoms := State.symptoms st;
        State.results := State.results st;
        State.error := describeSymptomsMessage;
        State.history := State.history st |}, storage)
  else
    match outcome with
    | Rejected =>
        ({| State.screen := Screen.input;
            State.symptoms := State.symptoms st;
            State.results := State.results st;
            State.error := analysisIssueMessage;
            State.history := State.history st |}, storage)
    | Answered resultText stored =>
        let newCheck :=
          {| id := now; symptoms := State.symptoms st;
             results := resultText; date := dateText |} in
        let updatedHistory := newCheck :: State.history st in
        if stored then
          ({| State.screen := Screen.results;
              State.symptoms := State.symptoms st;
              State.results := resultText;
              State.error := [];
              State.history := updatedHistory |}, Some updatedHistory)
        else
          ({| State.screen := Screen.input;
              State.symptoms := State.symptoms st;
              State.results := resultText;
              State.error := analysisIssueMessage;
              State.history := updatedHistory |}, storage)
    end.

(** [startNewCheck], lines 1064-1076, on this state. *)
Definition startNewCheck (st : State.t) : State.t :=
  {| State.screen := Screen.welcome; State.symptoms := [];
     State.results := []; State.error := [];
     State.history := State.history st |}.

Definition withScreen (to : Screen.t) (st : State.t) : State.t :=
  {| State.screen := to; State.symptoms := State.symptoms st;
     State.results := State.results st; State.error := State.error st;
     State.history := State.history st |}.

(** [history.length > 0], lines 1081 and 1101. *)
Definition hasHistory (st : State.t) : bool :=
  match State.history st with
  | [] => false
  | _ :: _ => true
  end.

Definition onInputScreen (st : State.t) : bool :=
  match State.screen st with
  | Screen.input => true
  | _ => false
  end.

(** What happens in the [App]: a button moves to another screen; the
    aid handler moves from its query screen to its results (line 984);
    on the input screen, the field of the symptoms is edited and the
    analysis is asked for ([LoadingScreen], shown until the reply, has no
    control); a button calls [startNewCheck]; the [App] is mounted again,
    after a logout and a login or with the page loaded anew. *)
Inductive CheckEvent :=
| Navigate (to : Screen.t)
| AidSearch
| Edit (text : jsstring)
| Analyze (now : Z) (dateText : jsstring) (outcome : Outcome)
| StartNew
| Relogin.

Definition checkStep (w : State.t * Storage) (e : CheckEvent)
  : State.t * Storage :=
  let '(st, storage) := w in
  match e with
  | Navigate to =>
      if navigates (hasHistory st) (State.screen st) to
      then (withScreen to st, storage)
      else w
  | AidSearch =>
      match State.screen st with
      | Screen.financialAidQuery =>
          (withScreen Screen.financialAidResults st, storage)
      | _ => w
      end
  | Edit text =>
      if onInputScreen st then
        ({| State.screen := State.screen st; State.symptoms := text;
            State.results := State.results st;
            State.error := State.error st;
            State.history := State.history st |}, storage)
      else w
  | Analyze now dateText outcome =>
      if onInputScreen st
      then handleAnalyzeSymptoms now dateText outcome st storage
      else w
  | StartNew =>
      if offersNewCheck (State.screen st) then (startNewCheck st, storage)
      else w
  | Relogin => (mount storage, storage)
  end.

(** A run from the mount of the [App] on a storage. *)
Definition checkRun (storage : Storage) (es : list CheckEvent)
  : State.t * Storage :=
  fold_left checkStep es (mount storage, storage).

End Checker.

(* ================================================================= *)
(** ** The vocabulary of the statements

    Predicates on traces and values that the theorems below are stated
    with, the debouncer and the validator as the specification words
    them, and the inputs of the examples. *)

(** The React state of two [App] values agrees (the references may
    differ). *)
Definition sameState (a b : App) : Prop :=
  isLinked a = isLinked b /\ heartRate a = heartRate b
  /\ oxygenLevel a = oxygenLevel b
  /\ emergencyContact a = emergencyContact b
  /\ homePosition a = homePosition b
  /\ currentPosition a = currentPosition b
  /\ isOutOfBounds a = isOutOfBounds b
  /\ locationWatchIdRef a = locationWatchIdRef b.

Definition isReading (e : Event) : bool :=
  match e with Reading _ => true | _ => false end.

Definition isRemount (e : Event) : bool :=
  match e with Remount => true | _ => false end.

(** Events of one monitoring session: the [App] is not remounted. *)
Definition withinSession (es : list Event) : bool :=
  forallb (fun e => negb (isRemount e)) es.

(** Events of a session before its first position reading. *)
Definition beforeFirstReading (es : list Event) : bool :=
  forallb (fun e => negb (isReading e) && negb (isRemount e)) es.

(** A running session: the watch linked at [Link] is live. *)
Definition monitoring (a : App) : Prop :=
  isLinked a = true /\ locationWatchIdRef a = true.

Definition examplePosition (la lo : Z) : Position :=
  {| lat := RefMath.ofZ la; lon := RefMath.ofZ lo |}.

(** The point of latitude 0 and longitude 0, and two points north of it
    on its meridian, at the latitudes [m * 2 ^ -57] of about 0.05396 and
    0.03597 degrees, for which [calculateDistance] on the reference
    library returns 6 and 4. *)
Definition nullIsland : Position := {| lat := posZero; lon := posZero |}.

Definition sixKmNorth : Position :=
  {| lat := S754_finite false 7776354142659514 (-57); lon := posZero |}.

Definition fourKmNorth : Position :=
  {| lat := S754_finite false 5184236095106344 (-57); lon := posZero |}.

(** [calculateDistance] between two positions, as [onPosition] calls
    it. *)
Definition distanceBetween {M : MathLib} (home p : Position) : number :=
  calculateDistance (lat home) (lon home) (lat p) (lon p).

(** A finite number of sign [s] and magnitude at most [2 ^ D]. *)
Definition within (s : bool) (D : Z) (x : spec_float) : Prop :=
  match x with
  | S754_zero s' => s' = s
  | S754_finite s' m e => s' = s /\ e <= D /\ Zpos m <= 2 ^ (D - e)
  | _ => False
  end.

Definition isDigit (c : ascii) : bool :=
  (48 <=? code c)%N && (code c <=? 57)%N.

(** The pattern [/^[0-9]\.[0-9]\/5 stars$/]. *)
Definition isRatingLabel (s : jsstring) : bool :=
  match s with
  | d1 :: dot :: d2 :: rest =>
      isDigit d1 && Ascii.eqb dot "." && isDigit d2
      && JsString.eqb rest (js "/5 stars")
  | _ => false
  end.






(** The alert debouncer as the specification words it (section 4.4): the
    flag [armed] starts [true]; an active condition fires when armed and
    disarms; an inactive condition re-arms. *)
Module SpecDebouncer.

Definition evaluate (armed conditionActive : bool) : bool * bool :=
  if conditionActive then
    if armed then (false, true) else (armed, false)
  else (true, false).

(** The results [fireNotification] for a sequence of samples. *)
Fixpoint fires (armed : bool) (samples : list bool) : list bool :=
  match samples with
  | [] => []
  | c :: samples' =>
      let '(armed', fire) := evaluate armed c in
      fire :: fires armed' samples'
  end.

End SpecDebouncer.

Definition isVitalsAlert (x : Alert) : bool :=
  match x with VitalsAlert _ _ _ => true | LocationAlert _ => false end.

Definition isLocationAlert (x : Alert) : bool :=
  match x with VitalsAlert _ _ _ => false | LocationAlert _ => true end.

Definition isContactChange (e : Event) : bool :=
  match e with ContactChange _ => true | _ => false end.

(** Events that leave the emergency contact as it is entered. *)
Definition contactKept (es : list Event) : bool :=
  forallb (fun e => negb (isContactChange e)) es.

(** The two references, read as the flags [armed] of two debouncers. *)
Definition armedFlags (a : App) : bool * bool :=
  (negb (vitalsAlertShownRef a), negb (outOfBoundsAlertShownRef a)).

(** Two executions identical except for the contact value. *)
Definition sameButContact (a b : App) : Prop :=
  isLinked a = isLinked b /\ heartRate a = heartRate b
  /\ oxygenLevel a = oxygenLevel b
  /\ homePosition a = homePosition b
  /\ currentPosition a = currentPosition b
  /\ isOutOfBounds a = isOutOfBounds b
  /\ vitalsAlertShownRef a = vitalsAlertShownRef b
  /\ outOfBoundsAlertShownRef a = outOfBoundsAlertShownRef b
  /\ locationWatchIdRef a = locationWatchIdRef b.

(** What an alert is about, without the text it shows. *)
Definition kinds (o : list Alert) : list bool := map isVitalsAlert o.

Definition alike (a b : App) : Prop :=
  sameButContact a b /\ hasContact a = hasContact b.





(** [s] begins with a text that matches [p] letter by letter under the
    flag [i]. *)
Fixpoint ciStartsWith (s p : jsstring) {struct p} : bool :=
  match p, s with
  | [], _ => true
  | x :: p', c :: s' => charMatches x c && ciStartsWith s' p'
  | _ :: _, [] => false
  end.

(** Two texts of one length that match letter by letter. *)
Fixpoint ciEq (p s : jsstring) {struct p} : bool :=
  match p, s with
  | [], [] => true
  | x :: p', c :: s' => charMatches x c && ciEq p' s'
  | _, _ => false
  end.

(** The pattern the block expression of a hospital name is to denote:
    the header, letter by letter, anything, lazily, and the sentinel. *)
Definition blockPattern (name : jsstring) : Pattern :=
  lits (js "HOSPITAL: " ++ name) ++ [LazyStar AnyChar] ++ lits (js "---").

(** The shortest prefix of [s] that ends in a text matching [d]. *)
Fixpoint lazyFind (d s : jsstring) : option jsstring :=
  if ciStartsWith s d then Some (firstn (List.length d) s)
  else match s with
       | [] => None
       | c :: s' => option_map (cons c) (lazyFind d s')
       end.

(** The result of a match with text put before it. *)
Definition prefixed (x : jsstring) (r : MatchResult) : MatchResult :=
  {| matched := x ++ matched r; captures := captures r |}.

Definition LF : ascii := ascii_of_N 10.

(** Lines of text joined by line feeds. *)
Fixpoint joinLines (ls : list string) : jsstring :=
  match ls with
  | [] => []
  | [l] => js l
  | l :: ls' => js l ++ LF :: joinLines ls'
  end.

Definition exampleNarrative : jsstring :=
  joinLines [ "HOSPITAL: Alpha Beta"; "CONTACT: 111"; "---";
              "HOSPITAL: Alpha"; "CONTACT: 222"; "---" ]%string.

(** Every draw is a result [Math.random()] may give. *)
Definition conforming (random : nat -> number) : Prop :=
  forall n, isUnitDraw (random n) = true.

Definition half : number := Eval vm_compute in Prim2SF 0.5%float.

(** The narrative of one well-formed block. *)
Definition alphaNarrative : jsstring :=
  joinLines [ "HOSPITAL: Alpha"; "CONTACT: 555-1234";
              "BEST DOCTOR: Dr. Test"; "RATING: 4.2/5 stars"; "---" ]%string.

(** The readings the simulator can show, lines 714-718. *)
Definition vitalsInRange (a : App) : Prop :=
  50 <= heartRate a <= 130 /\ 90 <= oxygenLevel a <= 100.

(** What can happen to an [App] in a state: the link button is shown
    while the watch is not linked (lines 356-365), the contact field and
    the simulate button while it is, the button enabled with a contact
    entered (lines 396-399); the interval ticks while the watch is linked
    (line 716), the position watch reports while it is live (line 741);
    the draws are results of [Math.floor(Math.random() * 26)] and
    [Math.floor(Math.random() * 5)]. *)
Definition enabled (a : App) (e : Event) : bool :=
  match e with
  | Link r26 r5 =>
      negb (isLinked a) && (0 <=? r26) && (r26 <=? 25)
      && (0 <=? r5) && (r5 <=? 4)
  | Tick r5 _ _ => isLinked a && (0 <=? r5) && (r5 <=? 4)
  | Reading _ => locationWatchIdRef a
  | ContactChange _ => isLinked a
  | SimulateAbnormal _ => isLinked a && hasContact a
  | Remount => true
  end.

Section Feasible.
Context {M : MathLib}.

(** A sequence of events, each one enabled when it happens. *)
Fixpoint feasible (a : App) (es : list Event) : bool :=
  match es with
  | [] => true
  | e :: es' => enabled a e && feasible (fst (step a e)) es'
  end.

End Feasible.

(** An alert that names a contact and, for the vitals, an abnormal
    reading of the simulator's range. *)
Definition wellFormedAlert (x : Alert) : Prop :=
  match x with
  | VitalsAlert hr ox c =>
      abnormal hr ox = true /\ 50 <= hr <= 130 /\ 90 <= ox <= 100
      /\ isEmpty (trim c) = false
  | LocationAlert c => isEmpty (trim c) = false
  end.

Definition isSimulateAbnormal (e : Event) : bool :=
  match e with SimulateAbnormal _ => true | _ => false end.

(** Events of a session in which the simulate button is not pressed. *)
Definition unprompted (es : list Event) : bool :=
  forallb (fun e => negb (isSimulateAbnormal e) && negb (isRemount e)) es.

(** The number of vitals alerts among the alerts shown. *)
Definition vitalsAlerts (os : list (list Alert)) : nat :=
  List.length (filter isVitalsAlert (List.concat os)).

(** The invariant of the sessions the screens allow: an [App] that is
    not linked is as it was mounted, a linked one shows readings of the
    simulator's range. *)
Definition sessionInvariant (a : App) : Prop :=
  (isLinked a = false -> a = initialApp)
  /\ (isLinked a = true -> vitalsInRange a).

(** The text after the leftmost place of [s] where a text matching
    [label] letter by letter, without regard to case, begins. *)
Fixpoint afterLabel (label s : jsstring) : option jsstring :=
  if ciStartsWith s label then Some (skipn (List.length label) s)
  else match s with
       | [] => None
       | _ :: s' => afterLabel label s'
       end.

(** The text up to the first line terminator. *)
Fixpoint restOfLine (s : jsstring) : jsstring :=
  match s with
  | [] => []
  | c :: s' => if isLineTerminator c then [] else c :: restOfLine s'
  end.

(** The value of a labelled line: what follows the label on its line,
    trimmed; empty without the label. *)
Definition labelled (label block : jsstring) : jsstring :=
  match afterLabel label block with
  | Some rest => trim (restOfLine rest)
  | None => []
  end.

(** No text matching [label] begins within [pre] in [pre ++ rest]. *)
Fixpoint absentIn (label pre rest : jsstring) : bool :=
  match pre with
  | [] => true
  | _ :: pre' =>
      negb (ciStartsWith (pre ++ rest) label) && absentIn label pre' rest
  end.

Definition colonFree (s : jsstring) : bool :=
  forallb (fun c => negb (Ascii.eqb c ":")) s.

Definition oneLine (s : jsstring) : bool :=
  forallb (fun c => negb (isLineTerminator c)) s.

(** A value of the format: one line, without a colon and without the
    sentinel. *)
Definition valueText (s : jsstring) : bool :=
  oneLine s && colonFree s && negb (includes s (js "---")).

(** The block that the prompt asks for, lines 891-895. *)
Definition formatBlock (name contact doctor rating : jsstring) : jsstring :=
  js "HOSPITAL: " ++ name ++ LF
    :: js "CONTACT: " ++ contact ++ LF
    :: js "BEST DOCTOR: " ++ doctor ++ LF
    :: js "RATING: " ++ rating ++ LF :: js "---".








(** A number of positive sign, a zero or finite, whose value lies
    between [lo * 2 ^ elo] and [hi * 2 ^ ehi]; a zero only for [lo = 0]. *)
Definition valueBetween (lo elo hi ehi : Z) (x : spec_float) : Prop :=
  match x with
  | S754_zero false => lo = 0
  | S754_finite false m e =>
      e <= ehi /\ ehi <= elo
      /\ lo * 2 ^ (elo - e) <= Zpos m <= hi * 2 ^ (ehi - e)
  | _ => False
  end.

(** The label of [n] tenths, for [n] below 100. *)
Definition tenthsLabel (n : Z) : jsstring :=
  [digitChar (n / 10); "."%char; digitChar (n mod 10)] ++ js "/5 stars".

(** Events in which every write of the history succeeds. *)
Definition writesSucceed (es : list Checker.CheckEvent) : bool :=
  forallb (fun e => match e with
                    | Checker.Analyze _ _ (Checker.Answered _ false) => false
                    | _ => true
                    end) es.

Definition isLogout (a : Auth.Action) : bool :=
  match a with Auth.Logout => true | _ => false end.

Definition starFree (s : jsstring) : bool :=
  forallb (fun c => negb (Ascii.eqb c "*")) s.

Definition lineFeedFree (s : jsstring) : bool :=
  forallb (fun c => negb (Ascii.eqb c LF)) s.

(** The first code unit, if any, is no white space. *)
Definition headKept (s : jsstring) : Prop :=
  match s with
  | [] => True
  | c :: _ => isWhiteSpace c = false
  end.

Definition allWhiteSpace (s : jsstring) : bool := forallb isWhiteSpace s.

(** The roles of a conversation of [n] messages that the user opens and
    in which the two sides take turns. *)
Fixpoint turns (n : nat) : list Chat.Role :=
  match n with
  | O => []
  | S n' => turns n' ++ [if Nat.even n' then Chat.user else Chat.model]
  end.

(* ================================================================= *)
(** * Properties *)

(* ================================================================= *)
(** ** Binary64 arithmetic *)

Section NumberFacts.


Lemma opp_involutive x : SFopp (SFopp x) = x.
Proof. destruct x as [s|s| |s m e]; cbn; now rewrite ?negb_involutive. Qed.

Lemma mul_comm x y : mul x y = mul y x.
Proof.
  unfold mul, SF64mul, SFmul.
  destruct x as [sx|sx| |sx mx ex], y as [sy|sy| |sy my ey];
    try reflexivity; rewrite ?(xorb_comm sx sy); try reflexivity.
  now rewrite Pos.mul_comm, Z.add_comm.
Qed.





(** [x - x] is [+0], or NaN when [x] is not finite. *)
Lemma sub_diag x : sub x x = posZero \/ sub x x = NaN.
Proof.
  unfold sub, SF64sub, SFsub.
  destruct x as [s|s| |s m e].
  - left. now destruct s.
  - right. now destruct s.
  - now right.
  - left. rewrite Z.sub_diag. reflexivity.
Qed.

(** A product with a zero is a zero or NaN. *)
Lemma mul_zero_r x s :
  (exists s', mul x (S754_zero s) = S754_zero s')
  \/ mul x (S754_zero s) = NaN.
Proof.
  destruct x as [sx|sx| |sx mx ex]; cbn; eauto.
Qed.

Lemma mul_nan_r x : mul x NaN = NaN.
Proof. now destruct x. Qed.

Lemma add_posZero_zero s : add posZero (S754_zero s) = posZero.
Proof. now destruct s. Qed.

Lemma add_nan_r x : add x NaN = NaN.
Proof. now destruct x. Qed.

Lemma gt_nan_l x : gt NaN x = false.
Proof. now destruct x. Qed.

(** The angle in radians, halved, of a zero or NaN difference. *)
Lemma radians_zero s :
  div (div (mul (S754_zero s) Math_PI) n180) n2 = S754_zero s.
Proof. now destruct s. Qed.

Lemma radians_nan : div (div (mul NaN Math_PI) n180) n2 = NaN.
Proof. reflexivity. Qed.

End NumberFacts.

(* ================================================================= *)
(** ** The distance of a point from itself *)

Section DistanceSelf.
Context {M : MathLib} {L : MathLibLaws M}.

(** The last steps of [calculateDistance] when the haversine term is
    [+0] or NaN. *)
Lemma distance_tail_zero :
  mul n6371 (mul n2 (Math_atan2 (sqrt posZero) (sqrt (sub n1 posZero))))
  = posZero.
Proof.
  change (sqrt posZero) with posZero.
  change (sqrt (sub n1 posZero)) with n1.
  now rewrite atan2_zero_pos.
Qed.

Lemma distance_tail_nan :
  mul n6371 (mul n2 (Math_atan2 (sqrt NaN) (sqrt (sub n1 NaN)))) = NaN.
Proof.
  change (sqrt NaN) with NaN.
  now rewrite atan2_nan_l.
Qed.

(** The haversine term of two equal points. *)
Lemma haversine_self (c1 c2 : number) (u v : number) :
  (u = posZero \/ u = NaN) -> (v = posZero \/ v = NaN) ->
  let su := Math_sin (div (div (mul u Math_PI) n180) n2) in
  let sv := Math_sin (div (div (mul v Math_PI) n180) n2) in
  let a := add (mul su su) (mul (mul (mul c1 c2) sv) sv) in
  a = posZero \/ a = NaN.
Proof.
  intros [-> | ->] [-> | ->]; cbv zeta;
    rewrite ?radians_zero, ?radians_nan, ?sin_zero, ?sin_nan.
  - change (mul posZero posZero) with posZero.
    destruct (mul_zero_r (mul c1 c2) false) as [[s' ->] | ->].
    + destruct (mul_zero_r (S754_zero s') false) as [[s'' E] | E];
        rewrite E.
      * left. apply add_posZero_zero.
      * right. reflexivity.
    + right. reflexivity.
  - right. now rewrite !mul_nan_r, add_nan_r.
  - right. reflexivity.
  - right. reflexivity.
Qed.

(** The distance of a point from itself is [+0], or NaN: never more
    than a positive threshold. *)
Lemma distance_self (lat lon : number) :
  calculateDistance lat lon lat lon = posZero
  \/ calculateDistance lat lon lat lon = NaN.
Proof.
  unfold calculateDistance.
  destruct (haversine_self (Math_cos (div (mul lat Math_PI) n180))
              (Math_cos (div (mul lat Math_PI) n180))
              (sub lat lat) (sub lon lon)
              (sub_diag lat) (sub_diag lon)) as [E | E];
    cbv zeta in E; rewrite E.
  - left. apply distance_tail_zero.
  - right. apply distance_tail_nan.
Qed.

Lemma distance_self_within (lat lon : number) :
  gt (calculateDistance lat lon lat lon) n5 = false.
Proof.
  destruct (distance_self lat lon) as [-> | ->]; reflexivity.
Qed.

End DistanceSelf.

(* ================================================================= *)
(** ** The monitor: what the effects leave alone *)

Section MonitorFrame.

Lemma jsstring_eqb_refl s : JsString.eqb s s = true.
Proof. induction s as [|c s IH]; cbn; [easy|]. now rewrite Ascii.eqb_refl. Qed.

Lemma jsstring_eqb_eq s t : JsString.eqb s t = true <-> s = t.
Proof.
  split; [|intros ->; apply jsstring_eqb_refl].
  revert t; induction s as [|c s IH]; intros [|d t]; cbn; try easy.
  intros H. apply andb_prop in H as [H1 H2].
  apply Ascii.eqb_eq in H1. apply IH in H2. now subst.
Qed.

Lemma runEffects_state prev cur : sameState (fst (runEffects prev cur)) cur.
Proof.
  unfold runEffects, vitalsAlertEffect, outOfBoundsAlertEffect.
  repeat match goal with
         | |- context [if ?b then _ else _] => destruct b
         end; cbn; repeat split.
Qed.

Lemma vitalsAlertEffect_state a : sameState (fst (vitalsAlertEffect a)) a.
Proof.
  unfold vitalsAlertEffect.
  repeat match goal with
         | |- context [if ?b then _ else _] => destruct b
         end; cbn; repeat split.
Qed.

(** The dependencies of the two alert effects do not mention the
    position. *)
Lemma vitalsDeps_setLocation a cur home out :
  vitalsDepsChanged a (setLocation cur home out a) = false.
Proof.
  unfold vitalsDepsChanged; cbn.
  now rewrite !Z.eqb_refl, eqb_reflx, jsstring_eqb_refl.
Qed.

End MonitorFrame.

(* ================================================================= *)
(** ** The geofence *)

Section Geofence.
Context {M : MathLib}.

Lemma run_app a es1 es2 :
  fst (run a (es1 ++ es2)) = fst (run (fst (run a es1)) es2).
Proof.
  revert a; induction es1 as [|e es1 IH]; intros a; cbn; [easy|].
  specialize (IH (fst (step a e))).
  destruct (step a e) as [a1 o]; cbn in *.
  destruct (run a1 (es1 ++ es2)) as [a2 os] eqn:E2.
  destruct (run a1 es1) as [a3 os3] eqn:E3; cbn in *.
  exact IH.
Qed.

Lemma run_cons a e es :
  fst (run a (e :: es)) = fst (run (fst (step a e)) es).
Proof.
  cbn. destruct (step a e) as [a1 o]; cbn.
  now destruct (run a1 es).
Qed.

(** [Link] on an [App] that is not linked starts a session with no home
    reference. *)
Lemma link_starts a r26 r5 :
  isLinked a = false ->
  monitoring (fst (step a (Link r26 r5)))
  /\ homePosition (fst (step a (Link r26 r5))) = None.
Proof.
  intros H. cbn [step]. rewrite H.
  destruct (vitalsAlertEffect _) as [a3 o1] eqn:E3.
  pose proof (vitalsAlertEffect_state
                (setVitalsAlertShownRef false
                   {| isLinked := true; heartRate := heartRate a;
                      oxygenLevel := oxygenLevel a;
                      emergencyContact := emergencyContact a;
                      homePosition := homePosition a;
                      currentPosition := currentPosition a;
                      isOutOfBounds := isOutOfBounds a;
                      vitalsAlertShownRef := vitalsAlertShownRef a;
                      outOfBoundsAlertShownRef := outOfBoundsAlertShownRef a;
                      locationWatchIdRef := locationWatchIdRef a |})) as S3.
  rewrite E3 in S3; cbn in S3.
  match goal with
  | |- context [runEffects ?p ?c] =>
      pose proof (runEffects_state p c) as S6;
      destruct (runEffects p c) as [a6 o2]
  end.
  unfold sameState, monitoring in *; cbn in *.
  destruct S3 as (L3 & _).
  destruct S6 as (L & _ & _ & _ & Hm & _ & _ & W).
  now rewrite L, L3, Hm, W.
Qed.

(** Within a session nothing but a reading touches the home reference,
    and a reading keeps a home reference that is set. *)
Lemma step_monitoring a e :
  monitoring a -> isRemount e = false -> monitoring (fst (step a e)).
Proof.
  intros [L W] R. unfold monitoring.
  destruct e as [r26 r5|r5 mv up|p|s|h|]; try discriminate; cbn [step].
  - now rewrite L.
  - rewrite L. destruct (runEffects_state a
      (setVitals (clamp 50 130 (heartRate a + r5 - 2))
         (clamp 90 100 (oxygenLevel a
                        + (if mv then if up then 1 else -1 else 0))) a))
      as (-> & _ & _ & _ & _ & _ & _ & ->). now cbn.
  - rewrite W. destruct (runEffects_state a (onPosition a p))
      as (-> & _ & _ & _ & _ & _ & _ & ->). now cbn.
  - destruct (runEffects_state a (setEmergencyContact s a))
      as (-> & _ & _ & _ & _ & _ & _ & ->). now cbn.
  - match goal with
    | |- context [runEffects ?p ?c] =>
        destruct (runEffects_state p c) as (-> & _ & _ & _ & _ & _ & _ & ->)
    end.
    now destruct h.
Qed.

Lemma step_home_unset a e :
  monitoring a -> homePosition a = None ->
  isReading e = false -> isRemount e = false ->
  homePosition (fst (step a e)) = None.
Proof.
  intros [L W] H R1 R2.
  destruct e as [r26 r5|r5 mv up|p|s|h|]; try discriminate; cbn [step].
  - now rewrite L.
  - rewrite L.
    match goal with
    | |- context [runEffects ?p ?c] =>
        destruct (runEffects_state p c) as (_ & _ & _ & _ & -> & _)
    end. now cbn.
  - match goal with
    | |- context [runEffects ?p ?c] =>
        destruct (runEffects_state p c) as (_ & _ & _ & _ & -> & _)
    end. now cbn.
  - match goal with
    | |- context [runEffects ?p ?c] =>
        destruct (runEffects_state p c) as (_ & _ & _ & _ & -> & _)
    end. now destruct h.
Qed.

Lemma step_home_set a e home :
  monitoring a -> homePosition a = Some home -> isRemount e = false ->
  homePosition (fst (step a e)) = Some home.
Proof.
  intros [L W] H R.
  destruct e as [r26 r5|r5 mv up|p|s|h|]; try discriminate; cbn [step].
  - now rewrite L.
  - rewrite L.
    match goal with
    | |- context [runEffects ?p ?c] =>
        destruct (runEffects_state p c) as (_ & _ & _ & _ & -> & _)
    end. now cbn.
  - rewrite W.
    match goal with
    | |- context [runEffects ?p ?c] =>
        destruct (runEffects_state p c) as (_ & _ & _ & _ & -> & _)
    end. unfold onPosition. now rewrite H.
  - match goal with
    | |- context [runEffects ?p ?c] =>
        destruct (runEffects_state p c) as (_ & _ & _ & _ & -> & _)
    end. now cbn.
  - match goal with
    | |- context [runEffects ?p ?c] =>
        destruct (runEffects_state p c) as (_ & _ & _ & _ & -> & _)
    end. now destruct h.
Qed.

(** The first reading of a session becomes the home reference. *)
Lemma first_reading_home a p :
  monitoring a -> homePosition a = None ->
  homePosition (fst (step a (Reading p))) = Some p.
Proof.
  intros [L W] H. cbn [step]. rewrite W.
  destruct (runEffects_state a (onPosition a p)) as (_ & _ & _ & _ & -> & _).
  unfold onPosition. now rewrite H.
Qed.

Lemma run_before_first_reading a es :
  monitoring a -> homePosition a = None -> beforeFirstReading es = true ->
  monitoring (fst (run a es)) /\ homePosition (fst (run a es)) = None.
Proof.
  revert a; induction es as [|e es IH]; intros a Hm Hh Hes; [now cbn|].
  cbn [beforeFirstReading forallb] in Hes.
  apply andb_prop in Hes as [He Hes]. apply andb_prop in He as [He1 He2].
  apply negb_true_iff in He1, He2.
  rewrite run_cons. apply IH; auto using step_monitoring, step_home_unset.
Qed.

Lemma run_within_session a es home :
  monitoring a -> homePosition a = Some home -> withinSession es = true ->
  monitoring (fst (run a es)) /\ homePosition (fst (run a es)) = Some home.
Proof.
  revert a; induction es as [|e es IH]; intros a Hm Hh Hes; [now cbn|].
  cbn [withinSession forallb] in Hes.
  apply andb_prop in Hes as [He Hes]. apply negb_true_iff in He.
  rewrite run_cons. apply IH; auto using step_monitoring, step_home_set.
Qed.

End Geofence.

(* ================================================================= *)
(** ** The reference [MathLib] is lawful *)

#[export] Instance RefMath_laws : MathLibLaws RefMath.lib.
Proof.
  split; cbn; try reflexivity.
  - now intros [| | |].
  - intros [s|s| |s m e]; cbn; try discriminate; destruct s; try discriminate;
      reflexivity.
Qed.

(* ================================================================= *)
(** ** The geofence: boundary state and home reference *)

Section Boundary.

Lemma reading_sets_boundary {M : MathLib} (a : App) (home p : Position) :
  locationWatchIdRef a = true ->
  homePosition a = Some home ->
  isOutOfBounds (fst (step a (Reading p)))
  = gt (distanceBetween home p) n5.
Proof.
  intros W H. cbn [step]. rewrite W.
  destruct (runEffects_state a (onPosition a p))
    as (_ & _ & _ & _ & _ & _ & -> & _).
  unfold onPosition. rewrite H. reflexivity.
Qed.

(** C7. For a position update [p] received while a home reference
    [home] exists, the new boundary state is out-of-bounds exactly when
    the computed distance from home exceeds 5 (km): [isOutOfBounds] is
    the value of [distance > 5], so a computed distance of 6 is
    classified out-of-bounds and one of 4 in-bounds. With the home at
    (0, 0) and the reference library, the reading [sixKmNorth] is
    computed to be exactly 6 km away and is classified out-of-bounds,
    and the reading [fourKmNorth] is computed to be exactly 4 km away
    and is classified in-bounds. *)
Theorem out_of_bounds_iff_beyond_5km :
  (forall (M : MathLib) (a : App) (home p : Position),
      locationWatchIdRef a = true ->
      homePosition a = Some home ->
      let distance :=
        calculateDistance (lat home) (lon home) (lat p) (lon p) in
      let a' := fst (step a (Reading p)) in
      isOutOfBounds a' = gt distance n5
      /\ (distance = n6 -> isOutOfBounds a' = true)
      /\ (distance = n4 -> isOutOfBounds a' = false))
  /\ (forall a : App,
         locationWatchIdRef a = true ->
         homePosition a = Some nullIsland ->
         distanceBetween (M := RefMath.lib) nullIsland sixKmNorth = n6
         /\ isOutOfBounds
              (fst (step (M := RefMath.lib) a (Reading sixKmNorth))) = true
         /\ distanceBetween (M := RefMath.lib) nullIsland fourKmNorth = n4
         /\ isOutOfBounds
              (fst (step (M := RefMath.lib) a (Reading fourKmNorth)))
            = false).
Proof.
  split.
  - intros M a home p W H distance a'.
    assert (E : isOutOfBounds a' = gt distance n5)
      by exact (reading_sets_boundary a home p W H).
    split; [exact E|]. rewrite E.
    split; intros ->; reflexivity.
  - intros a W H.
    assert (D6 : distanceBetween (M := RefMath.lib) nullIsland sixKmNorth
                 = n6) by (vm_compute; reflexivity).
    assert (D4 : distanceBetween (M := RefMath.lib) nullIsland fourKmNorth
                 = n4) by (vm_compute; reflexivity).
    rewrite !(reading_sets_boundary (M := RefMath.lib) a nullIsland _ W H).
    rewrite D6, D4. repeat split.
Qed.

End Boundary.

Section GeofenceClaims.
Context {M : MathLib}.

(** C8. In a session started by [Link] the home reference is unset until
    the first position reading, is that reading from then on, whatever
    follows in the session, further readings included; after the [App] is
    remounted (monitoring stopped and started again) the home reference
    is unset and the first reading of the new session defines it. *)
Theorem home_reference_set_once (a : App) (r26 r5 : Z)
        (es1 es2 : list Event) (p : Position) :
  isLinked a = false ->
  beforeFirstReading es1 = true ->
  withinSession es2 = true ->
  let session := Link r26 r5 :: es1 ++ Reading p :: es2 in
  homePosition (fst (run a (Link r26 r5 :: es1))) = None
  /\ homePosition (fst (run a (Link r26 r5 :: es1 ++ [Reading p]))) = Some p
  /\ homePosition (fst (run a session)) = Some p
  /\ homePosition (fst (run a (session ++ [Remount]))) = None
  /\ forall r26' r5' es1' q,
       beforeFirstReading es1' = true ->
       homePosition
         (fst (run a (session ++ Remount :: Link r26' r5' :: es1'
                        ++ [Reading q]))) = Some q.
Proof.
  intros L H1 H2 session.
  assert (Start : forall b r r' es q,
             isLinked b = false -> beforeFirstReading es = true ->
             let b1 := fst (run b (Link r r' :: es)) in
             (monitoring b1 /\ homePosition b1 = None)
             /\ (monitoring (fst (step b1 (Reading q)))
                 /\ homePosition (fst (step b1 (Reading q))) = Some q)).
  { intros b r r' es q Lb Hes b1. subst b1. rewrite run_cons.
    destruct (link_starts b r r' Lb) as [Mon Hn].
    destruct (run_before_first_reading _ es Mon Hn Hes) as [Mon1 Hn1].
    repeat split; try apply Mon1; try exact Hn1.
    - now apply step_monitoring.
    - now apply step_monitoring.
    - now apply first_reading_home. }
  destruct (Start a r26 r5 es1 p L H1) as [[Mon1 Hn1] [Mon2 Hs2]].
  assert (Hsess : homePosition (fst (run a session)) = Some p).
  { subst session.
    change (Link r26 r5 :: es1 ++ Reading p :: es2)
      with ((Link r26 r5 :: es1) ++ Reading p :: es2).
    rewrite run_app, run_cons.
    now apply run_within_session. }
  repeat split.
  - exact Hn1.
  - change (Link r26 r5 :: es1 ++ [Reading p])
      with ((Link r26 r5 :: es1) ++ [Reading p]).
    rewrite run_app, run_cons. exact Hs2.
  - exact Hsess.
  - rewrite run_app, run_cons. reflexivity.
  - intros r26' r5' es1' q Hes'.
    rewrite run_app, run_cons. cbn [step fst].
    change (Link r26' r5' :: es1' ++ [Reading q])
      with ((Link r26' r5' :: es1') ++ [Reading q]).
    rewrite run_app, run_cons.
    now destruct (Start initialApp r26' r5' es1' q eq_refl Hes') as [_ [_ ?]].
Qed.

Context {L : MathLibLaws M}.

(** C10. The first position update of a monitoring session is
    classified in-bounds, and no alert is shown at it: the reading is its
    own home reference, its distance from itself is not above 5. *)
Theorem first_reading_in_bounds (a : App) (r26 r5 : Z)
        (es1 : list Event) (p : Position) :
  isLinked a = false ->
  beforeFirstReading es1 = true ->
  let a1 := fst (run a (Link r26 r5 :: es1)) in
  homePosition (fst (step a1 (Reading p))) = Some p
  /\ isOutOfBounds (fst (step a1 (Reading p))) = false
  /\ snd (step a1 (Reading p)) = [].
Proof.
  intros La Hes a1.
  assert (Mon : monitoring a1 /\ homePosition a1 = None).
  { subst a1. rewrite run_cons.
    destruct (link_starts a r26 r5 La) as [Mon Hn].
    now apply run_before_first_reading. }
  destruct Mon as [[Lk W] Hn].
  split; [now apply first_reading_home|].
  cbn [step]. rewrite W.
  assert (E : onPosition a1 p = setLocation p (Some p) false a1).
  { unfold onPosition. rewrite Hn. now rewrite distance_self_within. }
  rewrite E. unfold runEffects.
  rewrite vitalsDeps_setLocation.
  unfold outOfBoundsAlertEffect. cbn.
  destruct (outOfBoundsDepsChanged _ _); cbn; auto.
Qed.

End GeofenceClaims.

Lemma out_of_bounds_iff_beyond_5km_witness :
  let a := fst (run (M := RefMath.lib) initialApp
                    [Link 0 2; Reading nullIsland]) in
  locationWatchIdRef a = true /\ homePosition a = Some nullIsland
  /\ distanceBetween (M := RefMath.lib) nullIsland sixKmNorth = n6
  /\ isOutOfBounds (fst (step (M := RefMath.lib) a (Reading sixKmNorth)))
     = true
  /\ distanceBetween (M := RefMath.lib) nullIsland fourKmNorth = n4
  /\ isOutOfBounds (fst (step (M := RefMath.lib) a (Reading fourKmNorth)))
     = false.
Proof.
  cbv zeta.
  refine (conj eq_refl (conj eq_refl _)).
  exact (proj2 out_of_bounds_iff_beyond_5km
           (fst (run (M := RefMath.lib) initialApp
                   [Link 0 2; Reading nullIsland])) eq_refl eq_refl).
Defined.

Lemma home_reference_set_once_witness :
  let p := examplePosition 12 77 in
  isLinked initialApp = false
  /\ beforeFirstReading [ContactChange (js "911"); Tick 1 false false] = true
  /\ withinSession [Reading (examplePosition 13 77); Tick 0 true true] = true
  /\ homePosition
       (fst (run (M := RefMath.lib) initialApp
               (Link 0 2 :: [ContactChange (js "911"); Tick 1 false false]
                  ++ Reading p
                  :: [Reading (examplePosition 13 77); Tick 0 true true])))
     = Some p.
Proof.
  cbv zeta.
  refine (conj eq_refl (conj eq_refl (conj eq_refl _))).
  refine (proj1 (proj2 (proj2
            (home_reference_set_once (M := RefMath.lib) initialApp 0 2
               [ContactChange (js "911"); Tick 1 false false]
               [Reading (examplePosition 13 77); Tick 0 true true]
               (examplePosition 12 77) _ _ _))));
    reflexivity.
Defined.

Lemma first_reading_in_bounds_witness :
  let p := examplePosition 12 77 in
  let a1 := fst (run (M := RefMath.lib) initialApp
                     [Link 0 2; ContactChange (js "911")]) in
  isLinked initialApp = false
  /\ beforeFirstReading [ContactChange (js "911")] = true
  /\ isOutOfBounds (fst (step (M := RefMath.lib) a1 (Reading p))) = false
  /\ snd (step (M := RefMath.lib) a1 (Reading p)) = [].
Proof.
  cbv zeta.
  refine (conj eq_refl (conj eq_refl _)).
  refine (proj2 (first_reading_in_bounds (M := RefMath.lib) initialApp 0 2
                   [ContactChange (js "911")] (examplePosition 12 77) _ _));
    reflexivity.
Defined.

(* ================================================================= *)
(** ** Rounding: a bound on a rounded result

    What the proofs below need of the rounding of [SpecFloat]: a result
    is finite, has the sign asked for, and does not exceed a power of two
    that the exact value is below. *)

Section Rounding.

Lemma digits2_size p : digits2_pos p = Pos.size p.
Proof. induction p; cbn; now rewrite ?IHp. Qed.

Lemma digits2_bounds p :
  2 ^ (Zpos (digits2_pos p) - 1) <= Zpos p < 2 ^ Zpos (digits2_pos p).
Proof.
  rewrite digits2_size. split.
  - pose proof (Pos.size_le p) as H.
    assert (Zpos (2 ^ Pos.size p) <= Zpos (p~0)) by exact H.
    rewrite Pos2Z.inj_pow in H0.
    replace (Zpos (Pos.size p)) with (Zpos (Pos.size p) - 1 + 1) in H0 by lia.
    rewrite Z.pow_add_r in H0 by lia. lia.
  - pose proof (Pos.size_gt p) as H.
    assert (Zpos p < Zpos (2 ^ Pos.size p)) by exact H.
    now rewrite Pos2Z.inj_pow in H0.
Qed.

Lemma shr_1_m r : 0 <= shr_m r -> shr_m (shr_1 r) = shr_m r / 2.
Proof.
  destruct r as [m b s]; cbn. intros H.
  destruct m as [|[p|p|]|p]; cbn; try lia.
  - rewrite Pos2Z.inj_xI. apply Z.div_unique with 1; lia.
  - rewrite Pos2Z.inj_xO. apply Z.div_unique with 0; lia.
Qed.

Lemma iter_shr_m p : forall r,
  0 <= shr_m r -> shr_m (iter_pos shr_1 p r) = shr_m r / 2 ^ Zpos p.
Proof.
  induction p as [p IH|p IH|]; intros r H; cbn [iter_pos].
  - assert (H1 : 0 <= shr_m (shr_1 r)) by (rewrite shr_1_m by lia; apply Z.div_pos; lia).
    assert (H2 : 0 <= shr_m (iter_pos shr_1 p (shr_1 r)))
      by (rewrite IH by lia; apply Z.div_pos; lia).
    rewrite IH, IH, shr_1_m by lia.
    rewrite !Z.div_div by lia. f_equal.
    rewrite <- Z.pow_add_r, <- Z.pow_succ_r by lia. f_equal. lia.
  - assert (H2 : 0 <= shr_m (iter_pos shr_1 p r))
      by (rewrite IH by lia; apply Z.div_pos; lia).
    rewrite IH, IH by lia. rewrite Z.div_div by lia. f_equal.
    rewrite <- Z.pow_add_r by lia. f_equal. lia.
  - now rewrite shr_1_m, Z.pow_1_r.
Qed.

(** shifting by [n], whatever its sign *)
Lemma shr_spec m e n :
  0 <= m ->
  let '(r, e') := shr (shr_record_of_loc m loc_Exact) e n in
  e' = e + Z.max 0 n /\ shr_m r = m / 2 ^ Z.max 0 n
  /\ (n <= 0 -> r = shr_record_of_loc m loc_Exact).
Proof.
  intros H. destruct n as [|p|p]; cbn [shr].
  - rewrite Z.max_l by lia. cbn. rewrite Z.div_1_r. repeat split; lia.
  - rewrite Z.max_r by lia. rewrite iter_shr_m by (cbn; lia). cbn. repeat split; lia.
  - rewrite Z.max_l by lia. cbn. rewrite Z.div_1_r. repeat split; lia.
Qed.

Lemma round_nearest_even_bounds m l :
  m <= round_nearest_even m l <= m + 1.
Proof.
  destruct l as [|[| |]]; cbn; try lia. destruct (Z.even m); lia.
Qed.

Lemma Zdigits2_bound m D :
  0 < m -> m < 2 ^ D -> Zdigits2 m <= D.
Proof.
  intros H1 H2. destruct m as [|p|p]; try lia. cbn.
  pose proof (digits2_bounds p) as [L _].
  destruct (Z_lt_le_dec D (Zpos (digits2_pos p))) as [C|C]; [|lia].
  exfalso. assert (2 ^ D <= 2 ^ (Zpos (digits2_pos p) - 1)).
  { destruct (Z_lt_le_dec D 0). - rewrite Z.pow_neg_r in H2 by lia. lia.
    - apply Z.pow_le_mono_r; lia. }
  lia.
Qed.

Lemma fexp_le d D :
  d - 53 <= D -> -1074 <= D -> fexp prec emax d <= D.
Proof. unfold fexp, emin, prec, emax. lia. Qed.

Lemma pow2_split a b : 0 <= a -> 0 <= b -> 2 ^ (a + b) = 2 ^ a * 2 ^ b.
Proof. intros. now rewrite Z.pow_add_r. Qed.

Lemma shr_any_spec m l e n :
  0 <= m ->
  let '(r, e') := shr (shr_record_of_loc m l) e n in
  e' = e + Z.max 0 n /\ shr_m r = m / 2 ^ Z.max 0 n.
Proof.
  intros H.
  assert (E : shr_m (shr_record_of_loc m l) = m) by now destruct l as [|[| |]].
  destruct n as [|p|p]; cbn [shr].
  - rewrite Z.max_l by lia. rewrite E. cbn. rewrite Z.div_1_r. split; lia.
  - rewrite Z.max_r by lia. rewrite iter_shr_m by (rewrite E; lia).
    rewrite E. split; lia.
  - rewrite Z.max_l by lia. rewrite E. cbn. rewrite Z.div_1_r. split; lia.
Qed.

Lemma round_aux_within s m e l D :
  0 <= m < 2 ^ (D - e) -> e <= 971 -> -1074 <= D <= 1023 ->
  within s D (binary_round_aux prec emax s m e l).
Proof.
  intros [Hm0 Hm] He [HD1 HD2].
  assert (HeD : e <= D).
  { destruct (Z_lt_le_dec D e); [|lia]. rewrite Z.pow_neg_r in Hm by lia. lia. }
  unfold binary_round_aux, shr_fexp.
  set (n1 := fexp prec emax (Zdigits2 m + e) - e).
  pose proof (shr_any_spec m l e n1 Hm0) as S1.
  destruct (shr (shr_record_of_loc m l) e n1) as [r1 e1].
  destruct S1 as (E1 & M1).
  assert (Hdg : Zdigits2 m <= D - e).
  { destruct (Z.eq_dec m 0) as [-> | ]; [cbn; lia|].
    apply Zdigits2_bound; lia. }
  assert (He1 : e1 <= D /\ e1 <= 971 /\ e <= e1).
  { subst e1 n1.
    pose proof (fexp_le (Zdigits2 m + e) D ltac:(lia) ltac:(lia)).
    pose proof (fexp_le (Zdigits2 m + e) 971 ltac:(lia) ltac:(lia)). lia. }
  destruct He1 as (He1D & He1m & Hee1).
  assert (Hm1 : 0 <= shr_m r1 < 2 ^ (D - e1)).
  { rewrite M1. replace (Z.max 0 n1) with (e1 - e) by lia. split.
    - apply Z.div_pos; lia.
    - apply Z.div_lt_upper_bound; [lia|].
      rewrite <- pow2_split by lia. now replace (e1 - e + (D - e1)) with (D - e) by lia. }
  pose proof (round_nearest_even_bounds (shr_m r1) (loc_of_shr_record r1)) as R.
  set (m2 := round_nearest_even (shr_m r1) (loc_of_shr_record r1)) in *.
  assert (Hm2 : 0 <= m2 <= 2 ^ (D - e1)) by lia.
  set (n2 := fexp prec emax (Zdigits2 m2 + e1) - e1).
  pose proof (shr_spec m2 e1 n2 ltac:(lia)) as S2.
  destruct (shr (shr_record_of_loc m2 loc_Exact) e1 n2) as [r2 e2].
  destruct S2 as (E2 & M2 & _).
  assert (Hdg2 : Zdigits2 m2 <= D - e1 + 1).
  { destruct (Z.eq_dec m2 0) as [-> | ]; [cbn; lia|].
    apply Zdigits2_bound; [lia|].
    replace (D - e1 + 1) with (Z.succ (D - e1)) by lia.
    rewrite Z.pow_succ_r by lia. lia. }
  assert (He2 : e2 <= D /\ e2 <= 971 /\ e1 <= e2).
  { subst e2 n2.
    pose proof (fexp_le (Zdigits2 m2 + e1) D ltac:(lia) ltac:(lia)).
    pose proof (fexp_le (Zdigits2 m2 + e1) 971 ltac:(lia) ltac:(lia)). lia. }
  destruct He2 as (He2D & He2m & He12).
  assert (Hm3 : 0 <= shr_m r2 <= 2 ^ (D - e2)).
  { rewrite M2. replace (Z.max 0 n2) with (e2 - e1) by lia. split.
    - apply Z.div_pos; lia.
    - apply Z.div_le_upper_bound; [lia|].
      rewrite <- pow2_split by lia. now replace (e2 - e1 + (D - e2)) with (D - e1) by lia. }
  destruct (shr_m r2) as [|p|p]; cbn [within]; try lia; auto.
  change (emax - prec) with 971.
  destruct (Z.leb_spec e2 971); [|lia]. cbn. repeat split; lia.
Qed.

Lemma iter_xO m d : Zpos (Pos.iter xO m d) = Zpos m * 2 ^ Zpos d.
Proof.
  revert m. induction d as [|d IH] using Pos.peano_ind; intros m.
  - cbn. lia.
  - rewrite Pos.iter_succ, Pos2Z.inj_xO, IH, Pos2Z.inj_succ, Z.pow_succ_r by lia. lia.
Qed.

Lemma shl_align_spec m e e' :
  e' <= e ->
  shl_align m e e' = (Z.to_pos (Zpos m * 2 ^ (e - e')), e').
Proof.
  intros H. unfold shl_align.
  destruct (e' - e) as [|d|d] eqn:E; try lia.
  - assert (e = e') as -> by lia. rewrite Z.sub_diag, Z.mul_1_r. reflexivity.
  - rewrite <- Pos2Z.id at 1. rewrite iter_xO.
    replace (e - e') with (Zpos d) by lia. reflexivity.
Qed.

Lemma binary_round_within s m e D :
  Zpos m < 2 ^ (D - e) -> e <= 971 -> -1074 <= D <= 1023 ->
  within s D (binary_round prec emax s m e).
Proof.
  intros Hm He HD. unfold binary_round.
  set (e' := fexp prec emax (Zpos (digits2_pos m) + e)).
  destruct (Z_le_gt_dec e' e) as [C|C].
  - rewrite shl_align_spec by exact C.
    assert (HeD : e <= D).
    { destruct (Z_lt_le_dec D e); [|lia]. rewrite Z.pow_neg_r in Hm by lia. lia. }
    assert (P : 0 < 2 ^ (e - e')) by (apply Z.pow_pos_nonneg; lia).
    apply round_aux_within; try lia.
    rewrite Z2Pos.id by lia. split; [lia|].
    replace (D - e') with ((D - e) + (e - e')) by lia.
    rewrite pow2_split by lia. nia.
  - unfold shl_align. destruct (e' - e) as [|d|d] eqn:E; try lia.
    apply round_aux_within; lia.
Qed.

End Rounding.

(* ================================================================= *)
(** ** The generated rating *)

Section RatingFacts.

Lemma digitChar_isDigit d : 0 <= d <= 9 -> isDigit (digitChar d) = true.
Proof.
  intros H.
  assert (C : d = 0 \/ d = 1 \/ d = 2 \/ d = 3 \/ d = 4 \/ d = 5 \/ d = 6
              \/ d = 7 \/ d = 8 \/ d = 9) by lia.
  repeat (destruct C as [-> | C]; [reflexivity|]). now subst.
Qed.

Lemma decimal_digit d : 0 <= d <= 9 -> decimal d = [digitChar d].
Proof.
  intros H. unfold decimal. cbn [decimalFuel].
  destruct (Z.ltb_spec d 10); [reflexivity | lia].
Qed.

(** [toFixed(1)] of a number of magnitude at most 8. *)
Lemma toFixed1_within x :
  within false 3 x ->
  exists d1 d2, isDigit d1 = true /\ isDigit d2 = true
                /\ toFixed1 x = Some [d1; "."%char; d2].
Proof.
  destruct x as [s|s| |s m e]; cbn [within]; try easy.
  - intros _. exists "0"%char, "0"%char. now repeat split.
  - intros (-> & He & Hm). unfold toFixed1.
    assert (P : 0 < 2 ^ (3 - e)) by (apply Z.pow_pos_nonneg; lia).
    assert (N : 0 <= nearestTenths m e <= 80).
    { unfold nearestTenths. destruct (Z.leb_spec 0 e) as [C|C].
      - assert (E : 2 ^ 3 = 2 ^ (3 - e) * 2 ^ e)
          by (rewrite <- Z.pow_add_r by lia; f_equal; lia).
        assert (0 < 2 ^ e) by (apply Z.pow_pos_nonneg; lia).
        change (2 ^ 3) with 8 in E. nia.
      - assert (Q : 0 < 2 ^ (- e)) by (apply Z.pow_pos_nonneg; lia).
        assert (E1 : 2 ^ (1 - e) = 2 * 2 ^ (- e))
          by (replace (1 - e) with (Z.succ (- e)) by lia;
              now rewrite Z.pow_succ_r by lia).
        assert (E3 : 2 ^ (3 - e) = 8 * 2 ^ (- e))
          by (replace (3 - e) with (3 + - e) by lia;
              now rewrite Z.pow_add_r by lia).
        rewrite E1. split.
        + apply Z.div_pos; lia.
        + assert ((20 * Z.pos m + 2 ^ (- e)) / (2 * 2 ^ (- e)) < 81)
            by (apply Z.div_lt_upper_bound; lia).
          lia. }
    assert (B : atLeast1e21 m e = false).
    { unfold atLeast1e21. destruct (Z.leb_spec 0 e) as [C|C].
      - apply Z.leb_gt.
        assert (E : 2 ^ 3 = 2 ^ (3 - e) * 2 ^ e)
          by (rewrite <- Z.pow_add_r by lia; f_equal; lia).
        assert (0 < 2 ^ e) by (apply Z.pow_pos_nonneg; lia).
        change (2 ^ 3) with 8 in E. change (10 ^ 21) with 1000000000000000000000. nia.
      - apply Z.leb_gt.
        assert (Q : 0 < 2 ^ (- e)) by (apply Z.pow_pos_nonneg; lia).
        assert (E3 : 2 ^ (3 - e) = 8 * 2 ^ (- e))
          by (replace (3 - e) with (3 + - e) by lia;
              now rewrite Z.pow_add_r by lia).
        change (10 ^ 21) with 1000000000000000000000. nia. }
    rewrite B. cbn [app js list_ascii_of_string].
    assert (N1 : 0 <= nearestTenths m e / 10 <= 9).
    { split; [apply Z.div_pos; lia|].
      apply Z.div_le_upper_bound; lia. }
    assert (N2 : 0 <= nearestTenths m e mod 10 <= 9)
      by (pose proof (Z.mod_pos_bound (nearestTenths m e) 10); lia).
    rewrite decimal_digit by exact N1.
    exists (digitChar (nearestTenths m e / 10)),
           (digitChar (nearestTenths m e mod 10)).
    repeat split; auto using digitChar_isDigit.
Qed.

Lemma mul_finite sx mx ex sy my ey :
  mul (S754_finite sx mx ex) (S754_finite sy my ey)
  = binary_round_aux prec emax (xorb sx sy) (Zpos (mx * my)) (ex + ey)
                     loc_Exact.
Proof. reflexivity. Qed.

(** A valid number below 1: its mantissa has at most 53 bits and its
    exponent is at most -53. *)
Lemma unit_draw_shape r :
  isUnitDraw r = true ->
  r = posZero
  \/ exists m e, r = S754_finite false m e /\ Zpos m < 2 ^ 53 /\ e <= -53.
Proof.
  destruct r as [[|]|s| |[|] m e]; cbn [isUnitDraw]; try discriminate; auto.
  intros H. apply andb_prop in H as [V Lt1]. right. exists m, e.
  split; [reflexivity|].
  cbn [valid_binary] in V. unfold bounded, canonical_mantissa in V.
  apply andb_prop in V as [C _]. apply Z.eqb_eq in C.
  unfold fexp, emin, prec, emax in C.
  pose proof (digits2_bounds m) as [Lo Hi].
  assert (D53 : Zpos (digits2_pos m) <= 53) by lia.
  assert (Hm : Zpos m < 2 ^ 53).
  { eapply Z.lt_le_trans; [exact Hi|]. apply Z.pow_le_mono_r; lia. }
  split; [exact Hm|].
  unfold lt, SFltb, SFcompare, n1 in Lt1.
  destruct (Z.compare_spec e (-52)) as [E | E | E]; try discriminate; [|lia].
  exfalso. subst e.
  assert (Zpos (digits2_pos m) = 53) by lia.
  rewrite H in Lo. change (2 ^ (53 - 1)) with 4503599627370496 in Lo.
  rewrite Pos.compare_cont_spec in Lt1.
  destruct (Pos.compare_spec m 4503599627370496) as [Cm|Cm|Cm];
    cbn [Pos.switch_Eq] in Lt1; try discriminate.
  apply Pos2Z.pos_lt_pos in Cm. clear - Lo Cm. lia.
Qed.

(** The rating before formatting is between 0 and 8. *)
Lemma rating_value_within r :
  isUnitDraw r = true ->
  within false 3 (add (mul r (sub n5_0 n3_8)) n3_8).
Proof.
  intros U.
  change (sub n5_0 n3_8) with (S754_finite false 5404319552844596 (-52)).
  destruct (unit_draw_shape r U) as [-> | (m & e & -> & Hm & He)].
  - vm_compute. repeat split; discriminate.
  - rewrite mul_finite. cbn [xorb].
    assert (W : within false 1
                  (binary_round_aux prec emax false
                     (Z.pos (m * 5404319552844596)) (e + -52) loc_Exact)).
    { apply round_aux_within; try lia. split; [lia|].
      assert (2 ^ 106 <= 2 ^ (1 - (e + -52)))
        by (apply Z.pow_le_mono_r; lia).
      change (2 ^ 106) with (2 ^ 53 * 2 ^ 53) in H.
      change (2 ^ 53) with 9007199254740992 in *.
      rewrite Pos2Z.inj_mul. nia. }
    set (x1 := binary_round_aux _ _ _ _ _ _) in *. clearbody x1.
    destruct x1 as [s1|s1| |s1 m1 e1];
      cbn [within] in W; try (exfalso; exact W).
    + subst s1. vm_compute. repeat split; discriminate.
    + destruct W as (-> & He1 & Hm1).
      unfold n3_8, add, SF64add, SFadd. cbn [cond_Zopp].
      set (ez := Z.min e1 (-51)).
      rewrite !shl_align_spec by lia. cbn [fst].
      assert (P1 : 0 < 2 ^ (e1 - ez)) by (apply Z.pow_pos_nonneg; lia).
      assert (P2 : 0 < 2 ^ (-51 - ez)) by (apply Z.pow_pos_nonneg; lia).
      rewrite !Z2Pos.id by lia.
      assert (A : Z.pos m1 * 2 ^ (e1 - ez) <= 2 ^ (1 - ez)).
      { replace (1 - ez) with ((1 - e1) + (e1 - ez)) by lia.
        rewrite pow2_split by lia. nia. }
      assert (B : 8556839292003942 * 2 ^ (-51 - ez) < 2 ^ (2 - ez)).
      { replace (2 - ez) with (53 + (-51 - ez)) by lia.
        rewrite pow2_split by lia.
        change (2 ^ 53) with 9007199254740992. nia. }
      assert (E3 : 2 ^ (3 - ez) = 4 * 2 ^ (1 - ez)).
      { replace (3 - ez) with (2 + (1 - ez)) by lia.
        now rewrite pow2_split by lia. }
      assert (E2 : 2 ^ (2 - ez) = 2 * 2 ^ (1 - ez)).
      { replace (2 - ez) with (1 + (1 - ez)) by lia.
        now rewrite pow2_split by lia. }
      destruct (Z.pos m1 * 2 ^ (e1 - ez)
                + 8556839292003942 * 2 ^ (-51 - ez)) as [|q|q] eqn:S;
        try lia.
      cbn [binary_normalize].
      apply binary_round_within; lia.
Qed.

(** Every draw of [Math.random()] yields a rating of the form
    [X.Y/5 stars]. *)
Lemma generateRandomRating_label r :
  isUnitDraw r = true ->
  exists label, generateRandomRating r = Some label
                /\ isRatingLabel label = true.
Proof.
  intros U. unfold generateRandomRating.
  destruct (toFixed1_within _ (rating_value_within r U))
    as (d1 & d2 & D1 & D2 & ->).
  cbn [option_map app]. eexists; split; [reflexivity|].
  cbn [isRatingLabel]. now rewrite D1, D2.
Qed.

End RatingFacts.

(* ================================================================= *)
(** ** The distance: symmetry and zeros *)

Section DistanceClaims.
Context {M : MathLib} {L : MathLibLaws M} {R : MathLibRange M}.























End DistanceClaims.

#[export] Instance RefMath_range : MathLibRange RefMath.lib.
Proof.
  split.
  - intros [s|s| |s m e]; try reflexivity.
    cbn [Math_sin RefMath.lib RefMath.sin SFopp].
    set (V := RefMath.sinSeries _). clearbody V.
    destruct s; cbn [negb RefMath.withSign]; now rewrite ?opp_involutive.
  - intros [s|s| |s m e] F; try discriminate F; [reflexivity|].
    cbn [Math_cos RefMath.lib RefMath.cos].
    set (v := RefMath.cosSeries _). clearbody v.
    unfold RefMath.clampUnit.
    destruct (inUnitRange v) eqn:E; [exact E|].
    now destruct v as [[|]|[|]| |[|] ? ?].
Qed.



(* ================================================================= *)
(** ** The two alert latches *)

Section Latches.
Context {M : MathLib}.

(** C1, on the vitals alert: the code at the samples of the claim. Five
    successive readings of the simulator are normal, abnormal, abnormal,
    normal, abnormal (heart rates 60, 59, 58, 60, 59) with a contact
    entered; the alert fires at the second and at no other, where the
    debouncer of the specification fires at the second and the fifth: the
    vitals effect never re-arms on a normal reading. *)
Theorem vitals_alert_not_rearmed :
  let a0 :=
    fst (run initialApp
           [Link 0 2; ContactChange (js "911"); Tick 0 false false;
            Tick 0 false false; Tick 0 false false; Tick 0 false false]) in
  let samples :=
    [Tick 0 false false; Tick 1 false false; Tick 1 false false;
     Tick 4 false false; Tick 1 false false] in
  map heartRate (states a0 samples) = [60; 59; 58; 60; 59]
  /\ map (fun a => abnormal (heartRate a) (oxygenLevel a)) (states a0 samples)
     = [false; true; true; false; true]
  /\ map (existsb isVitalsAlert) (snd (run a0 samples))
     = [false; true; false; false; false]
  /\ SpecDebouncer.fires true [false; true; true; false; true]
     = [false; true; false; false; true].
Proof. cbv zeta. repeat split. Qed.

Lemma hasContact_sameState a b :
  sameState a b -> hasContact a = hasContact b.
Proof. intros (_ & _ & _ & E & _). unfold hasContact. now rewrite E. Qed.

Lemma vitalsAlertEffect_alike a b :
  alike a b ->
  alike (fst (vitalsAlertEffect a)) (fst (vitalsAlertEffect b))
  /\ kinds (snd (vitalsAlertEffect a)) = kinds (snd (vitalsAlertEffect b)).
Proof.
  intros [(L & H & O & Hp & Cp & Ob & V & W & Lw) Hc].
  unfold vitalsAlertEffect. rewrite L, H, O, V, Hc.
  destruct (isLinked b && hasContact b && negb (vitalsAlertShownRef b));
    [destruct (abnormal (heartRate b) (oxygenLevel b))|];
    cbn; repeat split; auto.
Qed.

Lemma outOfBoundsAlertEffect_alike a b :
  alike a b ->
  alike (fst (outOfBoundsAlertEffect a)) (fst (outOfBoundsAlertEffect b))
  /\ kinds (snd (outOfBoundsAlertEffect a))
     = kinds (snd (outOfBoundsAlertEffect b)).
Proof.
  intros [(L & H & O & Hp & Cp & Ob & V & W & Lw) Hc].
  unfold outOfBoundsAlertEffect. rewrite Ob, W, Hc.
  destruct (isOutOfBounds b && hasContact b
            && negb (outOfBoundsAlertShownRef b)) eqn:C; cbn; rewrite Ob;
    destruct (isOutOfBounds b) eqn:Eb; cbn; repeat split; cbn;
    rewrite ?Ob, ?Eb; auto.
Qed.

Lemma runEffects_alike pa a pb b :
  alike a b ->
  vitalsDepsChanged pa a = vitalsDepsChanged pb b ->
  outOfBoundsDepsChanged pa a = outOfBoundsDepsChanged pb b ->
  alike (fst (runEffects pa a)) (fst (runEffects pb b))
  /\ kinds (snd (runEffects pa a)) = kinds (snd (runEffects pb b)).
Proof.
  intros A D1 D2. unfold runEffects. rewrite D1, D2. clear D1 D2.
  assert (A1 : alike (fst (if vitalsDepsChanged pb b
                           then vitalsAlertEffect a else (a, [])))
                     (fst (if vitalsDepsChanged pb b
                           then vitalsAlertEffect b else (b, [])))
               /\ kinds (snd (if vitalsDepsChanged pb b
                              then vitalsAlertEffect a else (a, [])))
                  = kinds (snd (if vitalsDepsChanged pb b
                                then vitalsAlertEffect b else (b, [])))).
  { destruct (vitalsDepsChanged pb b); [now apply vitalsAlertEffect_alike|].
    now split. }
  destruct (if vitalsDepsChanged pb b then vitalsAlertEffect a else (a, []))
    as [a1 o1].
  destruct (if vitalsDepsChanged pb b then vitalsAlertEffect b else (b, []))
    as [b1 o1'].
  cbn [fst snd] in A1. destruct A1 as [A1 K1].
  destruct (outOfBoundsDepsChanged pb b).
  - destruct (outOfBoundsAlertEffect_alike a1 b1 A1) as [A2 K2].
    destruct (outOfBoundsAlertEffect a1) as [a2 o2].
    destruct (outOfBoundsAlertEffect b1) as [b2 o2'].
    cbn [fst snd] in *. split; [exact A2|].
    unfold kinds in *. now rewrite !map_app, K1, K2.
  - cbn [fst snd]. split; [exact A1|].
    unfold kinds in *. now rewrite !map_app, K1.
Qed.

(** The dependencies of a render change alike in two executions that are
    alike before and after. *)
Lemma deps_alike pa a pb b :
  sameButContact pa pb -> sameButContact a b ->
  emergencyContact pa = emergencyContact a ->
  emergencyContact pb = emergencyContact b ->
  vitalsDepsChanged pa a = vitalsDepsChanged pb b
  /\ outOfBoundsDepsChanged pa a = outOfBoundsDepsChanged pb b.
Proof.
  intros (L & H & O & _ & _ & Ob & _) (L' & H' & O' & _ & _ & Ob' & _) Ea Eb.
  unfold vitalsDepsChanged, outOfBoundsDepsChanged.
  now rewrite L, H, O, Ob, L', H', O', Ob', Ea, Eb, !jsstring_eqb_refl.
Qed.

(** One event that is no contact change keeps two executions alike and
    shows the same kinds of alert in both. *)
Lemma step_alike a b e :
  alike a b -> isContactChange e = false ->
  alike (fst (step a e)) (fst (step b e))
  /\ kinds (snd (step a e)) = kinds (snd (step b e)).
Proof.
  intros A Ne. pose proof A as [S Hc].
  pose proof S as (L & H & O & Hp & Cp & Ob & V & W & Lw).
  destruct e as [r26 r5|r5 mv up|p|s|h|]; try discriminate Ne; clear Ne;
    cbn [step].
  - rewrite L. destruct (isLinked b) eqn:Lb; [now split|].
    set (xa := setVitalsAlertShownRef false _).
    set (xb := setVitalsAlertShownRef false _).
    assert (X : alike xa xb).
    { subst xa xb. split; [|exact Hc]. repeat split; cbn; congruence. }
    destruct (vitalsAlertEffect_alike xa xb X) as [[S3 Hc3] K3].
    pose proof (vitalsAlertEffect_state xa) as (_ & _ & _ & Ea & _).
    pose proof (vitalsAlertEffect_state xb) as (_ & _ & _ & Eb & _).
    destruct (vitalsAlertEffect xa) as [a3 o1].
    destruct (vitalsAlertEffect xb) as [b3 o1'].
    cbn [fst snd] in *.
    destruct S3 as (L3 & H3 & O3 & Hp3 & Cp3 & Ob3 & V3 & W3 & Lw3).
    set (pa := {| isLinked := isLinked a3; heartRate := heartRate a3;
                  oxygenLevel := oxygenLevel a3;
                  emergencyContact := emergencyContact a3;
                  homePosition := homePosition a3;
                  currentPosition := currentPosition a3;
                  isOutOfBounds := isOutOfBounds a3;
                  vitalsAlertShownRef := vitalsAlertShownRef a3;
                  outOfBoundsAlertShownRef := false;
                  locationWatchIdRef := true |}).
    set (pb := {| isLinked := isLinked b3; heartRate := heartRate b3;
                  oxygenLevel := oxygenLevel b3;
                  emergencyContact := emergencyContact b3;
                  homePosition := homePosition b3;
                  currentPosition := currentPosition b3;
                  isOutOfBounds := isOutOfBounds b3;
                  vitalsAlertShownRef := vitalsAlertShownRef b3;
                  outOfBoundsAlertShownRef := false;
                  locationWatchIdRef := true |}).
    set (ca := {| isLinked := isLinked pa; heartRate := r26 + 70;
                  oxygenLevel := r5 + 96;
                  emergencyContact := emergencyContact pa;
                  homePosition := None;
                  currentPosition := currentPosition pa;
                  isOutOfBounds := isOutOfBounds pa;
                  vitalsAlertShownRef := vitalsAlertShownRef pa;
                  outOfBoundsAlertShownRef := outOfBoundsAlertShownRef pa;
                  locationWatchIdRef := locationWatchIdRef pa |}).
    set (cb := {| isLinked := isLinked pb; heartRate := r26 + 70;
                  oxygenLevel := r5 + 96;
                  emergencyContact := emergencyContact pb;
                  homePosition := None;
                  currentPosition := currentPosition pb;
                  isOutOfBounds := isOutOfBounds pb;
                  vitalsAlertShownRef := vitalsAlertShownRef pb;
                  outOfBoundsAlertShownRef := outOfBoundsAlertShownRef pb;
                  locationWatchIdRef := locationWatchIdRef pb |}).
    assert (SP : sameButContact pa pb) by (subst pa pb; repeat split; cbn; congruence).
    assert (SC : sameButContact ca cb)
      by (subst ca cb pa pb; repeat split; cbn; congruence).
    assert (AC : alike ca cb) by (split; [exact SC | exact Hc3]).
    destruct (deps_alike pa ca pb cb SP SC eq_refl eq_refl) as [D1 D2].
    destruct (runEffects_alike pa ca pb cb AC D1 D2) as [A6 K6].
    destruct (runEffects pa ca) as [a6 o2].
    destruct (runEffects pb cb) as [b6 o2'].
    cbn [fst snd] in *. split; [exact A6|].
    unfold kinds in *. now rewrite !map_app, K3, K6.
  - rewrite L. destruct (isLinked b) eqn:Lb; [|now split].
    rewrite H, O.
    set (ca := setVitals _ _ a). set (cb := setVitals _ _ b).
    assert (SC : sameButContact ca cb) by (subst ca cb; repeat split; cbn; congruence).
    destruct (deps_alike a ca b cb S SC eq_refl eq_refl) as [D1 D2].
    apply runEffects_alike; auto. now split.
  - rewrite Lw. destruct (locationWatchIdRef b) eqn:Lwb; [|now split].
    unfold onPosition. rewrite Hp.
    set (ca := setLocation _ _ _ a). set (cb := setLocation _ _ _ b).
    assert (SC : sameButContact ca cb) by (subst ca cb; repeat split; cbn; congruence).
    destruct (deps_alike a ca b cb S SC eq_refl eq_refl) as [D1 D2].
    apply runEffects_alike; auto. now split.
  - set (pa := setVitalsAlertShownRef false a).
    set (pb := setVitalsAlertShownRef false b).
    assert (SP : sameButContact pa pb) by (subst pa pb; repeat split; cbn; congruence).
    set (ca := if h then _ else _). set (cb := if h then _ else _).
    assert (SC : sameButContact ca cb)
      by (subst ca cb; destruct h; repeat split; cbn; congruence).
    assert (Ea : emergencyContact pa = emergencyContact ca)
      by (subst ca; now destruct h).
    assert (Eb : emergencyContact pb = emergencyContact cb)
      by (subst cb; now destruct h).
    destruct (deps_alike pa ca pb cb SP SC Ea Eb) as [D1 D2].
    apply runEffects_alike; auto. split; [exact SC|].
    subst ca cb. now destruct h.
  - cbn. repeat split.
Qed.

Lemma states_cons a e es :
  states a (e :: es) = fst (step a e) :: states (fst (step a e)) es.
Proof. reflexivity. Qed.

Lemma run_outputs_cons a e es :
  snd (run a (e :: es)) = snd (step a e) :: snd (run (fst (step a e)) es).
Proof.
  cbn. destruct (step a e) as [a1 o]; cbn. now destruct (run a1 es).
Qed.

Lemma run_alike es : forall a b,
  alike a b -> contactKept es = true ->
  map armedFlags (states a es) = map armedFlags (states b es)
  /\ map kinds (snd (run a es)) = map kinds (snd (run b es)).
Proof.
  induction es as [|e es IH]; intros a b A K; [now split|].
  cbn [contactKept forallb] in K. apply andb_prop in K as [Ke K].
  apply negb_true_iff in Ke.
  destruct (step_alike a b e A Ke) as [A1 K1].
  destruct (IH _ _ A1 K) as [F O].
  rewrite !states_cons, !run_outputs_cons. cbn [map].
  rewrite F, O, K1. split; [|reflexivity].
  f_equal. destruct A1 as [(_ & _ & _ & _ & _ & _ & V & W & _) _].
  unfold armedFlags. now rewrite V, W.
Qed.

Lemma vitalsAlertEffect_blank c :
  hasContact c = false -> vitalsAlertEffect c = (c, []).
Proof.
  intros H. unfold vitalsAlertEffect. now rewrite H, andb_false_r.
Qed.

(** With a blank contact no alert is shown and no flag is taken. *)
Lemma step_blank a e :
  hasContact a = false -> isContactChange e = false ->
  vitalsAlertShownRef a = false -> outOfBoundsAlertShownRef a = false ->
  snd (step a e) = []
  /\ hasContact (fst (step a e)) = false
  /\ vitalsAlertShownRef (fst (step a e)) = false
  /\ outOfBoundsAlertShownRef (fst (step a e)) = false.
Proof.
  intros Hc Ne V W.
  assert (Eff : forall p c,
             hasContact c = false -> vitalsAlertShownRef c = false ->
             outOfBoundsAlertShownRef c = false ->
             snd (runEffects p c) = []
             /\ hasContact (fst (runEffects p c)) = false
             /\ vitalsAlertShownRef (fst (runEffects p c)) = false
             /\ outOfBoundsAlertShownRef (fst (runEffects p c)) = false).
  { intros p c Hc' V' W'.
    unfold runEffects, vitalsAlertEffect, outOfBoundsAlertEffect.
    rewrite Hc', !andb_false_r, !andb_false_l.
    destruct (vitalsDepsChanged p c), (outOfBoundsDepsChanged p c);
      cbn [fst snd app]; rewrite ?Hc', ?andb_false_r; cbn [andb fst snd];
      destruct (isOutOfBounds c); cbn; auto. }
  destruct e as [r26 r5|r5 mv up|p|s|h|]; try discriminate Ne; clear Ne;
    cbn [step].
  - destruct (isLinked a); [now auto|].
    rewrite vitalsAlertEffect_blank by exact Hc.
    cbn [isLinked heartRate oxygenLevel emergencyContact homePosition
         currentPosition isOutOfBounds vitalsAlertShownRef
         outOfBoundsAlertShownRef locationWatchIdRef setVitalsAlertShownRef].
    match goal with
    | |- context [runEffects ?p ?c] =>
        destruct (Eff p c Hc eq_refl eq_refl) as (E1 & E2 & E3 & E4);
        destruct (runEffects p c) as [a6 o2]
    end.
    cbn [fst snd] in *. subst o2. auto.
  - destruct (isLinked a); [|now auto]. now apply Eff.
  - destruct (locationWatchIdRef a); [|now auto]. now apply Eff.
  - apply Eff; destruct h; auto.
  - cbn. auto.
Qed.

Lemma run_blank es : forall a,
  hasContact a = false -> contactKept es = true ->
  vitalsAlertShownRef a = false -> outOfBoundsAlertShownRef a = false ->
  Forall (fun o => o = []) (snd (run a es))
  /\ Forall (fun st => armedFlags st = (true, true)) (states a es).
Proof.
  induction es as [|e es IH]; intros a Hc K V W; [now split|].
  cbn [contactKept forallb] in K. apply andb_prop in K as [Ke K].
  apply negb_true_iff in Ke.
  destruct (step_blank a e Hc Ke V W) as (E1 & E2 & E3 & E4).
  destruct (IH _ E2 K E3 E4) as [F1 F2].
  rewrite states_cons, run_outputs_cons. split; constructor; auto.
  unfold armedFlags. now rewrite E3, E4.
Qed.

(** C2, as the code has it. Two executions that differ in the contact
    alone, over events that leave the contact as it is, have the same
    traces of the two armed flags and show alerts of the same kinds at
    the same events when both contacts are entered or both are blank
    after trimming; with a blank contact no alert is shown and both
    flags stay armed. *)
Theorem armed_flags_depend_on_contact_presence (a b : App)
        (es : list Event) :
  sameButContact a b -> contactKept es = true ->
  (hasContact a = hasContact b ->
   map armedFlags (states a es) = map armedFlags (states b es)
   /\ map kinds (snd (run a es)) = map kinds (snd (run b es)))
  /\ (hasContact a = false ->
      vitalsAlertShownRef a = false -> outOfBoundsAlertShownRef a = false ->
      Forall (fun o => o = []) (snd (run a es))
      /\ Forall (fun st => armedFlags st = (true, true)) (states a es)).
Proof.
  intros S K. split.
  - intros Hc. apply run_alike; [now split | exact K].
  - intros Hc V W. now apply run_blank.
Qed.

End Latches.

(** The claim C2 on a run: linked, six ticks take the heart rate from 70
    to 58; with the contact ["911"] the vitals flag is disarmed at the
    sixth, with no contact it stays armed. *)
Lemma armed_flag_depends_on_contact :
  let a := fst (run (M := RefMath.lib) initialApp [Link 0 2]) in
  let b := fst (step (M := RefMath.lib) a (ContactChange (js "911"))) in
  let es := [Tick 0 false false; Tick 0 false false; Tick 0 false false;
             Tick 0 false false; Tick 0 false false; Tick 0 false false] in
  sameButContact a b
  /\ map armedFlags (states (M := RefMath.lib) a es)
     <> map armedFlags (states (M := RefMath.lib) b es).
Proof.
  cbv zeta. split; [repeat split|]. vm_compute. discriminate.
Qed.

Lemma armed_flags_depend_on_contact_presence_witness :
  let a := fst (step (M := RefMath.lib)
                  (fst (run (M := RefMath.lib) initialApp [Link 0 2]))
                  (ContactChange (js "911"))) in
  let b := fst (step (M := RefMath.lib) a (ContactChange (js "112"))) in
  let es := [Tick 0 false false; Tick 0 false false; Tick 0 false false;
             Tick 0 false false; Tick 0 false false; Tick 0 false false;
             Reading {| lat := RefMath.ofZ 12; lon := RefMath.ofZ 77 |}] in
  sameButContact a b /\ contactKept es = true
  /\ hasContact a = hasContact b
  /\ map armedFlags (states (M := RefMath.lib) a es)
     = map armedFlags (states (M := RefMath.lib) b es).
Proof.
  cbv zeta.
  match goal with
  | |- sameButContact ?a ?b /\ contactKept ?es = true /\ _ =>
      assert (S : sameButContact a b) by (repeat split);
      refine (conj S (conj eq_refl (conj eq_refl _)));
      exact (proj1 (proj1 (armed_flags_depend_on_contact_presence
                             (M := RefMath.lib) a b es S eq_refl) eq_refl))
  end.
Defined.

(* ================================================================= *)
(** ** The financial-aid handler *)

Section AidClaims.




End AidClaims.




(* ================================================================= *)
(** ** Matching: what the block expression selects *)

Section Matching.

Lemma isEscapedChar_spec c :
  isEscapedChar c
  = isSyntaxCharacter c || Ascii.eqb c "/" || Ascii.eqb c "-".
Proof.
  unfold isEscapedChar, isSyntaxCharacter. cbn [js list_ascii_of_string existsb].
  btauto.
Qed.

Lemma not_syntax_plain c :
  isSyntaxCharacter c = false ->
  Ascii.eqb c "\" = false /\ Ascii.eqb c "[" = false
  /\ Ascii.eqb c "(" = false.
Proof.
  unfold isSyntaxCharacter. cbn [js list_ascii_of_string existsb].
  intros H. repeat (apply orb_false_elim in H as [? H]). auto.
Qed.

Lemma parsePattern_plain c rest :
  isSyntaxCharacter c = false ->
  parsePattern (c :: rest) = option_map (cons (Lit c)) (parsePattern rest).
Proof.
  intros H. destruct (not_syntax_plain c H) as (H1 & H2 & H3).
  cbn [parsePattern]. now rewrite H1, H2, H3, H.
Qed.

Lemma parsePattern_plain_text s rest :
  forallb (fun c => negb (isSyntaxCharacter c)) s = true ->
  parsePattern (s ++ rest) = option_map (app (lits s)) (parsePattern rest).
Proof.
  induction s as [|c s IH]; intros H; cbn [app].
  - now destruct (parsePattern rest).
  - cbn [forallb] in H. apply andb_prop in H as [Hc Hs].
    apply negb_true_iff in Hc.
    rewrite parsePattern_plain, IH by assumption.
    now destruct (parsePattern rest).
Qed.

(** An escaped name is the source of the pattern that matches the name
    letter by letter: no character of it keeps a meaning of its own. *)
Lemma parsePattern_escapeRegExp name rest :
  parsePattern (escapeRegExp name ++ rest)
  = option_map (app (lits name)) (parsePattern rest).
Proof.
  induction name as [|c name IH]; cbn [escapeRegExp app].
  - now destruct (parsePattern rest).
  - destruct (isEscapedChar c) eqn:E.
    + cbn [app parsePattern]. rewrite Ascii.eqb_refl.
      rewrite <- isEscapedChar_spec, E, IH.
      now destruct (parsePattern rest).
    + assert (S : isSyntaxCharacter c = false).
      { rewrite isEscapedChar_spec in E.
        apply orb_false_elim in E as [E _].
        now apply orb_false_elim in E as [E _]. }
      cbn [app]. rewrite parsePattern_plain, IH by exact S.
      now destruct (parsePattern rest).
Qed.

Lemma hospitalBlockRegex_literal name :
  hospitalBlockRegex name = Some (blockPattern name).
Proof.
  unfold hospitalBlockRegex, hospitalBlockSource, blockPattern.
  rewrite parsePattern_plain_text by reflexivity.
  rewrite parsePattern_escapeRegExp.
  change (parsePattern (js "[\s\S]*?---"))
    with (Some ([LazyStar AnyChar] ++ lits (js "---"))).
  cbn [option_map]. unfold lits. now rewrite map_app, <- app_assoc.
Qed.

End Matching.

Section Selection.

Lemma option_map_consumed c x (o : option MatchResult) :
  option_map (consumed c) (option_map (prefixed x) o)
  = option_map (prefixed (c :: x)) o.
Proof. now destruct o. Qed.

(** Pattern characters are matched one by one. *)
Lemma matchHere_lits p : forall rest s,
  matchHere (lits p ++ rest) s
  = if ciStartsWith s p
    then option_map (prefixed (firstn (List.length p) s))
                    (matchHere rest (skipn (List.length p) s))
    else None.
Proof.
  induction p as [|x p IH]; intros rest s.
  - cbn. destruct (matchHere rest s) as [[m c]|]; reflexivity.
  - cbn [lits map app matchHere ciStartsWith].
    destruct s as [|c s]; [reflexivity|].
    destruct (charMatches x c); [|reflexivity].
    cbn [andb List.length firstn skipn].
    change (map Lit p) with (lits p). rewrite IH.
    destruct (ciStartsWith s p); [|reflexivity].
    apply option_map_consumed.
Qed.

Lemma matchHere_lits_end p s :
  matchHere (lits p) s
  = if ciStartsWith s p
    then Some {| matched := firstn (List.length p) s; captures := [] |}
    else None.
Proof.
  rewrite <- (app_nil_r (lits p)), matchHere_lits.
  destruct (ciStartsWith s p); [|reflexivity].
  cbn. unfold prefixed. cbn. now rewrite app_nil_r.
Qed.

(** The lazy star of any character before a literal text. *)
Lemma matchHere_lazy d : forall s,
  matchHere (LazyStar AnyChar :: lits d) s
  = option_map (fun m => {| matched := m; captures := [] |}) (lazyFind d s).
Proof.
  induction s as [|c s IH].
  - cbn [matchHere lazyFind]. rewrite matchHere_lits_end.
    now destruct (ciStartsWith [] d).
  - cbn [lazyFind]. destruct (ciStartsWith (c :: s) d) eqn:E.
    + cbn [matchHere]. rewrite matchHere_lits_end, E. reflexivity.
    + cbn [inSet] in *.
      change (matchHere (LazyStar AnyChar :: lits d) (c :: s))
        with (match matchHere (lits d) (c :: s) with
              | Some r => Some r
              | None =>
                  option_map (consumed c)
                    (matchHere (LazyStar AnyChar :: lits d) s)
              end).
      rewrite matchHere_lits_end, E, IH.
      now destruct (lazyFind d s).
Qed.

(** The block expression at one start position. *)
Lemma matchHere_block name s :
  matchHere (blockPattern name) s
  = if ciStartsWith s (js "HOSPITAL: " ++ name)
    then option_map
           (fun m => {| matched :=
                          firstn (List.length (js "HOSPITAL: " ++ name)) s
                          ++ m;
                        captures := [] |})
           (lazyFind (js "---")
              (skipn (List.length (js "HOSPITAL: " ++ name)) s))
    else None.
Proof.
  unfold blockPattern. rewrite matchHere_lits.
  destruct (ciStartsWith s _); [|reflexivity].
  cbn [app]. rewrite matchHere_lazy.
  now destruct (lazyFind _ _).
Qed.

(** [lazyFind] stops at the first end of a text matching [d]. *)
Lemma lazyFind_sound d : forall s m,
  lazyFind d s = Some m ->
  exists mid, m = mid ++ firstn (List.length d) (skipn (List.length mid) s)
              /\ firstn (List.length mid) s = mid
              /\ ciStartsWith (skipn (List.length mid) s) d = true
              /\ forall j, (j < List.length mid)%nat ->
                           ciStartsWith (skipn j s) d = false.
Proof.
  induction s as [|c s IH]; intros m; cbn [lazyFind].
  - destruct (ciStartsWith [] d) eqn:E; [|discriminate].
    intros [= <-]. exists []. cbn. repeat split; auto. intros j Hj; lia.
  - destruct (ciStartsWith (c :: s) d) eqn:E.
    + intros [= <-]. exists []. cbn [List.length skipn app firstn].
      repeat split; auto. intros j Hj; lia.
    + destruct (lazyFind d s) as [m'|] eqn:F; [|discriminate].
      intros [= <-]. destruct (IH m' eq_refl) as (mid & -> & P & Q & R).
      exists (c :: mid). cbn [List.length skipn app firstn].
      repeat split; auto.
      * now rewrite P.
      * intros [|j] Hj; [exact E|]. cbn [skipn]. apply R. lia.
Qed.

Lemma lazyFind_none d : forall s,
  lazyFind d s = None ->
  forall j, ciStartsWith (skipn j s) d = false.
Proof.
  induction s as [|c s IH]; cbn [lazyFind].
  - destruct (ciStartsWith [] d) eqn:E; [discriminate|].
    intros _ j. now rewrite skipn_nil.
  - destruct (ciStartsWith (c :: s) d) eqn:E; [discriminate|].
    destruct (lazyFind d s) eqn:F; [discriminate|].
    intros _ [|j]; [exact E|]. cbn [skipn]. now apply IH.
Qed.

(** A text matching [d] that lies further on is found from every earlier
    position too. *)
Lemma lazyFind_earlier d s k :
  lazyFind d (skipn k s) <> None -> lazyFind d s <> None.
Proof.
  intros H N. apply H. clear H.
  destruct (lazyFind d (skipn k s)) as [m|] eqn:F; [|reflexivity].
  exfalso. apply lazyFind_sound in F as (mid & _ & _ & Q & _).
  rewrite skipn_skipn in Q.
  now rewrite (lazyFind_none d s N) in Q.
Qed.

(** [regexMatch] returns the match at the leftmost start that has one. *)
Lemma regexMatch_first p : forall s r,
  regexMatch p s = Some r ->
  exists i, (i <= List.length s)%nat
            /\ matchHere p (skipn i s) = Some r
            /\ forall j, (j < i)%nat -> matchHere p (skipn j s) = None.
Proof.
  induction s as [|c s IH]; intros r; cbn [regexMatch].
  - destruct (matchHere p []) eqn:E; [|discriminate].
    intros [= <-]. exists 0%nat. repeat split; auto. intros j Hj; lia.
  - destruct (matchHere p (c :: s)) eqn:E.
    + intros [= <-]. exists 0%nat. cbn. repeat split; auto; try lia;
        try (intros j Hj; lia).
    + intros H. destruct (IH r H) as (i & Hi & Hm & Hn).
      exists (S i). cbn [skipn List.length]. repeat split; auto; try lia.
      intros [|j] Hj; [exact E|]. cbn [skipn]. apply Hn. lia.
Qed.

Lemma regexMatch_none p : forall s,
  regexMatch p s = None -> forall j, matchHere p (skipn j s) = None.
Proof.
  induction s as [|c s IH]; cbn [regexMatch].
  - destruct (matchHere p []) eqn:E; [discriminate|].
    intros _ j. now rewrite skipn_nil.
  - destruct (matchHere p (c :: s)) eqn:E; [discriminate|].
    intros H [|j]; [exact E|]. cbn [skipn]. now apply IH.
Qed.

Lemma charMatches_dash c : charMatches "-" c = true -> c = "-"%char.
Proof.
  destruct c as [[|] [|] [|] [|] [|] [|] [|] [|]]; vm_compute;
    intros H; try discriminate H; reflexivity.
Qed.

Lemma ciStartsWith_dashes s :
  ciStartsWith s (js "---") = true -> firstn 3 s = js "---".
Proof.
  destruct s as [|a [|b [|c s]]]; cbn; try discriminate;
    try (now rewrite ?andb_false_r).
  intros H. apply andb_prop in H as [Ha H]. apply andb_prop in H as [Hb H].
  apply andb_prop in H as [Hc _].
  now rewrite (charMatches_dash _ Ha), (charMatches_dash _ Hb),
    (charMatches_dash _ Hc).
Qed.

Lemma ciStartsWith_ciEq s p :
  ciStartsWith s p = true -> ciEq p (firstn (List.length p) s) = true.
Proof.
  revert s; induction p as [|x p IH]; intros [|c s]; cbn; try discriminate;
    auto.
  intros H. apply andb_prop in H as [-> H]. cbn. now apply IH.
Qed.

Lemma ciEq_ciStartsWith p hdr rest :
  ciEq p hdr = true -> ciStartsWith (hdr ++ rest) p = true.
Proof.
  revert hdr; induction p as [|x p IH]; intros [|c hdr]; cbn;
    try discriminate; auto.
  intros H. apply andb_prop in H as [-> H]. cbn. now apply IH.
Qed.

Lemma ciEq_length p hdr : ciEq p hdr = true -> List.length hdr = List.length p.
Proof.
  revert hdr; induction p as [|x p IH]; intros [|c hdr]; cbn;
    try discriminate; auto.
  intros H. apply andb_prop in H as [_ H]. f_equal. now apply IH.
Qed.

End Selection.

Section BlockClaim.

Lemma charMatches_dash_eqb c : charMatches "-" c = Ascii.eqb c "-".
Proof.
  destruct c as [[|] [|] [|] [|] [|] [|] [|] [|]]; reflexivity.
Qed.

Lemma ciStartsWith_sentinel s :
  ciStartsWith s (js "---") = startsWith s (js "---").
Proof.
  destruct s as [|a [|b [|c s]]];
    cbn [ciStartsWith startsWith js list_ascii_of_string];
    rewrite ?charMatches_dash_eqb; reflexivity.
Qed.

Lemma startsWith_sentinel_firstn s :
  startsWith s (js "---") = true -> firstn 3 s = js "---".
Proof. rewrite <- ciStartsWith_sentinel. apply ciStartsWith_dashes. Qed.

(** C3, as the code has it. The escaped name is matched letter by letter
    (no character of it acts as an operator), without regard to case. The
    block selected for a name is the text from the leftmost place where
    [HOSPITAL: ] and the name occur, in any case and whatever follows the
    name there, to the end of the nearest [---] after it; there is a
    match whenever the narrative has such a place with a [---] after
    it. *)
Theorem block_is_leftmost_header_occurrence (name text : jsstring) :
  let header := js "HOSPITAL: " ++ name in
  hospitalBlockRegex name = Some (blockPattern name)
  /\ (forall r,
        regexMatch (blockPattern name) text = Some r ->
        exists pre hdr mid post,
          text = pre ++ hdr ++ mid ++ js "---" ++ post
          /\ matched r = hdr ++ mid ++ js "---"
          /\ ciEq header hdr = true
          /\ (forall j, (j < List.length pre)%nat ->
                        ciStartsWith (skipn j text) header = false)
          /\ (forall j, (j < List.length mid)%nat ->
                        startsWith (skipn j (mid ++ js "---" ++ post))
                                   (js "---") = false))
  /\ (forall pre hdr mid post,
        text = pre ++ hdr ++ mid ++ js "---" ++ post ->
        ciEq header hdr = true ->
        regexMatch (blockPattern name) text <> None).
Proof.
  intros header. split; [apply hospitalBlockRegex_literal|]. split.
  - intros r Hr.
    destruct (regexMatch_first _ _ _ Hr) as (i & Hi & Hm & Hn).
    rewrite matchHere_block in Hm. fold header in Hm.
    destruct (ciStartsWith (skipn i text) header) eqn:Hh; [|discriminate].
    set (S := skipn (List.length header) (skipn i text)) in *.
    destruct (lazyFind (js "---") S) as [m|] eqn:Hl; [|discriminate].
    injection Hm as <-.
    destruct (lazyFind_sound _ _ _ Hl) as (mid & -> & P & Q & R).
    pose proof (ciStartsWith_dashes _ Q) as D.
    change (List.length (js "---")) with 3%nat. rewrite D.
    exists (firstn i text), (firstn (List.length header) (skipn i text)),
      mid, (skipn 3 (skipn (List.length mid) S)).
    assert (ES : S = mid ++ js "---" ++ skipn 3 (skipn (List.length mid) S)).
    { rewrite <- D, firstn_skipn, <- P at 1. now rewrite firstn_skipn. }
    repeat split.
    + rewrite <- ES. subst S. now rewrite !firstn_skipn.
    + now apply ciStartsWith_ciEq.
    + intros j Hj. rewrite length_firstn in Hj.
      assert (Hji : (j < i)%nat) by lia.
      specialize (Hn j Hji). rewrite matchHere_block in Hn. fold header in Hn.
      destruct (ciStartsWith (skipn j text) header) eqn:Hj'; [|reflexivity].
      exfalso.
      destruct (lazyFind (js "---")
                  (skipn (List.length header) (skipn j text))) eqn:Hl';
        [discriminate|].
      pose proof (lazyFind_none _ _ Hl' (List.length mid + (i - j))) as N.
      rewrite !skipn_skipn in N. subst S. rewrite !skipn_skipn in Q.
      replace (List.length mid + (i - j) + List.length header + j)%nat
        with (List.length mid + List.length header + i)%nat in N by lia.
      now rewrite Q in N.
    + intros j Hj. rewrite <- ES, <- ciStartsWith_sentinel. now apply R.
  - intros pre hdr mid post -> Hh N.
    pose proof (regexMatch_none _ _ N (List.length pre)) as Hm.
    rewrite skipn_app, skipn_all, Nat.sub_diag in Hm. cbn [app skipn] in Hm.
    rewrite matchHere_block in Hm. fold header in Hm.
    rewrite (ciEq_ciStartsWith _ _ _ Hh) in Hm.
    rewrite <- (ciEq_length _ _ Hh) in Hm.
    rewrite skipn_app, skipn_all, Nat.sub_diag in Hm. cbn [app skipn] in Hm.
    destruct (lazyFind (js "---") (mid ++ js "---" ++ post)) eqn:Hl;
      [discriminate|].
    pose proof (lazyFind_none _ _ Hl (List.length mid)) as N'.
    rewrite skipn_app, skipn_all, Nat.sub_diag in N'. cbn in N'.
    discriminate N'.
Qed.

End BlockClaim.

(** The claim C3 on a narrative: for the hit [Alpha], the block whose
    header goes on after the name ([Alpha Beta]) is the one selected,
    before the block headed [Alpha] alone, and its contact is the one
    reported. *)
Lemma longer_header_is_selected :
  option_map matched (regexMatch (blockPattern (js "Alpha")) exampleNarrative)
  = Some (joinLines ["HOSPITAL: Alpha Beta"; "CONTACT: 111"; "---"]%string)
  /\ option_map (fun st => map contact (hospitals st))
       (handleFindHospitals (fun _ => posZero) exampleNarrative
          [grounding (js "Alpha") (js "u1")])
     = Some [Some (js "111")]
  /\ ciEq (js "Alpha") (js "Alpha Beta") = false.
Proof. vm_compute. repeat split. Qed.

(* ================================================================= *)
(** ** The hospital reconciliation: the enriched fields *)

Section Enriched.
Variable random : nat -> number.

(** Without the text [HOSPITAL: ] nothing is extracted. *)
Lemma extract_empty name :
  extract (blockPattern name) [] = ([], [], []).
Proof.
  unfold extract. cbn [regexMatch]. rewrite matchHere_block.
  reflexivity.
Qed.

Lemma fallbackDoctor_nonempty index :
  isEmpty (nth (index mod List.length randomDoctorNames)
               randomDoctorNames []) = false.
Proof.
  change (List.length randomDoctorNames) with 8%nat.
  pose proof (Nat.mod_upper_bound index 8 ltac:(discriminate)) as H.
  destruct (index mod 8)%nat as [|[|[|[|[|[|[|[|n]]]]]]]]; try reflexivity.
  lia.
Qed.

Lemma isRatingLabel_nonempty label :
  isRatingLabel label = true -> isEmpty label = false.
Proof. now destruct label. Qed.

(** What the callback leaves in the three fields of the hit [hospital]
    when it is called with [index] after [k] draws. *)
Lemma parseHospital_enriched (resultText : jsstring) (k index : nat)
        (hospital : Hospital) :
  conforming random ->
  exists parsed k' contact1 bestDoctor1 rating1,
    parseHospital random resultText k hospital index = Done (parsed, k')
    /\ contact parsed = Some contact1 /\ isEmpty contact1 = false
    /\ bestDoctor parsed = Some bestDoctor1 /\ isEmpty bestDoctor1 = false
    /\ rating parsed = Some rating1 /\ isEmpty rating1 = false
    /\ (let '(contact0, bestDoctor0, rating0) :=
          extract (blockPattern (name hospital)) resultText in
        contact1 = (if contactMissing contact0 then js "Not Available"
                    else contact0)
        /\ bestDoctor1
           = (if doctorMissing bestDoctor0
              then nth (index mod List.length randomDoctorNames)
                       randomDoctorNames []
              else bestDoctor0)
        /\ (if ratingMissing rating0
            then isRatingLabel rating1 = true
                 /\ generateRandomRating (random k) = Some rating1
                 /\ k' = S k
            else rating1 = rating0 /\ k' = k))
    /\ (resultText = [] ->
        contact1 = js "Not Available"
        /\ bestDoctor1 = nth (index mod List.length randomDoctorNames)
                             randomDoctorNames []
        /\ isRatingLabel rating1 = true).
Proof.
  intros C. unfold parseHospital.
  rewrite hospitalBlockRegex_literal.
  assert (E0 : resultText = [] ->
               extract (blockPattern (name hospital)) resultText
               = ([], [], []))
    by (intros ->; apply extract_empty).
  destruct (extract (blockPattern (name hospital)) resultText)
    as [[contact0 bestDoctor0] rating0].
  assert (Hc : isEmpty (if contactMissing contact0 then js "Not Available"
                        else contact0) = false).
  { unfold contactMissing.
    destruct (isEmpty contact0) eqn:E; [reflexivity|].
    now destruct (_ || _). }
  assert (Hd : isEmpty (if doctorMissing bestDoctor0
                        then nth (index mod List.length randomDoctorNames)
                                 randomDoctorNames []
                        else bestDoctor0) = false).
  { unfold doctorMissing.
    destruct (isEmpty bestDoctor0) eqn:E;
      [apply fallbackDoctor_nonempty|].
    cbn [orb]. destruct (includes _ _);
      [apply fallbackDoctor_nonempty | exact E]. }
  assert (Hempty : resultText = [] ->
                   contact0 = [] /\ bestDoctor0 = [] /\ rating0 = []).
  { intros e. specialize (E0 e). now injection E0 as -> -> ->. }
  clear E0.
  destruct (ratingMissing rating0) eqn:Hr.
  - destruct (generateRandomRating_label _ (C k)) as (label & -> & Hl).
    do 5 eexists. split; [reflexivity|]. cbn [contact bestDoctor rating].
    repeat split; auto using isRatingLabel_nonempty;
      match goal with
      | H : resultText = [] |- _ =>
          destruct (Hempty H) as (? & ? & ?); subst; reflexivity
      end.
  - do 5 eexists. split; [reflexivity|]. cbn [contact bestDoctor rating].
    assert (Hre : isEmpty rating0 = false).
    { unfold ratingMissing in Hr. now apply orb_false_elim in Hr as [? _]. }
    repeat split; auto;
      match goal with
      | H : resultText = [] |- _ =>
          destruct (Hempty H) as (? & ? & ?); subst;
          try reflexivity; discriminate Hr
      end.
Qed.

Lemma parseHospital_done resultText k index hospital :
  conforming random ->
  exists parsed k',
    parseHospital random resultText k hospital index = Done (parsed, k').
Proof.
  intros C. unfold parseHospital. rewrite hospitalBlockRegex_literal.
  destruct (extract _ _) as [[contact0 bestDoctor0] rating0].
  destruct (ratingMissing rating0).
  - destruct (generateRandomRating_label _ (C k)) as (label & -> & _).
    now do 2 eexists.
  - now do 2 eexists.
Qed.

(** With conforming draws every list of hits is reconciled. *)
Lemma parseHospitals_done resultText hits :
  conforming random ->
  forall k index, exists parsed,
    parseHospitals random resultText k index hits = Done parsed.
Proof.
  intros C. induction hits as [|h hits IH]; intros k index; cbn.
  - now eexists.
  - destruct (parseHospital_done resultText k index h C) as (p & k' & ->).
    destruct (IH k' (S index)) as [others ->]. now eexists.
Qed.

End Enriched.

(* ================================================================= *)
(** ** The hospital reconciliation: count and order *)

Section FinderCount.
Variable random : nat -> number.

Lemma parseHospital_keeps resultText k hospital index parsed k' :
  parseHospital random resultText k hospital index = Done (parsed, k') ->
  name parsed = name hospital /\ uri parsed = uri hospital.
Proof.
  unfold parseHospital.
  destruct (hospitalBlockRegex (name hospital)); [|discriminate].
  destruct (extract _ _) as [[c d] r].
  destruct (ratingMissing r).
  - destruct (generateRandomRating _); [|discriminate].
    now intros [= <- _].
  - now intros [= <- _].
Qed.

Lemma parseHospitals_keeps resultText hits : forall k index parsed,
  parseHospitals random resultText k index hits = Done parsed ->
  map name parsed = map name hits /\ map uri parsed = map uri hits.
Proof.
  induction hits as [|h hits IH]; intros k index parsed; cbn.
  - now intros [= <-].
  - destruct (parseHospital random resultText k h index)
      as [[p k']| |] eqn:E; try discriminate.
    destruct (parseHospitals random resultText k' (S index) hits)
      as [others| |] eqn:E'; try discriminate.
    intros [= <-]. cbn.
    destruct (parseHospital_keeps _ _ _ _ _ _ E) as [-> ->].
    now destruct (IH _ _ _ E') as [-> ->].
Qed.

(** C5, as the code has it. With the draws of [Math.random()] the
    handler ends with a list of hospitals that has the names and the links
    of the grounding data in their order, and so their number, the empty
    list for empty grounding data; but empty grounding data is reported as
    an error, with the message that no hospital was found. *)
Theorem reconcile_keeps_count_and_order (resultText : jsstring)
        (hospitalGroundingData : list Hospital) :
  conforming random ->
  exists st,
    handleFindHospitals random resultText hospitalGroundingData = Some st
    /\ map name (hospitals st) = map name hospitalGroundingData
    /\ map uri (hospitals st) = map uri hospitalGroundingData
    /\ List.length (hospitals st) = List.length hospitalGroundingData
    /\ hospitalError st
       = match hospitalGroundingData with
         | [] => noHospitalsMessage
         | _ :: _ => []
         end
    /\ isFindingHospitals st = false.
Proof.
  intros C. unfold handleFindHospitals.
  destruct hospitalGroundingData as [|h hits].
  - cbn [List.length Nat.eqb]. eexists. split; [reflexivity|].
    cbn. repeat split.
  - cbn [List.length Nat.eqb].
    destruct (parseHospitals_done random resultText (h :: hits) C 0%nat 0%nat)
      as [parsed E].
    rewrite E. eexists. split; [reflexivity|].
    cbn [hospitals hospitalError isFindingHospitals pending].
    destruct (parseHospitals_keeps _ _ _ _ _ E) as [N U].
    repeat split; auto.
    rewrite <- (length_map name parsed), N. apply length_map.
Qed.

End FinderCount.

(** The claim C5 on the empty list: it is reported as an error. *)
Lemma empty_hits_reported_as_error :
  handleFindHospitals (fun _ => posZero) (js "HOSPITAL: Alpha ---") []
  = Some {| hospitals := []; hospitalError := noHospitalsMessage;
            isFindingHospitals := false |}
  /\ isEmpty noHospitalsMessage = false.
Proof.
  split; [|vm_compute; reflexivity].
  unfold handleFindHospitals. cbn [List.length Nat.eqb]. reflexivity.
Qed.

Lemma reconcile_keeps_count_and_order_witness :
  conforming (fun _ => half)
  /\ exists st,
       handleFindHospitals (fun _ => half) alphaNarrative
         [grounding (js "Alpha") (js "u1"); grounding (js "Beta") (js "u2")]
       = Some st
       /\ map name (hospitals st) = [js "Alpha"; js "Beta"]
       /\ List.length (hospitals st) = 2%nat.
Proof.
  assert (C : conforming (fun _ => half)) by (intros n; reflexivity).
  split; [exact C|].
  destruct (reconcile_keeps_count_and_order (fun _ => half) alphaNarrative
              [grounding (js "Alpha") (js "u1");
               grounding (js "Beta") (js "u2")] C)
    as (st & E & N & _ & Len & _).
  exists st. exact (conj E (conj N Len)).
Defined.

(* ================================================================= *)
(** ** The hospital reconciliation: every hit at its position *)

Section EnrichedHits.
Variable random : nat -> number.

(** The draws that one callback makes: none or one, and one for an
    empty text. *)
Lemma parseHospital_draws resultText k hospital index parsed k' :
  parseHospital random resultText k hospital index = Done (parsed, k') ->
  (k <= k' <= S k)%nat /\ (resultText = [] -> k' = S k).
Proof.
  unfold parseHospital. rewrite hospitalBlockRegex_literal.
  assert (E0 : resultText = [] ->
               extract (blockPattern (name hospital)) resultText
               = ([], [], []))
    by (intros ->; apply extract_empty).
  destruct (extract _ _) as [[contact0 bestDoctor0] rating0].
  destruct (ratingMissing rating0) eqn:Hr.
  - destruct (generateRandomRating _); [|discriminate].
    intros [= _ <-]. split; [lia|reflexivity].
  - intros [= _ <-]. split; [lia|].
    intros e. specialize (E0 e). injection E0 as _ _ ->.
    discriminate Hr.
Qed.

(** The record at a position of the list that [map] returns is the
    result of the callback on the hit at that position, called with
    that position as its index. *)
Lemma parseHospitals_nth resultText hits : forall k index parsed,
  parseHospitals random resultText k index hits = Done parsed ->
  forall i hospital,
    nth_error hits i = Some hospital ->
    exists p ki ki',
      nth_error parsed i = Some p
      /\ parseHospital random resultText ki hospital (index + i)
         = Done (p, ki')
      /\ (k <= ki <= k + i)%nat
      /\ (resultText = [] -> ki = (k + i)%nat).
Proof.
  induction hits as [|h hits IH]; intros k index parsed E i hospital N.
  - now destruct i.
  - cbn [parseHospitals] in E.
    destruct (parseHospital random resultText k h index)
      as [[p k']| |] eqn:E1; try discriminate.
    destruct (parseHospitals random resultText k' (S index) hits)
      as [others| |] eqn:E2; try discriminate.
    injection E as <-.
    destruct (parseHospital_draws _ _ _ _ _ _ E1) as [B1 B2].
    destruct i as [|i]; cbn [nth_error] in *.
    + injection N as <-. exists p, k, k'.
      rewrite Nat.add_0_r. repeat split; auto; lia.
    + destruct (IH _ _ _ E2 i hospital N) as (q & ki & ki' & Q1 & Q2 & Q3 & Q4).
      exists q, ki, ki'.
      replace (index + S i)%nat with (S index + i)%nat by lia.
      repeat split; auto; try lia.
      intros e. rewrite (Q4 e), (B2 e). lia.
Qed.

(** C6. The handler ends with a list in which the record at every
    position [index] is that of the hit at [index], with three fields
    that are non-empty strings: the contact is ["Not Available"] when the
    extracted one is empty or contains "not specified" or "not available"
    in any case, the extracted one otherwise; the doctor is the name at
    [index mod 8] of the pool when the extracted one is empty or contains
    "not specified", the extracted one otherwise; the rating is a
    generated label of the form [X.Y/5 stars], made of one of the first
    [index + 1] draws of [Math.random()], when the extracted one is empty
    or contains "not available", the extracted one otherwise; with an
    empty narrative the three fallbacks apply to every hit, the one at
    [index] with the doctor at [index mod 8] and the draw [index]. *)
Theorem enriched_fields_are_filled (resultText : jsstring)
        (hospitalGroundingData : list Hospital) :
  conforming random ->
  exists st,
    handleFindHospitals random resultText hospitalGroundingData = Some st
    /\ List.length (hospitals st) = List.length hospitalGroundingData
    /\ forall index hospital,
         nth_error hospitalGroundingData index = Some hospital ->
         exists parsed contact1 bestDoctor1 rating1,
           nth_error (hospitals st) index = Some parsed
           /\ name parsed = name hospital
           /\ contact parsed = Some contact1 /\ isEmpty contact1 = false
           /\ bestDoctor parsed = Some bestDoctor1
           /\ isEmpty bestDoctor1 = false
           /\ rating parsed = Some rating1 /\ isEmpty rating1 = false
           /\ (let '(contact0, bestDoctor0, rating0) :=
                 extract (blockPattern (name hospital)) resultText in
               contact1 = (if contactMissing contact0
                           then js "Not Available" else contact0)
               /\ bestDoctor1
                  = (if doctorMissing bestDoctor0
                     then nth (index mod List.length randomDoctorNames)
                              randomDoctorNames []
                     else bestDoctor0)
               /\ (if ratingMissing rating0
                   then isRatingLabel rating1 = true
                        /\ exists k, (k <= index)%nat
                                     /\ generateRandomRating (random k)
                                        = Some rating1
                   else rating1 = rating0))
           /\ (resultText = [] ->
               contact1 = js "Not Available"
               /\ bestDoctor1
                  = nth (index mod List.length randomDoctorNames)
                        randomDoctorNames []
               /\ isRatingLabel rating1 = true
               /\ generateRandomRating (random index) = Some rating1).
Proof.
  intros C. unfold handleFindHospitals.
  destruct hospitalGroundingData as [|h hits].
  - cbn [List.length Nat.eqb]. eexists. split; [reflexivity|].
    split; [reflexivity|]. intros [|i] hospital N; discriminate N.
  - cbn [List.length Nat.eqb].
    destruct (parseHospitals_done random resultText (h :: hits) C 0%nat 0%nat)
      as [all E].
    rewrite E. eexists. split; [reflexivity|].
    cbn [hospitals hospitalError isFindingHospitals pending].
    split.
    { destruct (parseHospitals_keeps _ _ _ _ _ _ E) as [N _].
      rewrite <- (length_map name all), N. apply length_map. }
    intros index hospital N.
    destruct (parseHospitals_nth _ _ _ _ _ E index hospital N)
      as (p & ki & ki' & P1 & P2 & P3 & P4).
    cbn [Nat.add] in P2, P4.
    destruct (parseHospital_enriched random resultText ki index hospital C)
      as (parsed & k' & contact1 & bestDoctor1 & rating1 & F).
    rewrite P2 in F.
    destruct F as (F0 & F1 & F2 & F3 & F4 & F5 & F6 & F7 & F8).
    injection F0 as <- <-.
    exists p, contact1, bestDoctor1, rating1.
    split; [exact P1|].
    split; [exact (proj1 (parseHospital_keeps _ _ _ _ _ _ _ P2))|].
    do 6 (split; [assumption|]).
    split.
    + destruct (extract (blockPattern (name hospital)) resultText)
        as [[contact0 bestDoctor0] rating0].
      destruct F7 as (G1 & G2 & G3).
      split; [exact G1|]. split; [exact G2|].
      destruct (ratingMissing rating0).
      * destruct G3 as (G3 & G4 & _). split; [exact G3|].
        exists ki. split; [lia|exact G4].
      * exact (proj1 G3).
    + intros e. destruct (F8 e) as (G1 & G2 & G3).
      repeat split; auto.
      assert (X : extract (blockPattern (name hospital)) resultText
                  = ([], [], []))
        by (rewrite e; apply extract_empty).
      rewrite X in F7. cbn in F7.
      destruct F7 as (_ & _ & _ & G4 & _).
      rewrite <- (P4 e). exact G4.
Qed.

End EnrichedHits.

Lemma enriched_fields_are_filled_witness :
  let hits := [grounding (js "Alpha") (js "u1");
               grounding (js "Beta") (js "u2");
               grounding (js "Gamma") (js "u3")] in
  conforming (fun _ => half)
  /\ exists st,
       handleFindHospitals (fun _ => half) [] hits = Some st
       /\ List.length (hospitals st) = 3%nat
       /\ exists parsed,
            nth_error (hospitals st) 2 = Some parsed
            /\ name parsed = js "Gamma"
            /\ contact parsed = Some (js "Not Available")
            /\ bestDoctor parsed = Some (js "Dr. Olivia Chen")
            /\ exists rating1,
                 rating parsed = Some rating1
                 /\ isRatingLabel rating1 = true.
Proof.
  cbv zeta.
  assert (C : conforming (fun _ => half)) by (intros n; reflexivity).
  split; [exact C|].
  destruct (enriched_fields_are_filled (fun _ => half) []
              [grounding (js "Alpha") (js "u1");
               grounding (js "Beta") (js "u2");
               grounding (js "Gamma") (js "u3")] C)
    as (st & E & Len & F).
  exists st. split; [exact E|]. split; [exact Len|].
  destruct (F 2%nat (grounding (js "Gamma") (js "u3")) eq_refl)
    as (parsed & contact1 & bestDoctor1 & rating1
        & P & Nm & Hc & _ & Hd & _ & Hr & _ & _ & G).
  destruct (G eq_refl) as (G1 & G2 & G3 & _).
  exists parsed. split; [exact P|]. split; [exact Nm|].
  split; [now rewrite Hc, G1|].
  split; [now rewrite Hd, G2|].
  exists rating1. split; [exact Hr|exact G3].
Defined.

(* ================================================================= *)
(** ** The monitor over the sessions the screens allow *)

Section MonitorSessions.
Context {M : MathLib}.

Ltac fields :=
  cbn [isLinked heartRate oxygenLevel emergencyContact homePosition
       currentPosition isOutOfBounds vitalsAlertShownRef
       outOfBoundsAlertShownRef locationWatchIdRef setVitalsAlertShownRef
       setOutOfBoundsAlertShownRef setVitals setEmergencyContact setLocation
       fst snd andb orb negb app] in *.

Lemma runEffects_wellFormed p c :
  vitalsInRange c -> Forall wellFormedAlert (snd (runEffects p c)).
Proof.
  intros (Hh & Ho).
  unfold runEffects, vitalsAlertEffect, outOfBoundsAlertEffect, hasContact.
  destruct (vitalsDepsChanged p c), (outOfBoundsDepsChanged p c);
    destruct c as [l hr ox ec hp cp ob v w lw]; fields;
    destruct l, (isEmpty (trim ec)) eqn:Ec, v, (abnormal hr ox) eqn:Ab, ob, w;
    fields; rewrite ?Ec; fields;
    repeat constructor; cbn [wellFormedAlert]; auto; lia.
Qed.

Lemma runEffects_session p c :
  isLinked c = true -> vitalsInRange c ->
  sessionInvariant (fst (runEffects p c))
  /\ Forall wellFormedAlert (snd (runEffects p c)).
Proof.
  intros L R. split; [|now apply runEffects_wellFormed].
  destruct (runEffects_state p c) as (E1 & E2 & E3 & _).
  unfold sessionInvariant, vitalsInRange in *. rewrite E1, E2, E3.
  split; [congruence | auto].
Qed.

Ltac draws :=
  repeat match goal with
         | H : (_ <=? _) = true |- _ => apply Z.leb_le in H
         end.

Lemma clamp_range lo hi x : lo <= hi -> lo <= clamp lo hi x <= hi.
Proof. unfold clamp. lia. Qed.

Lemma step_session a e :
  sessionInvariant a -> enabled a e = true ->
  sessionInvariant (fst (step a e))
  /\ Forall wellFormedAlert (snd (step a e)).
Proof.
  intros [I0 I1] En.
  destruct e as [r26 r5|r5 mv up|p|s|h|]; cbn [enabled] in En.
  - repeat (apply andb_prop in En as [En ?]). draws.
    apply negb_true_iff in En. rewrite (I0 En).
    cbn [step initialApp isLinked].
    rewrite vitalsAlertEffect_blank by reflexivity.
    fields.
    match goal with
    | |- context [runEffects ?p ?c] =>
        destruct (runEffects_session p c) as [J W];
        [reflexivity | unfold vitalsInRange; cbn; lia | destruct (runEffects p c) as [a6 o2]]
    end.
    now fields.
  - repeat (apply andb_prop in En as [En ?]). draws.
    cbn [step]. rewrite En. apply runEffects_session; [exact En|].
    split; cbn; apply clamp_range; lia.
  - assert (L : isLinked a = true).
    { destruct (isLinked a) eqn:L; [reflexivity|].
      rewrite (I0 eq_refl) in En. discriminate En. }
    cbn [step]. rewrite En. apply runEffects_session; [exact L|].
    exact (I1 L).
  - cbn [step]. apply runEffects_session; [exact En|]. exact (I1 En).
  - apply andb_prop in En as [L Hc]. destruct (I1 L) as [Hh Ho].
    cbn [step]. apply runEffects_session; destruct h; cbn; auto;
      split; cbn; auto; lia.
  - cbn. split; [|constructor]. split; [reflexivity | discriminate].
Qed.

Lemma run_session es : forall a,
  sessionInvariant a -> feasible a es = true ->
  Forall sessionInvariant (states a es)
  /\ Forall (Forall wellFormedAlert) (snd (run a es)).
Proof.
  induction es as [|e es IH]; intros a I F; [now split|].
  cbn [feasible] in F. apply andb_prop in F as [En F].
  destruct (step_session a e I En) as [I1 W1].
  destruct (IH _ I1 F) as [S O].
  rewrite states_cons, run_outputs_cons. split; constructor; auto.
Qed.

Lemma initialApp_session : sessionInvariant initialApp.
Proof. split; [reflexivity | discriminate]. Qed.

(** X1. In every run that the screens allow from a fresh [App], with
    draws of [Math.floor(Math.random() * n)], a linked watch shows a
    heart rate of 50 to 130 and an oxygen level of 90 to 100 after every
    event, simulated abnormal readings included; an [App] that is not
    linked is in its initial state. *)
Theorem linked_vitals_in_range (es : list Event) :
  feasible initialApp es = true ->
  Forall (fun a => (isLinked a = true -> vitalsInRange a)
                   /\ (isLinked a = false -> a = initialApp))
         (states initialApp es).
Proof.
  intros F. destruct (run_session es _ initialApp_session F) as [S _].
  eapply Forall_impl; [|exact S]. intros a [I0 I1]. now split.
Qed.

(** X2. Every alert shown in such a run names a contact that is not
    blank, and a vitals alert reports an abnormal reading of the
    simulator's range: no alert reports the readings 0 and 0 that the
    [App] holds before the first simulated reading. *)
Theorem alerts_report_simulated_readings (es : list Event) :
  feasible initialApp es = true ->
  Forall (Forall wellFormedAlert) (snd (run initialApp es)).
Proof.
  intros F. now destruct (run_session es _ initialApp_session F) as [_ O].
Qed.

End MonitorSessions.

(* ================================================================= *)
(** ** The two latches over a session *)

Section LatchTraces.
Context {M : MathLib}.

Ltac fields :=
  cbn [isLinked heartRate oxygenLevel emergencyContact homePosition
       currentPosition isOutOfBounds vitalsAlertShownRef
       outOfBoundsAlertShownRef locationWatchIdRef setVitalsAlertShownRef
       setOutOfBoundsAlertShownRef setVitals setEmergencyContact setLocation
       fst snd andb orb negb app] in *.

(** The effects of one render show at most one vitals alert, and none
    once the flag is taken. *)
Lemma runEffects_vitals p c :
  let r := runEffects p c in
  (vitalsAlertShownRef c = true ->
   filter isVitalsAlert (snd r) = [] /\ vitalsAlertShownRef (fst r) = true)
  /\ (List.length (filter isVitalsAlert (snd r)) <= 1)%nat
  /\ (filter isVitalsAlert (snd r) <> [] -> vitalsAlertShownRef (fst r) = true).
Proof.
  unfold runEffects, vitalsAlertEffect, outOfBoundsAlertEffect.
  destruct (vitalsDepsChanged p c), (outOfBoundsDepsChanged p c),
    (hasContact c) eqn:Hc; unfold hasContact in *;
    destruct c as [l hr ox ec hp cp ob v w lw]; fields;
    destruct l, v, (abnormal hr ox), ob, w; fields; rewrite ?Hc; fields;
    cbn [filter isVitalsAlert List.length];
    repeat split; try discriminate; try congruence; try lia.
Qed.

Lemma step_vitals a e :
  isLinked a = true ->
  isSimulateAbnormal e = false -> isRemount e = false ->
  isLinked (fst (step a e)) = true
  /\ (vitalsAlertShownRef a = true ->
      filter isVitalsAlert (snd (step a e)) = []
      /\ vitalsAlertShownRef (fst (step a e)) = true)
  /\ (List.length (filter isVitalsAlert (snd (step a e))) <= 1)%nat
  /\ (filter isVitalsAlert (snd (step a e)) <> [] ->
      vitalsAlertShownRef (fst (step a e)) = true).
Proof.
  intros L S R.
  assert (Eff : forall c,
             isLinked c = true ->
             vitalsAlertShownRef c = vitalsAlertShownRef a ->
             isLinked (fst (runEffects a c)) = true
             /\ (vitalsAlertShownRef a = true ->
                 filter isVitalsAlert (snd (runEffects a c)) = []
                 /\ vitalsAlertShownRef (fst (runEffects a c)) = true)
             /\ (List.length
                   (filter isVitalsAlert (snd (runEffects a c))) <= 1)%nat
             /\ (filter isVitalsAlert (snd (runEffects a c)) <> [] ->
                 vitalsAlertShownRef (fst (runEffects a c)) = true)).
  { intros c Lc V. destruct (runEffects_state a c) as (E & _).
    destruct (runEffects_vitals a c) as (P1 & P2 & P3).
    rewrite E, <- V. auto. }
  destruct e as [r26 r5|r5 mv up|p|s|h|]; try discriminate; cbn [step].
  - rewrite L. cbn. repeat split; auto; congruence.
  - rewrite L. now apply Eff.
  - destruct (locationWatchIdRef a); [now apply Eff|].
    cbn. repeat split; auto; congruence.
  - now apply Eff.
Qed.

(** Once the vitals alert has been shown, no event but the simulate
    button and a remount brings it back. *)
Lemma run_vitals_shown : forall es a,
  isLinked a = true -> unprompted es = true ->
  vitalsAlertShownRef a = true ->
  filter isVitalsAlert (List.concat (snd (run a es))) = [].
Proof.
  induction es as [|e es IH]; intros a L U V; [reflexivity|].
  cbn [unprompted forallb] in U. apply andb_prop in U as [Ue U].
  apply andb_prop in Ue as [U1 U2]. apply negb_true_iff in U1, U2.
  destruct (step_vitals a e L U1 U2) as (L1 & P & _).
  destruct (P V) as [N V1].
  rewrite run_outputs_cons. cbn [List.concat].
  rewrite filter_app, N. cbn [app]. now apply IH.
Qed.

(** X3. While the watch stays linked and the simulate button is not
    pressed, at most one vitals alert is shown, however many readings
    turn normal and abnormal again; none is shown when one was shown
    before. *)
Theorem vitals_alert_at_most_once (a : App) (es : list Event) :
  isLinked a = true -> unprompted es = true ->
  (vitalsAlerts (snd (run a es)) <= 1)%nat
  /\ (vitalsAlertShownRef a = true -> vitalsAlerts (snd (run a es)) = 0%nat).
Proof.
  unfold vitalsAlerts.
  revert a; induction es as [|e es IH]; intros a L U.
  - cbn. split; [lia | reflexivity].
  - split; [|intros V; now rewrite run_vitals_shown].
    pose proof U as U'.
    cbn [unprompted forallb] in U. apply andb_prop in U as [Ue U].
    apply andb_prop in Ue as [U1 U2]. apply negb_true_iff in U1, U2.
    destruct (step_vitals a e L U1 U2) as (L1 & _ & P2 & P3).
    rewrite run_outputs_cons. cbn [List.concat].
    rewrite filter_app, length_app.
    destruct (filter isVitalsAlert (snd (step a e))) as [|x xs] eqn:F.
    + cbn [List.length]. now apply IH.
    + rewrite (run_vitals_shown es _ L1 U); [cbn [List.length] in *; lia|].
      apply P3. discriminate.
Qed.

(** X6. The alert does not wait for the contact to be complete: with an
    abnormal reading on a linked watch and no contact entered yet, the
    first change of the contact field to a text that is not blank shows
    the vitals alert, which names that text; the changes of the field
    that follow show no vitals alert. *)
Theorem first_keystroke_alerts (a : App) (typed : jsstring)
        (later : list jsstring) :
  isLinked a = true -> hasContact a = false ->
  vitalsAlertShownRef a = false ->
  abnormal (heartRate a) (oxygenLevel a) = true ->
  isEmpty (trim typed) = false ->
  let shown := snd (run a (map ContactChange (typed :: later))) in
  filter isVitalsAlert (hd [] shown)
  = [VitalsAlert (heartRate a) (oxygenLevel a) typed]
  /\ vitalsAlerts (tl shown) = 0%nat.
Proof.
  intros L Hc V Ab T shown. subst shown. cbn [map].
  rewrite run_outputs_cons. cbn [hd tl].
  assert (D : JsString.eqb (emergencyContact a) typed = false).
  { destruct (JsString.eqb (emergencyContact a) typed) eqn:E; [|reflexivity].
    apply jsstring_eqb_eq in E. unfold hasContact in Hc. rewrite E in Hc.
    rewrite T in Hc. discriminate Hc. }
  assert (S1 : filter isVitalsAlert (snd (step a (ContactChange typed)))
               = [VitalsAlert (heartRate a) (oxygenLevel a) typed]
               /\ vitalsAlertShownRef (fst (step a (ContactChange typed)))
                  = true
               /\ isLinked (fst (step a (ContactChange typed))) = true).
  { cbn [step]. unfold runEffects, vitalsDepsChanged, outOfBoundsDepsChanged,
      vitalsAlertEffect, outOfBoundsAlertEffect, hasContact in *.
    destruct a as [l hr ox ec hp cp ob v w lw]; fields. subst l v.
    rewrite D, Ab, T, ?andb_false_r. fields.
    destruct ob, w; cbn [Bool.eqb]; fields; rewrite ?T; fields;
      cbn [filter isVitalsAlert]; auto. }
  destruct S1 as (F & V1 & L1). split; [exact F|].
  unfold vitalsAlerts. rewrite run_vitals_shown; auto.
  clear. induction later as [|x later IH]; [reflexivity|]. exact IH.
Qed.

(** The out-of-bounds effect of one render, with a contact that the
    render does not change: the alert is shown exactly when the boundary
    state turns from in-bounds to out-of-bounds. *)
Lemma runEffects_location p c :
  emergencyContact p = emergencyContact c -> hasContact c = true ->
  (outOfBoundsAlertShownRef c = true -> isOutOfBounds p = true) ->
  existsb isLocationAlert (snd (runEffects p c))
  = negb (isOutOfBounds p) && isOutOfBounds c
  /\ (outOfBoundsAlertShownRef (fst (runEffects p c)) = true ->
      isOutOfBounds c = true)
  /\ hasContact (fst (runEffects p c)) = true.
Proof.
  intros E Hc I.
  unfold runEffects, outOfBoundsDepsChanged.
  rewrite E, jsstring_eqb_refl, andb_true_r.
  assert (V : forall x, existsb isLocationAlert (snd (vitalsAlertEffect x))
                        = false).
  { intros x. unfold vitalsAlertEffect.
    now repeat match goal with
               | |- context [if ?b then _ else _] => destruct b
               end. }
  assert (K : forall b : bool,
             let r := if b then vitalsAlertEffect c else (c, []) in
             existsb isLocationAlert (snd r) = false
             /\ isOutOfBounds (fst r) = isOutOfBounds c
             /\ outOfBoundsAlertShownRef (fst r) = outOfBoundsAlertShownRef c
             /\ hasContact (fst r) = true).
  { intros [|]; cbn zeta; [|now auto].
    split; [apply V|]. unfold vitalsAlertEffect.
    now repeat match goal with
               | |- context [if ?b then _ else _] => destruct b
               end. }
  specialize (K (vitalsDepsChanged p c)). cbn zeta in K.
  destruct (if vitalsDepsChanged p c then vitalsAlertEffect c else (c, []))
    as [a1 o1]. fields. destruct K as (K1 & K2 & K3 & K4).
  unfold outOfBoundsAlertEffect. rewrite K2, K3, K4.
  unfold hasContact in *.
  destruct (isOutOfBounds p) eqn:Op, (isOutOfBounds c) eqn:Oc,
    (outOfBoundsAlertShownRef c) eqn:W;
    cbn [Bool.eqb negb andb fst snd];
    try (specialize (I eq_refl); discriminate I);
    rewrite ?K2; fields;
    rewrite ?existsb_app, ?K1, ?app_nil_r;
    cbn [existsb isLocationAlert orb];
    repeat split; auto; try congruence.
  now rewrite K2.
Qed.

Lemma step_location a e :
  hasContact a = true ->
  (outOfBoundsAlertShownRef a = true -> isOutOfBounds a = true) ->
  isContactChange e = false -> isRemount e = false ->
  existsb isLocationAlert (snd (step a e))
  = negb (isOutOfBounds a) && isOutOfBounds (fst (step a e))
  /\ (outOfBoundsAlertShownRef (fst (step a e)) = true ->
      isOutOfBounds (fst (step a e)) = true)
  /\ hasContact (fst (step a e)) = true.
Proof.
  intros Hc I Nc Nr.
  assert (Same : existsb isLocationAlert []
                 = negb (isOutOfBounds a) && isOutOfBounds a)
    by now destruct (isOutOfBounds a).
  assert (Eff : forall p c,
             emergencyContact p = emergencyContact c -> hasContact c = true ->
             (outOfBoundsAlertShownRef c = true -> isOutOfBounds p = true) ->
             isOutOfBounds p = isOutOfBounds a ->
             existsb isLocationAlert (snd (runEffects p c))
             = negb (isOutOfBounds a) && isOutOfBounds (fst (runEffects p c))
             /\ (outOfBoundsAlertShownRef (fst (runEffects p c)) = true ->
                 isOutOfBounds (fst (runEffects p c)) = true)
             /\ hasContact (fst (runEffects p c)) = true).
  { intros p c E H J Op.
    destruct (runEffects_location p c E H J) as (P1 & P2 & P3).
    destruct (runEffects_state p c) as (_ & _ & _ & _ & _ & _ & -> & _).
    rewrite <- Op. auto. }
  destruct e as [r26 r5|r5 mv up|p|s|h|]; try discriminate; cbn [step].
  - destruct (isLinked a) eqn:L; [now cbn [fst snd]|].
    match goal with
    | |- context [vitalsAlertEffect ?x] =>
        pose proof (vitalsAlertEffect_state x) as (_ & _ & _ & Ec & _ & _ & Eo & _);
        assert (V : existsb isLocationAlert (snd (vitalsAlertEffect x)) = false)
          by (unfold vitalsAlertEffect;
              now repeat match goal with
                         | |- context [if ?b then _ else _] => destruct b
                         end);
        destruct (vitalsAlertEffect x) as [a3 o1]
    end.
    fields.
    match goal with
    | |- context [runEffects ?p ?c] =>
        destruct (Eff p c) as (P1 & P2 & P3);
        [reflexivity
        | unfold hasContact in *; fields; now rewrite Ec
        | fields; discriminate
        | fields; exact Eo
        | destruct (runEffects p c) as [a6 o2]]
    end.
    fields. rewrite existsb_app, V. auto.
  - destruct (isLinked a); [|now cbn [fst snd]]. now apply Eff.
  - destruct (locationWatchIdRef a); [|now cbn [fst snd]].
    apply Eff; auto.
  - apply Eff; destruct h; auto.
Qed.

(** X4. With a contact entered and not changed, the location alert is
    the debouncer of the specification run on the boundary state: over
    any events of a session, it is shown at the events after which the
    boundary state is out-of-bounds when it was in-bounds before, once
    for each excursion. *)
Theorem location_alert_once_per_excursion (a : App) (es : list Event) :
  hasContact a = true ->
  (outOfBoundsAlertShownRef a = true -> isOutOfBounds a = true) ->
  contactKept es = true -> withinSession es = true ->
  map (existsb isLocationAlert) (snd (run a es))
  = SpecDebouncer.fires (negb (isOutOfBounds a))
                        (map isOutOfBounds (states a es)).
Proof.
  revert a; induction es as [|e es IH]; intros a Hc I K W; [reflexivity|].
  cbn [contactKept withinSession forallb] in K, W.
  apply andb_prop in K as [Ke K]. apply andb_prop in W as [We W].
  apply negb_true_iff in Ke, We.
  destruct (step_location a e Hc I Ke We) as (P1 & P2 & P3).
  rewrite run_outputs_cons, states_cons. cbn [map SpecDebouncer.fires].
  rewrite (IH _ P3 P2 K W), P1.
  unfold SpecDebouncer.evaluate.
  now destruct (isOutOfBounds a), (isOutOfBounds (fst (step a e))).
Qed.

(** X5. The simulate button, which the screen enables for a linked watch
    with a contact entered, shows the vitals alert with the simulated
    reading and the contact, whether or not an alert was shown before;
    but it shows nothing when the reading it sets is the one already
    shown (a heart rate of 125, an oxygen level of 91), for no state
    changes then. It never shows a location alert. *)
Theorem simulate_abnormal_alerts (a : App) (heart : bool) :
  isLinked a = true -> hasContact a = true ->
  snd (step a (SimulateAbnormal heart))
  = if heart then
      if heartRate a =? 125 then []
      else [VitalsAlert 125 (oxygenLevel a) (emergencyContact a)]
    else
      if oxygenLevel a =? 91 then []
      else [VitalsAlert (heartRate a) 91 (emergencyContact a)].
Proof.
  intros L Hc. cbn [step]. unfold runEffects, vitalsDepsChanged,
    outOfBoundsDepsChanged, vitalsAlertEffect, hasContact in *.
  destruct heart; fields;
    rewrite ?Z.eqb_refl, ?eqb_reflx, ?jsstring_eqb_refl, L, Hc; fields.
  - destruct (heartRate a =? 125); reflexivity.
  - destruct (oxygenLevel a =? 91) eqn:E; fields; [reflexivity|].
    unfold abnormal. cbn. now rewrite orb_true_r.
Qed.

End LatchTraces.

(* ================================================================= *)
(** ** The hospital reconciliation: labelled lines *)

Section LabelledLines.

(** The capturing greedy star of [.] takes the rest of the line. *)
Lemma matchHere_group s :
  matchHere [GroupStar Dot] s
  = Some {| matched := restOfLine s; captures := [restOfLine s] |}.
Proof.
  cbn [matchHere].
  match goal with
  | |- ?f s [] = _ =>
      assert (G : forall s g,
                 f s g = Some {| matched := rev g ++ restOfLine s;
                                 captures := [rev g ++ restOfLine s] |})
  end.
  { clear s. induction s as [|c s IH]; intros g.
    - cbn. now rewrite !app_nil_r.
    - cbn [restOfLine inSet]. rewrite IH.
      destruct (isLineTerminator c); cbn [negb option_map rev].
      + cbn. now rewrite !app_nil_r.
      + now rewrite <- !app_assoc. }
  apply G.
Qed.

Lemma matchHere_label label s :
  option_map group1 (matchHere (lits label ++ [GroupStar Dot]) s)
  = if ciStartsWith s label
    then Some (Some (restOfLine (skipn (List.length label) s)))
    else None.
Proof.
  rewrite matchHere_lits. destruct (ciStartsWith s label); [|reflexivity].
  now rewrite matchHere_group.
Qed.

Lemma regexMatch_label label : forall s,
  option_map group1 (regexMatch (lits label ++ [GroupStar Dot]) s)
  = option_map (fun rest => Some (restOfLine rest)) (afterLabel label s).
Proof.
  induction s as [|c s IH]; cbn [regexMatch afterLabel];
    pose proof (matchHere_label label) as H.
  - specialize (H []). destruct (matchHere _ []), (ciStartsWith [] label);
      cbn in *; congruence.
  - specialize (H (c :: s)).
    destruct (matchHere _ (c :: s)), (ciStartsWith (c :: s) label);
      cbn in *; congruence.
Qed.

Lemma trim_nil : trim [] = [].
Proof. reflexivity. Qed.

Lemma field_labelled label block :
  field (lits label ++ [GroupStar Dot]) block = labelled label block.
Proof.
  unfold field, labelled.
  pose proof (regexMatch_label label block) as H.
  destruct (regexMatch _ block) as [m|], (afterLabel label block) as [r|];
    cbn in H; try congruence.
  injection H as ->. now destruct (restOfLine r).
Qed.

(** X7. What the three field expressions (a label and the capturing
    greedy star of the dot, under the flag [i]) extract from a block: the
    text that follows the leftmost place where the label occurs, in any
    case, up to the end of that line, trimmed; the empty text when the
    label does not occur. *)
Theorem field_is_rest_of_line (label block : jsstring) :
  field (lits label ++ [GroupStar Dot]) block = labelled label block
  /\ field contactRegex block = labelled (js "CONTACT: ") block
  /\ field doctorRegex block = labelled (js "BEST DOCTOR: ") block
  /\ field ratingRegex block = labelled (js "RATING: ") block.
Proof. repeat split; apply field_labelled. Qed.

End LabelledLines.

(* ================================================================= *)
(** ** The hospital reconciliation: a block of the format *)

Section FormatBlock.

Lemma afterLabel_absent label : forall pre rest,
  absentIn label pre rest = true ->
  afterLabel label (pre ++ rest) = afterLabel label rest.
Proof.
  induction pre as [|c pre IH]; intros rest H; [reflexivity|].
  cbn [absentIn] in H. apply andb_prop in H as [H1 H2].
  apply negb_true_iff in H1.
  change ((c :: pre) ++ rest) with (c :: pre ++ rest) in *.
  cbn [afterLabel]. rewrite H1. now apply IH.
Qed.

Lemma regexMatch_absent name : forall pre rest,
  absentIn (js "HOSPITAL: " ++ name) pre rest = true ->
  regexMatch (blockPattern name) (pre ++ rest)
  = regexMatch (blockPattern name) rest.
Proof.
  induction pre as [|c pre IH]; intros rest H; [reflexivity|].
  cbn [absentIn] in H. apply andb_prop in H as [H1 H2].
  apply negb_true_iff in H1.
  change ((c :: pre) ++ rest) with (c :: pre ++ rest) in *.
  cbn [regexMatch]. rewrite matchHere_block, H1. now apply IH.
Qed.

Lemma lazyFind_absent d : forall pre rest,
  absentIn d pre rest = true -> ciStartsWith rest d = true ->
  lazyFind d (pre ++ rest) = Some (pre ++ firstn (List.length d) rest).
Proof.
  induction pre as [|c pre IH]; intros rest H S.
  - cbn [app]. destruct rest; cbn [lazyFind]; now rewrite S.
  - cbn [absentIn] in H. apply andb_prop in H as [H1 H2].
    apply negb_true_iff in H1.
    change ((c :: pre) ++ rest) with (c :: pre ++ rest) in *.
    cbn [lazyFind]. rewrite H1, IH by assumption. reflexivity.
Qed.

Lemma absentIn_app label : forall u v rest,
  absentIn label u (v ++ rest) = true -> absentIn label v rest = true ->
  absentIn label (u ++ v) rest = true.
Proof.
  induction u as [|c u IH]; intros v rest H1 H2; [exact H2|].
  cbn [absentIn app] in *. apply andb_prop in H1 as [H H1].
  rewrite <- app_assoc. change ((c :: u) ++ v ++ rest) with (c :: u ++ v ++ rest) in H.
  rewrite H. cbn [andb]. now apply IH.
Qed.

Lemma charMatches_colon x c :
  Ascii.eqb x ":" = true -> charMatches x c = Ascii.eqb c ":".
Proof.
  intros H. apply Ascii.eqb_eq in H. subst x.
  destruct c as [[|] [|] [|] [|] [|] [|] [|] [|]]; reflexivity.
Qed.

(** A label with a colon and no line feed does not begin within a line
    that has no colon. *)
Lemma ciStartsWith_line : forall label u rest,
  existsb (fun x => Ascii.eqb x ":") label = true ->
  forallb (fun x => negb (charMatches x LF)) label = true ->
  colonFree u = true ->
  ciStartsWith (u ++ LF :: rest) label = false.
Proof.
  induction label as [|x label IH]; intros u rest Hc Hl Hu;
    [discriminate Hc|].
  cbn [existsb forallb] in Hc, Hl. apply andb_prop in Hl as [Hx Hl].
  apply negb_true_iff in Hx.
  destruct u as [|c u].
  - cbn [app ciStartsWith]. now rewrite Hx.
  - cbn [app ciStartsWith]. cbn [colonFree forallb] in Hu.
    apply andb_prop in Hu as [Hcc Hu]. apply negb_true_iff in Hcc.
    destruct (Ascii.eqb x ":") eqn:Ex.
    + now rewrite (charMatches_colon _ _ Ex), Hcc.
    + cbn [orb] in Hc. rewrite (IH u rest Hc Hl Hu). apply andb_false_r.
Qed.

Lemma absentIn_line label rest :
  existsb (fun x => Ascii.eqb x ":") label = true ->
  forallb (fun x => negb (charMatches x LF)) label = true ->
  forall u, colonFree u = true -> absentIn label (u ++ [LF]) rest = true.
Proof.
  intros Hc Hl. induction u as [|c u IH]; intros Hu.
  - pose proof (ciStartsWith_line label [] rest Hc Hl eq_refl) as X.
    cbn [app absentIn] in *. now rewrite X.
  - pose proof (ciStartsWith_line label (c :: u) rest Hc Hl Hu) as X.
    cbn [app absentIn] in *. rewrite <- app_assoc. cbn [app].
    rewrite X. cbn [negb andb].
    apply IH. cbn [colonFree forallb] in Hu.
    now apply andb_prop in Hu as [_ Hu].
Qed.

Lemma startsWith_sentinel_line u rest :
  startsWith (u ++ LF :: rest) (js "---") = startsWith u (js "---").
Proof.
  destruct u as [|a [|b [|c u]]]; cbn [app startsWith js list_ascii_of_string];
    reflexivity.
Qed.

Lemma absentIn_sentinel rest : forall u,
  includes u (js "---") = false ->
  absentIn (js "---") (u ++ [LF]) rest = true.
Proof.
  induction u as [|c u IH]; intros H; [reflexivity|].
  cbn [includes] in H. apply orb_false_elim in H as [H1 H2].
  cbn [app absentIn]. rewrite <- app_assoc. cbn [app].
  rewrite ciStartsWith_sentinel.
  change (c :: u ++ LF :: rest) with ((c :: u) ++ LF :: rest).
  rewrite startsWith_sentinel_line, H1. cbn [negb andb]. now apply IH.
Qed.

Lemma restOfLine_line : forall u rest,
  oneLine u = true -> restOfLine (u ++ LF :: rest) = u.
Proof.
  induction u as [|c u IH]; intros rest H; [reflexivity|].
  cbn [oneLine forallb] in H. apply andb_prop in H as [Hc Hu].
  apply negb_true_iff in Hc. cbn [app restOfLine]. rewrite Hc.
  now rewrite IH.
Qed.

Lemma charMatches_refl x : charMatches x x = true.
Proof. apply N.eqb_refl. Qed.

Lemma ciStartsWith_refl : forall s rest, ciStartsWith (s ++ rest) s = true.
Proof.
  induction s as [|c s IH]; intros rest; [reflexivity|].
  cbn [app ciStartsWith]. now rewrite charMatches_refl, IH.
Qed.

Lemma regexMatch_here p s r :
  matchHere p s = Some r -> regexMatch p s = Some r.
Proof. intros H. destruct s; cbn [regexMatch]; now rewrite H. Qed.

Lemma valueText_parts s :
  valueText s = true ->
  oneLine s = true /\ colonFree s = true /\ includes s (js "---") = false.
Proof.
  unfold valueText. intros H. apply andb_prop in H as [H H3].
  apply andb_prop in H as [H1 H2]. apply negb_true_iff in H3. auto.
Qed.

End FormatBlock.

Section ReadBack.
Variable random : nat -> number.

Ltac norm :=
  cbn [js list_ascii_of_string app]; repeat (rewrite <- ?app_assoc; cbn [app]).

Lemma afterLabel_here label s :
  ciStartsWith s label = true ->
  afterLabel label s = Some (skipn (List.length label) s).
Proof. intros H. destruct s; cbn [afterLabel]; now rewrite H. Qed.

(** The value of a line of the format. *)
Lemma labelled_line label pre v rest :
  absentIn label pre (label ++ v ++ LF :: rest) = true ->
  oneLine v = true ->
  labelled label (pre ++ label ++ v ++ LF :: rest) = trim v.
Proof.
  intros A O. unfold labelled.
  rewrite afterLabel_absent by exact A.
  rewrite afterLabel_here by apply ciStartsWith_refl.
  rewrite skipn_app, skipn_all, Nat.sub_diag. cbn [app skipn].
  now rewrite restOfLine_line.
Qed.

Lemma formatBlock_match hname phone doctor stars pre tail :
  absentIn (js "HOSPITAL: " ++ hname) pre
           (formatBlock hname phone doctor stars ++ tail) = true ->
  includes phone (js "---") = false -> includes doctor (js "---") = false ->
  includes stars (js "---") = false ->
  regexMatch (blockPattern hname)
             (pre ++ formatBlock hname phone doctor stars ++ tail)
  = Some {| matched := formatBlock hname phone doctor stars;
            captures := [] |}.
Proof.
  intros A Sp Sd Ss. rewrite regexMatch_absent by exact A.
  apply regexMatch_here. rewrite matchHere_block.
  set (header := js "HOSPITAL: " ++ hname).
  set (mid := (LF :: js "CONTACT: ") ++ (phone ++ [LF])
              ++ js "BEST DOCTOR: " ++ (doctor ++ [LF])
              ++ js "RATING: " ++ (stars ++ [LF])).
  assert (E : forall x,
             formatBlock hname phone doctor stars ++ x
             = header ++ mid ++ js "---" ++ x).
  { intros x. unfold formatBlock, header, mid.
    norm. reflexivity. }
  rewrite E, ciStartsWith_refl.
  rewrite skipn_app, skipn_all, Nat.sub_diag. cbn [app skipn].
  rewrite firstn_app, firstn_all, Nat.sub_diag. cbn [firstn].
  rewrite app_nil_r.
  rewrite lazyFind_absent; [|..].
  - cbn [option_map]. f_equal. f_equal.
    rewrite <- (app_nil_r (formatBlock _ _ _ _)), E.
    now rewrite !app_nil_r.
  - subst mid.
    pose proof (fun x => absentIn_sentinel x phone Sp) as Lp.
    pose proof (fun x => absentIn_sentinel x doctor Sd) as Ld.
    pose proof (fun x => absentIn_sentinel x stars Ss) as Ls.
    remember (phone ++ [LF]) as lp. remember (doctor ++ [LF]) as ld.
    remember (stars ++ [LF]) as ls.
    repeat (apply absentIn_app; [first [reflexivity | apply Lp | apply Ld]|]).
    apply Ls.
  - reflexivity.
Qed.

(** The callback of the map on a block of the format. *)
Lemma parseHospital_formatted
        (hname link phone doctor stars pre tail : jsstring) (k index : nat) :
  absentIn (js "HOSPITAL: " ++ hname) pre
           (formatBlock hname phone doctor stars ++ tail) = true ->
  colonFree hname = true ->
  valueText phone = true -> valueText doctor = true ->
  valueText stars = true ->
  contactMissing (trim phone) = false ->
  doctorMissing (trim doctor) = false ->
  ratingMissing (trim stars) = false ->
  parseHospital random (pre ++ formatBlock hname phone doctor stars ++ tail)
                k (grounding hname link) index
  = Done ({| name := hname; uri := link;
             bestDoctor := Some (trim doctor);
             rating := Some (trim stars);
             contact := Some (trim phone) |}, k).
Proof.
  intros A Cn Vp Vd Vs Mp Md Ms.
  apply valueText_parts in Vp as (Op & Cp & Sp).
  apply valueText_parts in Vd as (Od & Cd & Sd).
  apply valueText_parts in Vs as (Os & Cs & Ss).
  unfold parseHospital. cbn [name uri grounding].
  rewrite hospitalBlockRegex_literal. unfold extract.
  rewrite formatBlock_match by assumption. cbn [matched].
  unfold contactRegex, doctorRegex, ratingRegex. rewrite !field_labelled.
  pose proof (fun l x H1 H2 => absentIn_line l x H1 H2 hname Cn) as Ln.
  pose proof (fun l x H1 H2 => absentIn_line l x H1 H2 phone Cp) as Lp.
  pose proof (fun l x H1 H2 => absentIn_line l x H1 H2 doctor Cd) as Ld.
  remember (hname ++ [LF]) as ln eqn:En.
  remember (phone ++ [LF]) as lp eqn:Ep.
  remember (doctor ++ [LF]) as ld eqn:Ed.
  assert (Rc : labelled (js "CONTACT: ")
                 (formatBlock hname phone doctor stars) = trim phone).
  { transitivity
      (labelled (js "CONTACT: ")
         ((js "HOSPITAL: " ++ ln)
            ++ js "CONTACT: " ++ phone
            ++ LF :: js "BEST DOCTOR: " ++ doctor
            ++ LF :: js "RATING: " ++ stars ++ LF :: js "---")).
    { f_equal. subst ln. unfold formatBlock. norm. reflexivity. }
    apply labelled_line; [|exact Op].
    repeat (apply absentIn_app;
            [first [reflexivity | now apply Ln | now apply Lp | now apply Ld]|]).
    now apply Ln. }
  assert (Rd : labelled (js "BEST DOCTOR: ")
                 (formatBlock hname phone doctor stars) = trim doctor).
  { transitivity
      (labelled (js "BEST DOCTOR: ")
         ((js "HOSPITAL: " ++ ln ++ js "CONTACT: " ++ lp)
            ++ js "BEST DOCTOR: " ++ doctor
            ++ LF :: js "RATING: " ++ stars ++ LF :: js "---")).
    { f_equal. subst ln lp. unfold formatBlock. norm. reflexivity. }
    apply labelled_line; [|exact Od].
    repeat (apply absentIn_app;
            [first [reflexivity | now apply Ln | now apply Lp | now apply Ld]|]).
    now apply Lp. }
  assert (Rs : labelled (js "RATING: ")
                 (formatBlock hname phone doctor stars) = trim stars).
  { transitivity
      (labelled (js "RATING: ")
         ((js "HOSPITAL: " ++ ln ++ js "CONTACT: " ++ lp
             ++ js "BEST DOCTOR: " ++ ld)
            ++ js "RATING: " ++ stars ++ LF :: js "---")).
    { f_equal. subst ln lp ld. unfold formatBlock. norm. reflexivity. }
    apply labelled_line; [|exact Os].
    repeat (apply absentIn_app;
            [first [reflexivity | now apply Ln | now apply Lp | now apply Ld]|]).
    now apply Ld. }
  rewrite Rc, Rd, Rs, Mp, Md, Ms. reflexivity.
Qed.

(** X8. A block of the format that the prompt asks for is read back:
    when the narrative holds, at the leftmost header of the hospital's
    name, the lines of the format with a contact, a doctor and a rating
    that are each one line without a colon and without the sentinel, and
    none of them reads as missing, then the reconciled record has
    exactly these three values, trimmed, and no random number is
    drawn. *)
Theorem formatted_block_is_read_back
        (hname link phone doctor stars pre tail : jsstring) (k index : nat) :
  absentIn (js "HOSPITAL: " ++ hname) pre
           (formatBlock hname phone doctor stars ++ tail) = true ->
  colonFree hname = true ->
  valueText phone = true -> valueText doctor = true ->
  valueText stars = true ->
  contactMissing (trim phone) = false ->
  doctorMissing (trim doctor) = false ->
  ratingMissing (trim stars) = false ->
  parseHospital random (pre ++ formatBlock hname phone doctor stars ++ tail)
                k (grounding hname link) index
  = Done ({| name := hname; uri := link;
             bestDoctor := Some (trim doctor);
             rating := Some (trim stars);
             contact := Some (trim phone) |}, k).
Proof. apply parseHospital_formatted. Qed.



End ReadBack.

(* ================================================================= *)
(** ** Rounding between two bounds, and the range of the rating *)

Section RatingRange.

Lemma Zdigits2_le m h c :
  0 <= m -> 0 < h -> 0 <= c -> m <= h * 2 ^ c ->
  Zdigits2 m <= Zdigits2 h + c.
Proof.
  intros Hm Hh Hc H.
  destruct (Z.eq_dec m 0) as [-> | N].
  - destruct h as [|p|p]; try lia. cbn [Zdigits2].
    pose proof (Pos2Z.is_pos (digits2_pos p)). lia.
  - apply Zdigits2_bound; [lia|].
    destruct h as [|p|p]; try lia. cbn [Zdigits2].
    pose proof (digits2_bounds p) as [_ Hi].
    rewrite pow2_split by lia.
    assert (0 < 2 ^ c) by (apply Z.pow_pos_nonneg; lia).
    eapply Z.le_lt_trans; [exact H|].
    apply Z.mul_lt_mono_pos_r; assumption.
Qed.

Lemma fexp_mono x y : x <= y -> fexp prec emax x <= fexp prec emax y.
Proof. unfold fexp, emin, prec, emax. lia. Qed.

(** The rounding of an exact value below a representable bound and not
    below another one stays between the two. *)
Lemma round_aux_between lo elo hi ehi m e :
  0 <= lo -> 0 < hi -> e <= ehi -> ehi <= elo -> ehi <= 971 ->
  fexp prec emax (Zdigits2 hi + ehi) <= ehi ->
  lo * 2 ^ (elo - e) <= m < hi * 2 ^ (ehi - e) ->
  valueBetween lo elo hi ehi
    (binary_round_aux prec emax false m e loc_Exact).
Proof.
  intros Hlo Hhi He Hee Hmax Hcan [Hl Hu].
  assert (Hm0 : 0 <= m).
  { eapply Z.le_trans; [|exact Hl].
    apply Z.mul_nonneg_nonneg; [lia | apply Z.pow_nonneg; lia]. }
  unfold binary_round_aux, shr_fexp.
  set (n1 := fexp prec emax (Zdigits2 m + e) - e).
  pose proof (shr_any_spec m loc_Exact e n1 Hm0) as S1.
  destruct (shr (shr_record_of_loc m loc_Exact) e n1) as [r1 e1].
  destruct S1 as (E1 & M1).
  assert (Hdg : Zdigits2 m + e <= Zdigits2 hi + ehi).
  { pose proof (Zdigits2_le m hi (ehi - e) Hm0 Hhi ltac:(lia) ltac:(lia)).
    lia. }
  assert (He1 : e <= e1 /\ e1 <= ehi).
  { subst e1 n1. pose proof (fexp_mono _ _ Hdg). lia. }
  destruct He1 as [Hee1 He1].
  replace (Z.max 0 n1) with (e1 - e) in M1 by lia.
  assert (P1 : 0 < 2 ^ (e1 - e)) by (apply Z.pow_pos_nonneg; lia).
  assert (Su : 2 ^ (ehi - e) = 2 ^ (e1 - e) * 2 ^ (ehi - e1))
    by (rewrite <- pow2_split by lia; f_equal; lia).
  assert (Sl : 2 ^ (elo - e) = 2 ^ (e1 - e) * 2 ^ (elo - e1))
    by (rewrite <- pow2_split by lia; f_equal; lia).
  set (Ku := hi * 2 ^ (ehi - e1)). set (Kl := lo * 2 ^ (elo - e1)).
  assert (Hm1 : Kl <= shr_m r1 < Ku).
  { rewrite M1. split.
    - apply Z.div_le_lower_bound; [exact P1|].
      subst Kl. rewrite Z.mul_comm, <- Z.mul_assoc, (Z.mul_comm _ (2 ^ (e1 - e))), <- Sl.
      exact Hl.
    - apply Z.div_lt_upper_bound; [exact P1|].
      subst Ku. rewrite Z.mul_comm, <- Z.mul_assoc, (Z.mul_comm _ (2 ^ (e1 - e))), <- Su.
      exact Hu. }
  pose proof (round_nearest_even_bounds (shr_m r1) (loc_of_shr_record r1)) as R.
  set (m2 := round_nearest_even (shr_m r1) (loc_of_shr_record r1)) in *.
  assert (HKl : 0 <= Kl)
    by (subst Kl; apply Z.mul_nonneg_nonneg; [lia | apply Z.pow_nonneg; lia]).
  assert (Hm2 : Kl <= m2 <= Ku) by lia.
  set (n2 := fexp prec emax (Zdigits2 m2 + e1) - e1).
  pose proof (shr_spec m2 e1 n2 ltac:(lia)) as S2.
  destruct (shr (shr_record_of_loc m2 loc_Exact) e1 n2) as [r2 e2].
  destruct S2 as (E2 & M2 & _).
  assert (Hdg2 : Zdigits2 m2 + e1 <= Zdigits2 hi + ehi).
  { pose proof (Zdigits2_le m2 hi (ehi - e1) ltac:(lia) Hhi ltac:(lia)
                  ltac:(subst Ku; lia)).
    lia. }
  assert (He2 : e1 <= e2 /\ e2 <= ehi).
  { subst e2 n2. pose proof (fexp_mono _ _ Hdg2). lia. }
  destruct He2 as [He12 He2].
  replace (Z.max 0 n2) with (e2 - e1) in M2 by lia.
  assert (P2 : 0 < 2 ^ (e2 - e1)) by (apply Z.pow_pos_nonneg; lia).
  assert (Su2 : 2 ^ (ehi - e1) = 2 ^ (e2 - e1) * 2 ^ (ehi - e2))
    by (rewrite <- pow2_split by lia; f_equal; lia).
  assert (Sl2 : 2 ^ (elo - e1) = 2 ^ (e2 - e1) * 2 ^ (elo - e2))
    by (rewrite <- pow2_split by lia; f_equal; lia).
  assert (Hm3 : lo * 2 ^ (elo - e2) <= shr_m r2 <= hi * 2 ^ (ehi - e2)).
  { rewrite M2. split.
    - apply Z.div_le_lower_bound; [exact P2|].
      rewrite Z.mul_comm, <- Z.mul_assoc, (Z.mul_comm _ (2 ^ (e2 - e1))), <- Sl2.
      apply Hm2.
    - apply Z.div_le_upper_bound; [exact P2|].
      rewrite Z.mul_comm, <- Z.mul_assoc, (Z.mul_comm _ (2 ^ (e2 - e1))), <- Su2.
      apply Hm2. }
  assert (P3 : 0 < 2 ^ (elo - e2)) by (apply Z.pow_pos_nonneg; lia).
  destruct (shr_m r2) as [|p|p]; cbn [valueBetween].
  - destruct Hm3 as [H3 _]. clear - H3 P3 Hlo. nia.
  - change (emax - prec) with 971.
    destruct (Z.leb_spec e2 971); [|lia]. cbn [valueBetween]. auto.
  - exfalso. destruct Hm3 as [H3 _].
    assert (0 <= lo * 2 ^ (elo - e2)) by (apply Z.mul_nonneg_nonneg; lia).
    lia.
Qed.

Lemma binary_round_between lo elo hi ehi m e :
  0 <= lo -> 0 < hi -> e <= ehi -> ehi <= elo -> ehi <= 971 ->
  fexp prec emax (Zdigits2 hi + ehi) <= ehi ->
  lo * 2 ^ (elo - e) <= Zpos m < hi * 2 ^ (ehi - e) ->
  valueBetween lo elo hi ehi (binary_round prec emax false m e).
Proof.
  intros Hlo Hhi He Hee Hmax Hcan [Hl Hu]. unfold binary_round.
  set (e' := fexp prec emax (Zpos (digits2_pos m) + e)).
  destruct (Z_le_gt_dec e' e) as [C|C].
  - rewrite shl_align_spec by exact C.
    assert (P : 0 < 2 ^ (e - e')) by (apply Z.pow_pos_nonneg; lia).
    assert (Q : 0 < Zpos m * 2 ^ (e - e')) by (apply Z.mul_pos_pos; lia).
    apply round_aux_between; try lia.
    rewrite Z2Pos.id by exact Q.
    replace (elo - e') with ((elo - e) + (e - e')) by lia.
    replace (ehi - e') with ((ehi - e) + (e - e')) by lia.
    rewrite !pow2_split by lia. rewrite !Z.mul_assoc. split.
    + apply Z.mul_le_mono_nonneg_r; lia.
    + apply Z.mul_lt_mono_pos_r; lia.
  - unfold shl_align. destruct (e' - e) as [|d|d] eqn:E; try lia.
    apply round_aux_between; auto.
Qed.

(** The rating before formatting lies between 3.75 and 5.03125. *)
Lemma rating_value_between r :
  isUnitDraw r = true ->
  valueBetween 15 (-2) 161 (-5) (add (mul r (sub n5_0 n3_8)) n3_8).
Proof.
  intros U.
  change (sub n5_0 n3_8) with (S754_finite false 5404319552844596 (-52)).
  destruct (unit_draw_shape r U) as [-> | (m & e & -> & Hm & He)].
  - vm_compute. repeat split; discriminate.
  - rewrite mul_finite. cbn [xorb].
    assert (W : valueBetween 0 (-52) 5404319552844596 (-52)
                  (binary_round_aux prec emax false
                     (Z.pos (m * 5404319552844596)) (e + -52) loc_Exact)).
    { apply round_aux_between; try lia.
      - vm_compute. discriminate.
      - replace (-52 - (e + -52)) with (- e) by lia.
        rewrite Pos2Z.inj_mul. split; [lia|].
        assert (2 ^ 53 <= 2 ^ (- e)) by (apply Z.pow_le_mono_r; lia).
        rewrite (Z.mul_comm (Z.pos m)).
        apply Z.mul_lt_mono_pos_l; lia. }
    set (x1 := binary_round_aux _ _ _ _ _ _) in *. clearbody x1.
    destruct x1 as [s1|s1| |s1 m1 e1];
      cbn [valueBetween] in W; try (exfalso; exact W).
    + destruct s1; [exfalso; exact W|].
      vm_compute. repeat split; discriminate.
    + destruct s1; [exfalso; exact W|].
      destruct W as (He1 & _ & _ & Hm1).
      unfold n3_8, add, SF64add, SFadd. cbn [cond_Zopp].
      replace (Z.min e1 (-51)) with e1 by lia.
      rewrite !shl_align_spec by lia. cbn [fst].
      set (P := 2 ^ (-52 - e1)) in *.
      assert (HP : 0 < P) by (apply Z.pow_pos_nonneg; lia).
      assert (E0 : 2 ^ (e1 - e1) = 1) by (now rewrite Z.sub_diag).
      assert (E1 : 2 ^ (-51 - e1) = 2 * P).
      { subst P. replace (-51 - e1) with (1 + (-52 - e1)) by lia.
        now rewrite pow2_split by lia. }
      assert (E2 : 2 ^ (-2 - e1) = 1125899906842624 * P).
      { subst P. replace (-2 - e1) with (50 + (-52 - e1)) by lia.
        now rewrite pow2_split by lia. }
      assert (E5 : 2 ^ (-5 - e1) = 140737488355328 * P).
      { subst P. replace (-5 - e1) with (47 + (-52 - e1)) by lia.
        now rewrite pow2_split by lia. }
      rewrite E0, E1. rewrite !Z2Pos.id by lia.
      destruct (Z.pos m1 * 1 + 8556839292003942 * (2 * P))
        as [|q|q] eqn:S; try lia.
      cbn [binary_normalize].
      apply binary_round_between; try lia.
      vm_compute. discriminate.
Qed.

(** [toFixed(1)] of a number between 3.75 and 5.03125. *)
Lemma toFixed1_between x :
  valueBetween 15 (-2) 161 (-5) x ->
  exists n, 38 <= n <= 50
            /\ toFixed1 x
               = Some [digitChar (n / 10); "."%char; digitChar (n mod 10)].
Proof.
  destruct x as [[|]|s| |[|] m e]; cbn [valueBetween]; try easy.
  intros (He & _ & Hl & Hu). unfold toFixed1.
  set (P := 2 ^ (-5 - e)) in *.
  assert (HP : 0 < P) by (apply Z.pow_pos_nonneg; lia).
  assert (E2 : 2 ^ (-2 - e) = 8 * P).
  { subst P. replace (-2 - e) with (3 + (-5 - e)) by lia.
    now rewrite pow2_split by lia. }
  assert (E0 : 2 ^ (- e) = 32 * P).
  { subst P. replace (- e) with (5 + (-5 - e)) by lia.
    now rewrite pow2_split by lia. }
  assert (E1 : 2 ^ (1 - e) = 64 * P).
  { subst P. replace (1 - e) with (6 + (-5 - e)) by lia.
    now rewrite pow2_split by lia. }
  rewrite E2 in Hl.
  assert (B : atLeast1e21 m e = false).
  { unfold atLeast1e21. destruct (Z.leb_spec 0 e) as [C|C]; [lia|].
    apply Z.leb_gt. rewrite E0.
    change (10 ^ 21) with 1000000000000000000000. lia. }
  rewrite B. cbn [app js list_ascii_of_string].
  assert (N : 38 <= nearestTenths m e <= 50).
  { unfold nearestTenths. destruct (Z.leb_spec 0 e) as [C|C]; [lia|].
    rewrite E0, E1. split.
    - apply Z.div_le_lower_bound; lia.
    - assert ((20 * Z.pos m + 32 * P) / (64 * P) < 51)
        by (apply Z.div_lt_upper_bound; lia).
      lia. }
  exists (nearestTenths m e). split; [exact N|].
  assert (N1 : 0 <= nearestTenths m e / 10 <= 9).
  { split; [apply Z.div_pos; lia|]. apply Z.div_le_upper_bound; lia. }
  now rewrite decimal_digit by exact N1.
Qed.

(** X9. The generated rating is never below 3.8 nor above 5.0: for
    every result of [Math.random()] the label is one of the thirteen
    from [3.8/5 stars] to [5.0/5 stars]. *)
Theorem generated_rating_in_range (r : number) :
  isUnitDraw r = true ->
  exists n, 38 <= n <= 50 /\ generateRandomRating r = Some (tenthsLabel n).
Proof.
  intros U. unfold generateRandomRating.
  destruct (toFixed1_between _ (rating_value_between r U)) as (n & N & ->).
  exists n. split; [exact N | reflexivity].
Qed.

End RatingRange.

(* ================================================================= *)
(** ** The hospital finder screen *)

Section FinderStartOver.
Variable random : nat -> number.
Import FinderScreen.

(** The handler on the state that it sets before the request. *)
Lemma settle_pending resultText hits :
  settle random resultText hits pending
  = handleFindHospitals random resultText hits.
Proof. reflexivity. Qed.

(** X10. Starting over does not cancel a search under way: when the
    user starts a search, starts over while the request is pending, and
    the response arrives with grounding data, the state of the finder
    ends as if the user had not started over; the screen of the finder,
    when it is opened again, shows the list of these hospitals and not
    the form. *)
Theorem start_over_keeps_search (skipBudget : bool) (budget : jsstring)
        (st : FinderState) (resultText : jsstring) (hits : list Hospital) :
  conforming random -> hits <> [] ->
  snd (begin skipBudget budget st) = true ->
  let searching := fst (begin skipBudget budget st) in
  exists parsed,
    settle random resultText hits (startNewCheck searching)
    = settle random resultText hits searching
    /\ view (startNewCheck searching) = LoadingView
    /\ option_map view
         (settle random resultText hits (startNewCheck searching))
       = Some (ResultsView parsed)
    /\ map name parsed = map name hits.
Proof.
  intros C N B searching. subst searching. unfold begin in *.
  destruct (negb skipBudget && isEmpty (trim budget)); [discriminate B|].
  cbn [fst]. unfold settle, startNewCheck.
  destruct hits as [|h hits]; [congruence|]. cbn [List.length Nat.eqb].
  destruct (parseHospitals_done random resultText (h :: hits) C 0%nat 0%nat)
    as [parsed E].
  rewrite E. exists parsed.
  destruct (parseHospitals_keeps _ _ _ _ _ _ E) as [Hn _].
  repeat split; auto.
  cbn. unfold view. cbn.
  destruct parsed as [|p parsed]; [discriminate Hn | reflexivity].
Qed.

End FinderStartOver.

(* ================================================================= *)
(** ** The login gate *)

Section LoginGate.
Import Auth.

Lemma render_app g :
  render g = TheApp <-> showIntro g = false /\ isAuthenticated g = true.
Proof.
  unfold render.
  destruct (showIntro g), (isAuthenticated g), (authScreen g); cbn;
    split; try discriminate; try tauto; intros [? ?]; discriminate.
Qed.

(** The [App] is authenticated only with the intro page passed, no login
    error stored and the login page chosen. *)
Lemma authenticated_clean actions :
  let g := actAll initialAuthGate actions in
  isAuthenticated g = true ->
  showIntro g = false /\ loginError g = [] /\ authScreen g = login.
Proof.
  unfold actAll.
  induction actions as [|x actions IH] using rev_ind; [discriminate|].
  rewrite fold_left_app. cbn [fold_left].
  set (g := fold_left act actions initialAuthGate) in *. cbv zeta in *.
  intros H. unfold act, render in H |- *.
  destruct (showIntro g) eqn:S, (isAuthenticated g) eqn:A,
    (authScreen g) eqn:Sc; cbn [negb] in *;
    destruct x as [|u p| | |];
    try (now apply IH);
    try (cbn in H; rewrite ?A in H; discriminate H);
    try (destruct (IH eq_refl) as (? & ? & ?); discriminate);
    try (destruct (IH eq_refl) as (? & ? & ?); now auto).
  all: unfold handleLogin in *; destruct (_ && _); cbn in *;
    rewrite ?S, ?A in *; auto; discriminate.
Qed.

(** The one action that opens the [App]. *)
Lemma act_opens g a :
  (isAuthenticated g = true -> showIntro g = false) ->
  render g <> TheApp -> render (act g a) = TheApp ->
  a = Submit (js "user") (js "password").
Proof.
  intros I N H.
  assert (A : isAuthenticated g = false).
  { destruct (isAuthenticated g) eqn:A; [|reflexivity].
    elim N. apply render_app. auto. }
  apply render_app in H as [H1 H2]. revert H1 H2. unfold act.
  destruct (render g) eqn:R, a as [|u p| | |]; cbn; try congruence.
  unfold handleLogin.
  destruct (JsString.eqb u (js "user")) eqn:Eu;
    [destruct (JsString.eqb p (js "password")) eqn:Ep|]; cbn; try congruence.
  apply jsstring_eqb_eq in Eu, Ep. now subst.
Qed.

Lemma act_logout g : render (act g Logout) <> TheApp \/ render g <> TheApp.
Proof.
  destruct (render g) eqn:R; try (right; discriminate).
  left. unfold act. rewrite R. unfold handleLogout, render. cbn.
  now destruct (showIntro g), (authScreen g).
Qed.

(** X11. The [App] is rendered only after the login form was submitted
    with exactly the user name [user] and the password [password], and
    no logout since: whatever else is done on the intro page, the login
    page and the page for a forgotten password, none of it opens the
    [App]. *)
Theorem app_needs_the_credentials (actions : list Action) :
  render (actAll initialAuthGate actions) = TheApp ->
  exists before after,
    actions = before ++ Submit (js "user") (js "password") :: after
    /\ forallb (fun a => negb (isLogout a)) after = true.
Proof.
  induction actions as [|x actions IH] using rev_ind; [discriminate|].
  pose proof (authenticated_clean actions) as C. cbv zeta in C.
  unfold actAll in *.
  rewrite fold_left_app. cbn [fold_left].
  set (g := fold_left act actions initialAuthGate) in *.
  assert (I : isAuthenticated g = true -> showIntro g = false)
    by (intros A; now destruct (C A)).
  intros H. destruct (render g) eqn:R;
    try (exists actions, []; split; [|reflexivity];
         f_equal; f_equal; apply (act_opens g); [exact I | congruence | exact H]).
  destruct (IH eq_refl) as (before & after & -> & Na).
  exists before, (after ++ [x]). split; [now rewrite <- app_assoc|].
  rewrite forallb_app, Na. cbn. rewrite andb_true_r.
  destruct x; try reflexivity.
  destruct (act_logout g) as [E | E]; congruence.
Qed.

(** X12. Signing out leads to the login page, and the page shows no error
    message, whatever failed attempts came before the login. *)
Theorem logout_shows_clean_login (actions : list Action) :
  render (actAll initialAuthGate actions) = TheApp ->
  render (actAll initialAuthGate (actions ++ [Logout])) = LoginPage [].
Proof.
  intros H. pose proof (authenticated_clean actions) as C. cbv zeta in C.
  unfold actAll in *. rewrite fold_left_app. cbn [fold_left].
  set (g := fold_left act actions initialAuthGate) in *.
  unfold act. rewrite H. apply render_app in H as [S A].
  destruct (C A) as (_ & E1 & E2).
  unfold handleLogout, render. cbn. now rewrite S, E1, E2.
Qed.

End LoginGate.

(* ================================================================= *)
(** ** The markup of the analysis results *)

Section ResultsMarkup.
Import Markup.

Lemma boldAt_plain c s : Ascii.eqb c "*" = false -> boldAt (c :: s) = None.
Proof. intros H. unfold boldAt. cbn. now rewrite H. Qed.

Lemma replaceBold_plain : forall pre rest,
  starFree pre = true ->
  replaceBold (pre ++ rest) 0 = pre ++ replaceBold rest 0.
Proof.
  induction pre as [|c pre IH]; intros rest H; [reflexivity|].
  cbn [starFree forallb] in H. apply andb_prop in H as [Hc H].
  apply negb_true_iff in Hc.
  cbn [app replaceBold]. rewrite (boldAt_plain _ _ Hc). now rewrite IH.
Qed.

Lemma replaceBold_skip : forall x rest,
  replaceBold (x ++ rest) (List.length x) = replaceBold rest 0.
Proof.
  induction x as [|c x IH]; intros rest; [reflexivity|].
  cbn [app List.length replaceBold]. apply IH.
Qed.

Lemma lazyGroup_found : forall g acc rest,
  starFree g = true -> oneLine g = true ->
  lazyGroup (g ++ js "**" ++ rest) acc = Some (rev acc ++ g, rest).
Proof.
  induction g as [|c g IH]; intros acc rest S O.
  - cbn. now rewrite app_nil_r.
  - cbn [starFree oneLine forallb] in S, O.
    apply andb_prop in S as [Sc S]. apply andb_prop in O as [Oc O].
    apply negb_true_iff in Sc, Oc.
    cbn [app lazyGroup].
    assert (N : startsWith (c :: g ++ js "**" ++ rest) (js "**") = false)
      by (cbn; now rewrite Sc).
    rewrite N, Oc, IH by assumption.
    cbn [rev]. now rewrite <- app_assoc.
Qed.

Lemma replaceLineFeeds_app x y :
  replaceLineFeeds (x ++ y) = replaceLineFeeds x ++ replaceLineFeeds y.
Proof. apply flat_map_app. Qed.

Lemma replaceLineFeeds_plain : forall s,
  lineFeedFree s = true -> replaceLineFeeds s = s.
Proof.
  induction s as [|c s IH]; intros H; [reflexivity|].
  cbn [lineFeedFree forallb] in H. apply andb_prop in H as [Hc H].
  apply negb_true_iff in Hc.
  change (replaceLineFeeds (c :: s))
    with ((if Ascii.eqb c LF then js "<br />" else [c])
            ++ replaceLineFeeds s).
  now rewrite Hc, IH.
Qed.

Lemma oneLine_lineFeedFree s : oneLine s = true -> lineFeedFree s = true.
Proof.
  unfold oneLine, lineFeedFree. intros H.
  rewrite forallb_forall in *. intros c Hc. specialize (H c Hc).
  apply negb_true_iff in H. apply negb_true_iff.
  destruct (Ascii.eqb c LF) eqn:E; [|reflexivity].
  apply Ascii.eqb_eq in E. subst c. discriminate H.
Qed.

(** X13. A name between two pairs of asterisks becomes a heading: for a
    text before it without an asterisk and a name on one line without an
    asterisk, the markup of the results screen is the markup of the text
    before, the name between the tags [h3], and the markup of what
    follows. *)
Theorem bold_becomes_heading (pre name post : jsstring) :
  starFree pre = true -> starFree name = true -> oneLine name = true ->
  resultsMarkup (pre ++ js "**" ++ name ++ js "**" ++ post)
  = js "<h2>Potential Conditions</h2>"
       ++ replaceLineFeeds pre
       ++ js "<h3>" ++ name ++ js "</h3>"
       ++ replaceLineFeeds (replaceBold post 0).
Proof.
  intros Sp Sn On. unfold resultsMarkup. f_equal.
  rewrite replaceBold_plain by exact Sp.
  assert (B : boldAt (js "**" ++ name ++ js "**" ++ post) = Some (name, post)).
  { unfold boldAt. cbn [js list_ascii_of_string app startsWith skipn].
    cbn. exact (lazyGroup_found name [] post Sn On). }
  assert (R : replaceBold (js "**" ++ name ++ js "**" ++ post) 0
              = js "<h3>" ++ name ++ js "</h3>" ++ replaceBold post 0).
  { change (js "**" ++ name ++ js "**" ++ post)
      with ("*"%char :: "*"%char :: name ++ js "**" ++ post) in *.
    cbn [replaceBold]. rewrite B. f_equal. f_equal. f_equal.
    change ("*"%char :: name ++ js "**" ++ post)
      with (["*"%char] ++ name ++ js "**" ++ post).
    rewrite !app_assoc.
    replace (List.length name + 3)%nat
      with (List.length ((["*"%char] ++ name) ++ js "**"))
      by (rewrite !length_app; cbn; lia).
    apply replaceBold_skip. }
  rewrite R, !replaceLineFeeds_app.
  rewrite (replaceLineFeeds_plain name) by now apply oneLine_lineFeedFree.
  reflexivity.
Qed.

Lemma replaceBold_none : forall s,
  includes s (js "**") = false -> replaceBold s 0 = s.
Proof.
  induction s as [|c s IH]; intros H; [reflexivity|].
  cbn [includes] in H. apply orb_false_elim in H as [H1 H2].
  cbn [replaceBold]. unfold boldAt. rewrite H1. now rewrite IH.
Qed.

(** X14. Nothing is escaped: a text without a pair of asterisks and
    without a line feed is set as inner HTML as it is, tags included, on
    the results screen (after the fixed heading) and on the history
    screen; and with line feeds, the history screen changes nothing but
    them. *)
Theorem markup_is_not_escaped (results : jsstring) :
  includes results (js "**") = false -> lineFeedFree results = true ->
  resultsMarkup results = js "<h2>Potential Conditions</h2>" ++ results
  /\ historyMarkup results = results.
Proof.
  intros H L. unfold resultsMarkup, historyMarkup.
  now rewrite replaceBold_none, replaceLineFeeds_plain.
Qed.

End ResultsMarkup.

(* ================================================================= *)
(** ** Trimming and the voice input *)

Section Trimming.

Lemma trimStart_headKept s : headKept (trimStart s).
Proof.
  induction s as [|c s IH]; cbn; [exact I|].
  destruct (isWhiteSpace c) eqn:E; [exact IH | exact E].
Qed.

Lemma trimStart_kept s : headKept s -> trimStart s = s.
Proof. destruct s as [|c s]; cbn; [reflexivity|]. now intros ->. Qed.

Lemma trimStart_app : forall a b,
  trimStart (a ++ b)
  = match trimStart a with
    | [] => trimStart b
    | c :: t => (c :: t) ++ b
    end.
Proof.
  induction a as [|c a IH]; intros b; [reflexivity|].
  cbn [app trimStart]. destruct (isWhiteSpace c); [apply IH | reflexivity].
Qed.

Lemma trimEnd_kept s : headKept (rev s) -> trimEnd s = s.
Proof.
  intros H. unfold trimEnd. rewrite trimStart_kept by exact H.
  apply rev_involutive.
Qed.

Lemma trimEnd_last s : headKept (rev (trimEnd s)).
Proof.
  unfold trimEnd. rewrite rev_involutive. apply trimStart_headKept.
Qed.

(** [trimEnd] keeps a beginning of the text. *)
Lemma trimEnd_prefix s : exists w, s = trimEnd s ++ w.
Proof.
  unfold trimEnd.
  assert (G : forall r, exists w, r = w ++ trimStart r).
  { induction r as [|c r [w IH]]; [now exists []|].
    cbn [trimStart]. destruct (isWhiteSpace c).
    - exists (c :: w). cbn. now f_equal.
    - now exists []. }
  destruct (G (rev s)) as [w E]. exists (rev w).
  rewrite <- rev_app_distr, <- E. symmetry. apply rev_involutive.
Qed.

Lemma trimEnd_headKept s : headKept s -> headKept (trimEnd s).
Proof.
  intros H. destruct (trimEnd_prefix s) as [w E].
  destruct (trimEnd s) as [|c t]; [exact I|].
  rewrite E in H. exact H.
Qed.

Lemma trim_headKept s : headKept (trim s) /\ headKept (rev (trim s)).
Proof.
  unfold trim. split; [|apply trimEnd_last].
  apply trimEnd_headKept, trimStart_headKept.
Qed.

Lemma trim_kept s : headKept s -> headKept (rev s) -> trim s = s.
Proof.
  intros H1 H2. unfold trim. rewrite (trimStart_kept s H1).
  now apply trimEnd_kept.
Qed.

Lemma trim_idempotent s : trim (trim s) = trim s.
Proof. destruct (trim_headKept s). now apply trim_kept. Qed.

Lemma startsWith_app : forall p rest, startsWith (p ++ rest) p = true.
Proof.
  induction p as [|c p IH]; intros rest; [reflexivity|].
  cbn [app startsWith]. now rewrite Ascii.eqb_refl, IH.
Qed.

(** A trimmed text that is not empty, with more text after it, is kept
    by [trim] at the beginning of the result. *)
Lemma trim_after tp x :
  tp <> [] -> headKept tp -> headKept (rev tp) ->
  trim (tp ++ x) = tp ++ rev (trimStart (rev x)).
Proof.
  intros N H1 H2. unfold trim.
  rewrite trimStart_kept by (destruct tp; [congruence | exact H1]).
  unfold trimEnd. rewrite rev_app_distr, trimStart_app.
  destruct (trimStart (rev x)) as [|c t] eqn:E.
  - rewrite trimStart_kept by exact H2. cbn [rev].
    now rewrite rev_involutive, app_nil_r.
  - rewrite rev_app_distr. now rewrite rev_involutive.
Qed.

Lemma trimStart_blank s : allWhiteSpace s = true -> trimStart s = [].
Proof.
  induction s as [|c s IH]; [reflexivity|]. cbn [allWhiteSpace forallb].
  intros H. apply andb_prop in H as [Hc H]. cbn [trimStart]. rewrite Hc.
  now apply IH.
Qed.

Lemma blank_trimStart s : trimStart s = [] -> allWhiteSpace s = true.
Proof.
  induction s as [|c s IH]; [reflexivity|]. cbn [trimStart].
  destruct (isWhiteSpace c) eqn:E; [|discriminate].
  intros H. cbn [allWhiteSpace forallb]. rewrite E. now apply IH.
Qed.

Lemma allWhiteSpace_rev s : allWhiteSpace (rev s) = allWhiteSpace s.
Proof.
  unfold allWhiteSpace. induction s as [|c s IH]; [reflexivity|].
  cbn [rev forallb]. rewrite forallb_app, IH. cbn. rewrite andb_true_r.
  apply andb_comm.
Qed.

(** Only white space trims to the empty text. *)
Lemma trim_blank s : trim s = [] -> allWhiteSpace s = true.
Proof.
  unfold trim, trimEnd. intros E.
  apply (f_equal (@rev ascii)) in E. rewrite rev_involutive in E.
  cbn [rev] in E. apply blank_trimStart in E.
  rewrite allWhiteSpace_rev in E.
  pose proof (trimStart_headKept s) as H.
  apply blank_trimStart.
  destruct (trimStart s) as [|c t]; [reflexivity|].
  cbn [allWhiteSpace forallb] in E. apply andb_prop in E as [E _].
  cbn in H. congruence.
Qed.

(** X15. Dictation appends: when the recognition returns a transcript,
    the symptoms field becomes a trimmed text that begins with the text
    typed before, trimmed; a transcript of white space alone leaves the
    typed text, trimmed. *)
Theorem dictation_keeps_typed_text (transcript prev : jsstring) :
  isEmpty transcript = false ->
  let symptoms := Voice.onresult transcript prev in
  trim symptoms = symptoms
  /\ startsWith symptoms (trim prev) = true
  /\ (isEmpty (trim transcript) = true -> symptoms = trim prev).
Proof.
  intros T symptoms. subst symptoms. unfold Voice.onresult. rewrite T.
  split; [apply trim_idempotent|].
  destruct (trim_headKept prev) as [H1 H2].
  destruct (trim prev) as [|c tp] eqn:P.
  - cbn [isEmpty]. split; [reflexivity|].
    intros B. now destruct (trim transcript).
  - cbn [isEmpty]. rewrite trim_after by (congruence || assumption).
    split; [apply startsWith_app|].
    intros B.
    assert (W : trimStart (rev (js " " ++ transcript)) = []).
    { apply trimStart_blank. rewrite allWhiteSpace_rev.
      cbn [js list_ascii_of_string app allWhiteSpace forallb].
      apply trim_blank. now destruct (trim transcript). }
    rewrite W. cbn [rev]. now rewrite app_nil_r.
Qed.

End Trimming.

(* ================================================================= *)
(** ** The health assistant chat *)

Section ChatTurns.
Import Chat.

(** What every state of a conversation keeps. *)
Lemma chatStep_turns st e :
  map role (chatHistory st) = turns (List.length (chatHistory st)) ->
  isAssistantTyping st = Nat.odd (List.length (chatHistory st)) ->
  updatedHistory st
  = (if isAssistantTyping st then Some (chatHistory st) else None) ->
  let st' := chatStep st e in
  map role (chatHistory st') = turns (List.length (chatHistory st'))
  /\ isAssistantTyping st' = Nat.odd (List.length (chatHistory st'))
  /\ updatedHistory st'
     = (if isAssistantTyping st' then Some (chatHistory st') else None)
  /\ exists more, chatHistory st' = chatHistory st ++ more.
Proof.
  intros R T U. cbv zeta.
  assert (Grow : forall r x,
             (if Nat.even (List.length (chatHistory st)) then user else model)
             = r ->
             map role (chatHistory st ++ [{| role := r; text := x |}])
             = turns (List.length
                        (chatHistory st ++ [{| role := r; text := x |}]))).
  { intros r x E. rewrite map_app, length_app, R. cbn [List.length map role].
    rewrite Nat.add_1_r. cbn [turns]. now rewrite E. }
  assert (Same : map role (chatHistory st)
                 = turns (List.length (chatHistory st))
                 /\ isAssistantTyping st
                    = Nat.odd (List.length (chatHistory st))
                 /\ updatedHistory st
                    = (if isAssistantTyping st then Some (chatHistory st)
                       else None)
                 /\ exists more, chatHistory st = chatHistory st ++ more).
  { split; [exact R|]. split; [exact T|]. split; [exact U|].
    exists []. now rewrite app_nil_r. }
  destruct e as [input | reply]; cbn [chatStep].
  - destruct (isAssistantTyping st) eqn:Ty; [rewrite Ty; exact Same|].
    destruct (isEmpty (trim input)); [rewrite Ty; exact Same|].
    cbn [chatHistory isAssistantTyping updatedHistory].
    symmetry in T. rewrite <- Nat.negb_even in T.
    apply negb_false_iff in T.
    split; [apply Grow; now rewrite T|].
    split; [|split; [reflexivity | now eexists]].
    rewrite length_app, Nat.add_1_r, Nat.odd_succ. now symmetry.
  - rewrite U. destruct (isAssistantTyping st) eqn:Ty;
      [|rewrite Ty; exact Same].
    cbn [chatHistory isAssistantTyping updatedHistory].
    symmetry in T. rewrite <- Nat.negb_even in T.
    apply negb_true_iff in T.
    split; [apply Grow; now rewrite T|].
    split; [|split; [reflexivity | now eexists]].
    rewrite length_app, Nat.add_1_r, Nat.odd_succ. now rewrite T.
Qed.

Lemma chatRun_turns es :
  let st := chatRun initialChat es in
  map role (chatHistory st) = turns (List.length (chatHistory st))
  /\ isAssistantTyping st = Nat.odd (List.length (chatHistory st))
  /\ updatedHistory st
     = (if isAssistantTyping st then Some (chatHistory st) else None).
Proof.
  unfold chatRun.
  induction es as [|e es IH] using rev_ind; [now cbn|].
  rewrite fold_left_app. cbn [fold_left]. cbv zeta in *.
  destruct IH as (R & T & U).
  destruct (chatStep_turns _ e R T U) as (R' & T' & U' & _). auto.
Qed.

(** X16. In the chat the two sides take turns, from the first message of
    the user on: after any submissions of the form and ends of requests,
    the history alternates between the user and the model, the indicator
    of typing shows exactly while a message of the user is unanswered,
    and whatever happens next the history goes on from there: no message
    is dropped or rewritten, and a request that fails is answered by the
    message of the error. *)
Theorem chat_takes_turns (es more : list ChatEvent) :
  let st := chatRun initialChat es in
  map role (chatHistory st) = turns (List.length (chatHistory st))
  /\ isAssistantTyping st = Nat.odd (List.length (chatHistory st))
  /\ (exists later,
         chatHistory (chatRun initialChat (es ++ more))
         = chatHistory st ++ later)
  /\ (isAssistantTyping st = true ->
      chatHistory (chatRun initialChat (es ++ [Settle None]))
      = chatHistory st ++ [{| role := model; text := errorReply |}]).
Proof.
  cbv zeta. destruct (chatRun_turns es) as (R & T & U). cbv zeta in *.
  split; [exact R|]. split; [exact T|]. split.
  - unfold chatRun in *. rewrite fold_left_app.
    set (st := fold_left chatStep es initialChat) in *. clearbody st.
    revert st R T U. induction more as [|e more IH]; intros st R T U.
    + exists []. now rewrite app_nil_r.
    + cbn [fold_left].
      destruct (chatStep_turns st e R T U) as (R' & T' & U' & [x X]).
      destruct (IH _ R' T' U') as [y Y].
      exists (x ++ y). now rewrite Y, X, app_assoc.
  - intros Ty. unfold chatRun in *. rewrite fold_left_app. cbn [fold_left].
    cbn [chatStep]. rewrite U, Ty. reflexivity.
Qed.

End ChatTurns.

(* ================================================================= *)
(** ** The history of the symptom checks *)

Section SavedChecks.
Import Checker.

Lemma checkStep_mirror w e :
  State.history (fst w) = State.history (mount (snd w)) ->
  writesSucceed [e] = true ->
  State.history (fst (checkStep w e))
  = State.history (mount (snd (checkStep w e))).
Proof.
  destruct w as [st storage]. cbn [fst snd]. intros I W.
  destruct e as [to| |text|now dateText [|resultText [|]]| |];
    cbn [checkStep]; try discriminate W.
  - now destruct (navigates _ _ _).
  - now destruct (State.screen st).
  - now destruct (onInputScreen st).
  - destruct (onInputScreen st); [|exact I].
    unfold handleAnalyzeSymptoms.
    now destruct (isEmpty (trim (State.symptoms st))).
  - destruct (onInputScreen st); [|exact I].
    unfold handleAnalyzeSymptoms.
    now destruct (isEmpty (trim (State.symptoms st))).
  - now destruct (offersNewCheck _).
  - reflexivity.
Qed.

Lemma checkRun_mirror storage es :
  writesSucceed es = true ->
  State.history (fst (checkRun storage es))
  = State.history (mount (snd (checkRun storage es))).
Proof.
  unfold checkRun. induction es as [|e es IH] using rev_ind; intros W.
  - reflexivity.
  - unfold writesSucceed in *. rewrite forallb_app in W.
    apply andb_prop in W as [W1 W2].
    rewrite fold_left_app. cbn [fold_left].
    apply checkStep_mirror; [now apply IH | exact W2].
Qed.

(** X18. Saved checks survive a logout and login: as long as every write
    of the history succeeds, the history after the [App] is mounted again
    is the history before. A check asked for on the input screen whose
    write fails leaves the user on the input screen with the message of
    an analysis that failed, although its result is set and the check
    heads the history of the session; it is gone when the [App] is
    mounted again. *)
Theorem saved_checks_survive_relogin (storage : Storage)
        (es : list CheckEvent) :
  (writesSucceed es = true ->
   State.history (fst (checkRun storage (es ++ [Relogin])))
   = State.history (fst (checkRun storage es)))
  /\ (forall now dateText resultText,
        let st := fst (checkRun storage es) in
        let st' := fst (checkRun storage
                          (es ++ [Analyze now dateText
                                    (Answered resultText false)])) in
        State.screen st = Screen.input ->
        isEmpty (trim (State.symptoms st)) = false ->
        State.screen st' = Screen.input
        /\ State.history st'
           = {| id := now; symptoms := State.symptoms st;
                results := resultText; date := dateText |}
             :: State.history st
        /\ State.results st' = resultText
        /\ State.error st' = analysisIssueMessage
        /\ State.history
             (fst (checkRun storage
                     (es ++ [Analyze now dateText (Answered resultText false);
                             Relogin])))
           = State.history (fst (checkRun storage (es ++ [Relogin])))).
Proof.
  split.
  - intros W. rewrite (checkRun_mirror storage es W).
    unfold checkRun. rewrite fold_left_app. cbn [fold_left].
    now destruct (fold_left checkStep es (mount storage, storage)).
  - intros now dateText resultText st st' S B. subst st st'.
    unfold checkRun in *. rewrite !fold_left_app. cbn [fold_left].
    destruct (fold_left checkStep es (mount storage, storage))
      as [st storage'].
    cbn [fst] in S, B. cbn [checkStep]. unfold onInputScreen.
    rewrite S. unfold handleAnalyzeSymptoms.
    rewrite B. cbn. auto.
Qed.

End SavedChecks.

(* ================================================================= *)
(** ** The properties above on concrete runs *)

Lemma linked_vitals_in_range_witness :
  let es := [Link 3 1; ContactChange (js "911"); Tick 4 true false;
             SimulateAbnormal true; Remount; Link 25 4] in
  feasible (M := RefMath.lib) initialApp es = true
  /\ Forall (fun a => (isLinked a = true -> vitalsInRange a)
                      /\ (isLinked a = false -> a = initialApp))
            (states (M := RefMath.lib) initialApp es).
Proof.
  cbv zeta. split; [reflexivity|].
  apply (linked_vitals_in_range (M := RefMath.lib)). reflexivity.
Defined.

Lemma alerts_report_simulated_readings_witness :
  let es := [Link 3 1; ContactChange (js "911"); SimulateAbnormal true] in
  feasible (M := RefMath.lib) initialApp es = true
  /\ Forall (Forall wellFormedAlert)
            (snd (run (M := RefMath.lib) initialApp es)).
Proof.
  cbv zeta. split; [reflexivity|].
  apply (alerts_report_simulated_readings (M := RefMath.lib)). reflexivity.
Defined.

Lemma vitals_alert_at_most_once_witness :
  let a := fst (run (M := RefMath.lib) initialApp
                    [Link 0 2; ContactChange (js "911")]) in
  let es := [Tick 0 false false; Tick 0 false false; Tick 0 false false;
             Tick 0 false false; Tick 0 false false; Tick 0 false false;
             Tick 4 false false; Tick 4 false false; Tick 0 false false;
             Tick 0 false false] in
  isLinked a = true /\ unprompted es = true
  /\ (vitalsAlerts (snd (run (M := RefMath.lib) a es)) <= 1)%nat.
Proof.
  cbv zeta. refine (conj eq_refl (conj eq_refl _)).
  refine (proj1 (vitals_alert_at_most_once (M := RefMath.lib) _ _ _ _));
    reflexivity.
Defined.

Lemma first_keystroke_alerts_witness :
  let a := fst (run (M := RefMath.lib) initialApp
                    [Link 0 2; Tick 0 false false; Tick 0 false false;
                     Tick 0 false false; Tick 0 false false;
                     Tick 0 false false; Tick 0 false false]) in
  isLinked a = true /\ hasContact a = false
  /\ vitalsAlertShownRef a = false
  /\ abnormal (heartRate a) (oxygenLevel a) = true
  /\ isEmpty (trim (js "9")) = false
  /\ filter isVitalsAlert
       (hd [] (snd (run (M := RefMath.lib) a
                       (map ContactChange [js "9"; js "91"; js "911"]))))
     = [VitalsAlert 58 98 (js "9")].
Proof.
  cbv zeta.
  refine (conj eq_refl (conj eq_refl (conj eq_refl (conj eq_refl
            (conj eq_refl _))))).
  refine (proj1 (first_keystroke_alerts (M := RefMath.lib) _ (js "9")
                   [js "91"; js "911"] _ _ _ _ _));
    reflexivity.
Defined.

Lemma location_alert_once_per_excursion_witness :
  let a := fst (run (M := RefMath.lib) initialApp
                    [Link 0 2; ContactChange (js "911");
                     Reading (examplePosition 12 77)]) in
  let es := [Reading (examplePosition 13 77); Tick 1 false false;
             Reading (examplePosition 13 77);
             Reading (examplePosition 12 77);
             Reading (examplePosition 13 77)] in
  hasContact a = true /\ contactKept es = true /\ withinSession es = true
  /\ map (existsb isLocationAlert) (snd (run (M := RefMath.lib) a es))
     = SpecDebouncer.fires (negb (isOutOfBounds a))
         (map isOutOfBounds (states (M := RefMath.lib) a es)).
Proof.
  cbv zeta. refine (conj _ (conj eq_refl (conj eq_refl _))).
  - vm_compute. reflexivity.
  - refine (location_alert_once_per_excursion (M := RefMath.lib) _ _ _ _ _ _);
      try (vm_compute; reflexivity).
    vm_compute. intros H; exact H.
Defined.

Lemma simulate_abnormal_alerts_witness :
  let a := fst (run (M := RefMath.lib) initialApp
                    [Link 0 2; ContactChange (js "911")]) in
  isLinked a = true /\ hasContact a = true
  /\ snd (step (M := RefMath.lib) a (SimulateAbnormal true))
     = [VitalsAlert 125 98 (js "911")].
Proof.
  cbv zeta. refine (conj eq_refl (conj eq_refl _)).
  refine (simulate_abnormal_alerts (M := RefMath.lib) _ true _ _);
    reflexivity.
Defined.

Lemma formatted_block_is_read_back_witness :
  let pre := alphaNarrative ++ [LF] in
  let tail := [LF] in
  absentIn (js "HOSPITAL: Beta") pre
    (formatBlock (js "Beta") (js "555-9876") (js " Dr. Jane Smith")
       (js "4.5/5 stars") ++ tail) = true
  /\ colonFree (js "Beta") = true
  /\ valueText (js "555-9876") = true
  /\ valueText (js " Dr. Jane Smith") = true
  /\ valueText (js "4.5/5 stars") = true
  /\ parseHospital (fun _ => posZero)
       (pre ++ formatBlock (js "Beta") (js "555-9876")
               (js " Dr. Jane Smith") (js "4.5/5 stars") ++ tail)
       0 (grounding (js "Beta") (js "u2")) 1
     = Done ({| name := js "Beta"; uri := js "u2";
                bestDoctor := Some (js "Dr. Jane Smith");
                rating := Some (js "4.5/5 stars");
                contact := Some (js "555-9876") |}, 0%nat).
Proof.
  cbv zeta.
  refine (conj eq_refl (conj eq_refl (conj eq_refl (conj eq_refl
            (conj eq_refl _))))).
  exact (formatted_block_is_read_back (fun _ => posZero)
           (js "Beta") (js "u2") (js "555-9876") (js " Dr. Jane Smith")
           (js "4.5/5 stars") (alphaNarrative ++ [LF]) [LF] 0 1
           eq_refl eq_refl eq_refl eq_refl eq_refl eq_refl eq_refl eq_refl).
Defined.

Lemma app_needs_the_credentials_witness :
  let actions :=
    [Auth.GetStarted; Auth.Submit (js "User") (js "password");
     Auth.ForgotPassword; Auth.BackToLogin;
     Auth.Submit (js "user") (js "password"); Auth.GetStarted] in
  Auth.render (Auth.actAll Auth.initialAuthGate actions) = Auth.TheApp
  /\ exists before after,
       actions = before ++ Auth.Submit (js "user") (js "password") :: after
       /\ forallb (fun a => negb (isLogout a)) after = true.
Proof.
  cbv zeta. split; [reflexivity|].
  apply app_needs_the_credentials. reflexivity.
Defined.

Lemma logout_shows_clean_login_witness :
  let actions :=
    [Auth.GetStarted; Auth.Submit (js "user") (js "pass");
     Auth.Submit (js "user") (js "password")] in
  Auth.render (Auth.actAll Auth.initialAuthGate actions) = Auth.TheApp
  /\ Auth.render (Auth.actAll Auth.initialAuthGate (actions ++ [Auth.Logout]))
     = Auth.LoginPage [].
Proof.
  cbv zeta. split; [reflexivity|].
  apply logout_shows_clean_login. reflexivity.
Defined.

Lemma bold_becomes_heading_witness :
  starFree (js "Possible: ") = true /\ starFree (js "Flu") = true
  /\ oneLine (js "Flu") = true
  /\ Markup.resultsMarkup
       (js "Possible: " ++ js "**" ++ js "Flu" ++ js "**" ++ js " rest")
     = js "<h2>Potential Conditions</h2>Possible: <h3>Flu</h3> rest".
Proof.
  refine (conj eq_refl (conj eq_refl (conj eq_refl _))).
  exact (bold_becomes_heading (js "Possible: ") (js "Flu") (js " rest")
           eq_refl eq_refl eq_refl).
Defined.

Lemma markup_is_not_escaped_witness :
  includes (js "<img src=x onerror=alert(1)>") (js "**") = false
  /\ lineFeedFree (js "<img src=x onerror=alert(1)>") = true
  /\ Markup.resultsMarkup (js "<img src=x onerror=alert(1)>")
     = js "<h2>Potential Conditions</h2><img src=x onerror=alert(1)>".
Proof.
  refine (conj eq_refl (conj eq_refl _)).
  exact (proj1 (markup_is_not_escaped (js "<img src=x onerror=alert(1)>")
                  eq_refl eq_refl)).
Defined.

Lemma dictation_keeps_typed_text_witness :
  isEmpty (js "and a fever ") = false
  /\ startsWith (Voice.onresult (js "and a fever ") (js "  headache "))
                (trim (js "  headache ")) = true.
Proof.
  refine (conj eq_refl _).
  exact (proj1 (proj2 (dictation_keeps_typed_text (js "and a fever ")
                         (js "  headache ") eq_refl))).
Defined.

Lemma start_over_keeps_search_witness :
  conforming (fun _ => half)
  /\ [grounding (js "Alpha") (js "u1")] <> []
  /\ snd (FinderScreen.begin true [] pending) = true
  /\ exists parsed,
       option_map FinderScreen.view
         (FinderScreen.settle (fun _ => half) alphaNarrative
            [grounding (js "Alpha") (js "u1")]
            (FinderScreen.startNewCheck
               (fst (FinderScreen.begin true [] pending))))
       = Some (FinderScreen.ResultsView parsed)
       /\ map name parsed = map name [grounding (js "Alpha") (js "u1")].
Proof.
  assert (C : conforming (fun _ => half)) by (intros n; reflexivity).
  assert (N : [grounding (js "Alpha") (js "u1")] <> []) by discriminate.
  refine (conj C (conj N (conj eq_refl _))).
  destruct (start_over_keeps_search (fun _ => half) true [] pending
              alphaNarrative [grounding (js "Alpha") (js "u1")] C N eq_refl)
    as (parsed & _ & _ & V & Hn).
  exists parsed. exact (conj V Hn).
Defined.

Lemma generated_rating_in_range_witness :
  isUnitDraw half = true
  /\ exists n, 38 <= n <= 50
               /\ generateRandomRating half = Some (tenthsLabel n).
Proof.
  refine (conj eq_refl _).
  exact (generated_rating_in_range half eq_refl).
Defined.


Lemma saved_checks_survive_relogin_witness :
  let es := [Checker.Navigate Screen.input; Checker.Edit (js "cough")] in
  let failing := Checker.Analyze 5 (js "today")
                   (Checker.Answered (js "rest") false) in
  let st := fst (Checker.checkRun None es) in
  let st' := fst (Checker.checkRun None (es ++ [failing])) in
  Checker.State.screen st = Screen.input
  /\ isEmpty (trim (Checker.State.symptoms st)) = false
  /\ Checker.State.screen st' = Screen.input
  /\ Checker.State.error st' = Checker.analysisIssueMessage
  /\ List.length (Checker.State.history st') = 1%nat
  /\ Checker.State.history
       (fst (Checker.checkRun None (es ++ [failing; Checker.Relogin])))
     = [].
Proof.
  cbv zeta.
  refine (conj eq_refl (conj eq_refl _)).
  destruct (proj2 (saved_checks_survive_relogin None
                     [Checker.Navigate Screen.input;
                      Checker.Edit (js "cough")])
              5 (js "today") (js "rest") eq_refl eq_refl)
    as (Sc & H & _ & E & G).
  split; [exact Sc|]. split; [exact E|].
  split; [now rewrite H|exact G].
Defined.
